(** * ParaMEDMEM coupling layer of Code_Saturne

    A shallow embedding of [src/base/cs_paramedmem_coupling.cxx]: the
    coupling structure, its meshes and fields, the two data exchange
    channels (DEC) and the public functions that register meshes and
    fields, copy values in and out, synchronize and transfer.

    The MEDCoupling / ParaMEDMEM library is external.  Its objects are
    represented by the data this file hands to them and by the ordered
    trace of the calls this file makes on them; every library call is
    taken to come back, the library's own checks on its arguments are
    not part of the model.

    [cs_medcoupling_mesh_copy_from_base] and
    [cs_medcoupling_mesh_destroy] are defined outside this file: the
    first is an argument of the functions that call it, the second
    only releases memory. *)

From Stdlib Require Import ZArith Floats.
From stdpp Require Import base option list gmap strings.

Open Scope Z_scope.

(** ** Results of a call *)

(** Ways in which a call leaves the behaviour defined by this file. *)
Inductive failure : Type :=
| NullDeref       (* a NULL or never assigned pointer is dereferenced *)
| OutOfBounds     (* an array is indexed outside its allocation *)
| IntOverflow.    (* signed [int] arithmetic leaves the 32-bit range *)

(** [Ok a]: normal return.  [Fail f]: no defined result. *)
Inductive result (A : Type) : Type :=
| Ok (a : A)
| Fail (f : failure).

Arguments Ok {A} a.
Arguments Fail {A} f.

Global Instance result_ret : MRet result := fun A a => Ok a.

Global Instance result_bind : MBind result := fun A B k m =>
  match m with
  | Ok a => k a
  | Fail f => Fail f
  end.

(** Dereference of a pointer that may be NULL. *)
Definition deref {A} (p : option A) : result A :=
  match p with
  | Some a => Ok a
  | None => Fail NullDeref
  end.

(** ** Machine integers: [int] and [cs_lnum_t] are 32-bit signed *)

Definition INT_MIN : Z := - 2 ^ 31.
Definition INT_MAX : Z := 2 ^ 31 - 1.

Definition int_ok (z : Z) : bool := (INT_MIN <=? z) && (z <=? INT_MAX).

(** Signed overflow is undefined in C++. *)
Definition int (z : Z) : result Z :=
  if int_ok z then Ok z else Fail IntOverflow.

(** ** C arrays *)

Definition double : Set := float.

(** [a[i]] as an rvalue. *)
Definition arr_get {A} (a : list A) (i : Z) : result A :=
  if i <? 0 then Fail OutOfBounds
  else match a !! Z.to_nat i with
       | Some x => Ok x
       | None => Fail OutOfBounds
       end.

(** [a[i] = x]. *)
Definition arr_set {A} (a : list A) (i : Z) (x : A) : result (list A) :=
  if i <? 0 then Fail OutOfBounds
  else if i <? Z.of_nat (length a) then Ok (<[Z.to_nat i := x]> a)
  else Fail OutOfBounds.

(** [BFT_REALLOC(a, n, T)] on an array of pointers: the first entries
    are kept, new entries are not initialised ([None]). *)
Definition BFT_REALLOC {A} (a : list (option A)) (n : Z) : list (option A) :=
  resize (Z.to_nat n) None a.

(** [a[i]->...] on an array of pointers. *)
Definition arr_deref {A} (a : list (option A)) (i : Z) : result A :=
  p ← arr_get a i; deref p.

(** [for (i = lo; i < lo + n; i++) body]. *)
Fixpoint for_loop {S} (n : nat) (lo : Z) (body : Z -> S -> result S) (s : S)
  : result S :=
  match n with
  | O => Ok s
  | Datatypes.S n' => s' ← body lo s; for_loop n' (lo + 1) body s'
  end.

(** [for (i = 0; i < hi; i++) body]. *)
Definition for_range {S} (hi : Z) (body : Z -> S -> result S) (s : S)
  : result S :=
  for_loop (Z.to_nat hi) 0 body s.

(** ** External library objects *)

Inductive TypeOfField : Set := ON_CELLS | ON_NODES.

Inductive TypeOfTimeDiscretization : Set :=
| NO_TIME | ONE_TIME | LINEAR_TIME | CONST_ON_TIME_INTERVAL.

Inductive NatureOfField : Set := NoNature | IntensiveConservation.

(** [MEDCouplingUMesh]: the connectivity is built elsewhere; the
    record keeps what this file sets and the two counts it asks for. *)
Record MEDCouplingUMesh : Type := {
  um_name : string;
  um_time_unit : string;
  um_mesh_dimension : Z;
  getNumberOfCells : Z;
  getNumberOfNodes : Z
}.

Definition MEDCouplingUMesh_New : MEDCouplingUMesh :=
  {| um_name := ""; um_time_unit := ""; um_mesh_dimension := 0;
     getNumberOfCells := 0; getNumberOfNodes := 0 |}.

(** [ParaMESH(med_mesh, group, name)]: the mesh is the one of the
    owning entry; the processor group is a set of global ranks. *)
Record ParaMESH : Type := {
  pm_group : gset Z;
  pm_name : string
}.

(** [MEDCouplingFieldDouble]: [fd_time_label] counts [declareAsNew]. *)
Record MEDCouplingFieldDouble : Type := {
  fd_type : TypeOfField;
  fd_td : TypeOfTimeDiscretization;
  fd_nature : NatureOfField;
  fd_name : string;
  fd_array : list double;
  fd_time_label : nat
}.

(** [ParaFIELD(type, td, para_mesh, comp_topo)]; [pf_slot] is the index
    of the parallel mesh it was built on (0: send, 1: receive). *)
Record ParaFIELD : Type := {
  pf_type : TypeOfField;
  pf_td : TypeOfTimeDiscretization;
  pf_slot : nat;
  pf_n_comp : Z
}.

(** Calls made on a data exchange channel; a [ParaFIELD] is named by
    the id of the field entry that owns it. *)
Inductive dec_call : Set :=
| Synchronize
| SendData
| RecvData
| AttachLocalField (field_id : Z).

Global Instance dec_call_eq_dec : EqDecision dec_call.
Proof. solve_decision. Defined.

(** [InterpKernelDEC(source_ids, target_ids)]. *)
Record InterpKernelDEC : Type := {
  source_grp : gset Z;
  target_grp : gset Z;
  dec_calls : list dec_call
}.

Definition dec_call_on (d : InterpKernelDEC) (e : dec_call) : InterpKernelDEC :=
  {| source_grp := source_grp d; target_grp := target_grp d;
     dec_calls := dec_calls d ++ [e] |}.

(** ** Local structure definitions *)

(** [_paramedmem_field_t].  [f] is always assigned by the function that
    allocates the entry.  [pf] is [None] when it was never assigned. *)
Record _paramedmem_field_t : Type := {
  mesh_id : Z;
  dim : Z;
  td : TypeOfTimeDiscretization;
  f : MEDCouplingFieldDouble;
  pf : option ParaFIELD
}.

(** Modelled from the spec: [cs_medcoupling_mesh_t] is declared in
    cs_medcoupling_utils.hxx, which is not part of the sources at hand.
    The members are those this file reads or writes: the selection
    predicate, the topological dimension, the local element count, the
    compact index -> original index list, the MED mesh, and the list
    used to scatter compact values back to the original numbering. *)
Record cs_medcoupling_mesh_t : Type := {
  sel_criteria : string;
  elt_dim : Z;
  n_elts : Z;
  elt_list : option (list Z);
  med_mesh : MEDCouplingUMesh;
  new_to_old : option (list Z)
}.

(** [_paramedmem_mesh_t]; [para_mesh0], [para_mesh1] are [para_mesh[0]]
    (send) and [para_mesh[1]] (receive). *)
Record _paramedmem_mesh_t : Type := {
  mesh : cs_medcoupling_mesh_t;
  direction : Z;
  para_mesh0 : option ParaMESH;
  para_mesh1 : option ParaMESH
}.

(** [struct _cs_paramedmem_coupling_t]. *)
Record cs_paramedmem_coupling_t : Type := {
  name : string;
  n_meshes : Z;
  meshes : list (option _paramedmem_mesh_t);
  n_fields : Z;
  fields : list (option _paramedmem_field_t);
  send_dec : option InterpKernelDEC;
  recv_dec : option InterpKernelDEC;
  send_synced : Z;
  recv_synced : Z
}.

(** Private global variables [_n_paramed_couplers], [_paramed_couplers].
    The array holds pointers; a coupling is stored by value, as it is
    when it is registered. *)
Record globals : Type := {
  _n_paramed_couplers : Z;
  _paramed_couplers : option (list (option cs_paramedmem_coupling_t))
}.

Definition globals_init : globals :=
  {| _n_paramed_couplers := 0; _paramed_couplers := None |}.

Definition cs_medcpl_cell_field : Z := 0.
Definition cs_medcpl_vertex_field : Z := 1.

Definition cs_medcpl_no_time : Z := 0.
Definition cs_medcpl_one_time : Z := 1.
Definition cs_medcpl_linear_time : Z := 2.

(** ** Field updates of the structures *)

Definition set_meshes (c : cs_paramedmem_coupling_t) (n : Z)
    (ms : list (option _paramedmem_mesh_t)) : cs_paramedmem_coupling_t :=
  {| name := name c; n_meshes := n; meshes := ms;
     n_fields := n_fields c; fields := fields c;
     send_dec := send_dec c; recv_dec := recv_dec c;
     send_synced := send_synced c; recv_synced := recv_synced c |}.

Definition set_fields (c : cs_paramedmem_coupling_t) (n : Z)
    (fs : list (option _paramedmem_field_t)) : cs_paramedmem_coupling_t :=
  {| name := name c; n_meshes := n_meshes c; meshes := meshes c;
     n_fields := n; fields := fs;
     send_dec := send_dec c; recv_dec := recv_dec c;
     send_synced := send_synced c; recv_synced := recv_synced c |}.

Definition set_send (c : cs_paramedmem_coupling_t)
    (d : option InterpKernelDEC) (synced : Z) : cs_paramedmem_coupling_t :=
  {| name := name c; n_meshes := n_meshes c; meshes := meshes c;
     n_fields := n_fields c; fields := fields c;
     send_dec := d; recv_dec := recv_dec c;
     send_synced := synced; recv_synced := recv_synced c |}.

Definition set_recv (c : cs_paramedmem_coupling_t)
    (d : option InterpKernelDEC) (synced : Z) : cs_paramedmem_coupling_t :=
  {| name := name c; n_meshes := n_meshes c; meshes := meshes c;
     n_fields := n_fields c; fields := fields c;
     send_dec := send_dec c; recv_dec := d;
     send_synced := send_synced c; recv_synced := synced |}.

Definition set_para_mesh0 (m : _paramedmem_mesh_t) (p : option ParaMESH)
  : _paramedmem_mesh_t :=
  {| mesh := mesh m; direction := direction m;
     para_mesh0 := p; para_mesh1 := para_mesh1 m |}.

Definition set_para_mesh1 (m : _paramedmem_mesh_t) (p : option ParaMESH)
  : _paramedmem_mesh_t :=
  {| mesh := mesh m; direction := direction m;
     para_mesh0 := para_mesh0 m; para_mesh1 := p |}.

(** [f->getArray()] written through, then [declareAsNew()]. *)
Definition set_array_as_new (fd : MEDCouplingFieldDouble) (a : list double)
  : MEDCouplingFieldDouble :=
  {| fd_type := fd_type fd; fd_td := fd_td fd; fd_nature := fd_nature fd;
     fd_name := fd_name fd; fd_array := a;
     fd_time_label := Datatypes.S (fd_time_label fd) |}.

Definition set_f (e : _paramedmem_field_t) (fd : MEDCouplingFieldDouble)
  : _paramedmem_field_t :=
  {| mesh_id := mesh_id e; dim := dim e; td := td e; f := fd; pf := pf e |}.

(** ** Private functions (HAVE_PARAMEDMEM defined) *)

(** The loops filling a [std::set<int>] from an array of ranks. *)
Definition std_set_insert_all (ranks : list Z) : gset Z :=
  foldl (fun ids r => ids ∪ {[ r ]}) ∅ ranks.

Definition _cs_paramedmem_create_InterpKernelDEC
    (grp1_global_ranks grp2_global_ranks : list Z) : InterpKernelDEC :=
  let grp1_ids := std_set_insert_all grp1_global_ranks in
  let grp2_ids := std_set_insert_all grp2_global_ranks in
  {| source_grp := grp1_ids; target_grp := grp2_ids; dec_calls := [] |}.

(** The search loop over [grp1_global_ranks], left at the first hit. *)
Fixpoint is_in_grp (my_rank : Z) (grp_global_ranks : list Z) : bool :=
  match grp_global_ranks with
  | [] => false
  | r :: rest => if my_rank =? r then true else is_in_grp my_rank rest
  end.

(** [my_rank] is what [MPI_Comm_rank(MPI_COMM_WORLD, _)] answers. *)
Definition _add_paramedmem_interpkernel (my_rank : Z) (g : globals)
    (name : string) (grp1_global_ranks grp2_global_ranks : list Z)
  : result globals :=
  couplers ←
    match _paramed_couplers g with
    | None => Ok (BFT_REALLOC [] 1)
    | Some a => n ← int (_n_paramed_couplers g + 1); Ok (BFT_REALLOC a n)
    end;
  let is_in_grp1 := is_in_grp my_rank grp1_global_ranks in
  let c :=
    if is_in_grp1 then
      {| name := name; n_meshes := 0; meshes := []; n_fields := 0; fields := [];
         send_dec := Some (_cs_paramedmem_create_InterpKernelDEC
                             grp1_global_ranks grp2_global_ranks);
         recv_dec := Some (_cs_paramedmem_create_InterpKernelDEC
                             grp2_global_ranks grp1_global_ranks);
         send_synced := 0; recv_synced := 0 |}
    else
      {| name := name; n_meshes := 0; meshes := []; n_fields := 0; fields := [];
         send_dec := Some (_cs_paramedmem_create_InterpKernelDEC
                             grp2_global_ranks grp1_global_ranks);
         recv_dec := Some (_cs_paramedmem_create_InterpKernelDEC
                             grp1_global_ranks grp2_global_ranks);
         send_synced := 0; recv_synced := 0 |} in
  couplers' ← arr_set couplers (_n_paramed_couplers g) (Some c);
  n' ← int (_n_paramed_couplers g + 1);
  Ok {| _n_paramed_couplers := n'; _paramed_couplers := Some couplers' |}.

Definition cs_paramedmem_coupling_by_id (g : globals) (pc_id : Z)
  : result (option cs_paramedmem_coupling_t) :=
  a ← deref (_paramed_couplers g); arr_get a pc_id.

(** ** Public functions (HAVE_PARAMEDMEM defined) *)

(** Returns the globals and the pointer to the new coupling. *)
Definition cs_paramedmem_interpkernel_create (my_rank : Z) (g : globals)
    (name : string) (grp1_global_ranks grp2_global_ranks : list Z)
  : result (globals * option cs_paramedmem_coupling_t) :=
  g' ← _add_paramedmem_interpkernel my_rank g name
         grp1_global_ranks grp2_global_ranks;
  a ← deref (_paramed_couplers g');
  n ← int (_n_paramed_couplers g' - 1);
  c ← arr_get a n;
  Ok (g', c).

Definition cs_paramedmem_define_mesh (coupling : cs_paramedmem_coupling_t)
    (name select_criteria : string) (elt_dim : Z) (is_source is_dest : bool)
  : result (cs_paramedmem_coupling_t * Z) :=
  let direction0 := 0 in
  direction1 ← (if is_source then int (direction0 + 1) else Ok direction0);
  direction2 ← (if is_dest then int (direction1 + 2) else Ok direction1);
  let mesh :=
    {| sel_criteria := select_criteria; elt_dim := elt_dim;
       n_elts := 0; elt_list := None;
       med_mesh := {| um_name := name; um_time_unit := "s";
                      um_mesh_dimension := elt_dim;
                      getNumberOfCells := getNumberOfCells MEDCouplingUMesh_New;
                      getNumberOfNodes := getNumberOfNodes MEDCouplingUMesh_New |};
       new_to_old := None |} in
  let pmmesh :=
    {| mesh := mesh; direction := direction2;
       para_mesh0 := None; para_mesh1 := None |} in
  let id := n_meshes coupling in
  n ← int (n_meshes coupling + 1);
  ms ← arr_set (BFT_REALLOC (meshes coupling) n) id (Some pmmesh);
  Ok (set_meshes coupling n ms, id).

Definition cs_paramedmem_mesh_get_n_elts (coupling : cs_paramedmem_coupling_t)
    (mesh_id : Z) : result Z :=
  if 0 <=? mesh_id then
    pmesh ← arr_deref (meshes coupling) mesh_id; Ok (n_elts (mesh pmesh))
  else Ok 0.

Definition cs_paramedmem_mesh_get_elt_list (coupling : cs_paramedmem_coupling_t)
    (mesh_id : Z) : result (option (list Z)) :=
  if 0 <=? mesh_id then
    pmesh ← arr_deref (meshes coupling) mesh_id; Ok (elt_list (mesh pmesh))
  else Ok None.

(** [DataArrayDouble::alloc(n_locs, dim)]: the values are not
    initialised; zeros stand for them. *)
Definition alloc (n_locs dim : Z) : list double :=
  replicate (Z.to_nat n_locs * Z.to_nat dim)%nat 0%float.

Definition MEDCouplingFieldDouble_New (type : TypeOfField)
    (td : TypeOfTimeDiscretization) : MEDCouplingFieldDouble :=
  {| fd_type := type; fd_td := td; fd_nature := NoNature; fd_name := "";
     fd_array := []; fd_time_label := 0 |}.

Definition cs_paramedmem_field_add (coupling : cs_paramedmem_coupling_t)
    (field_name : string)
    (mesh_id dim medcpl_field_type medcpl_time_discr dirflag : Z)
  : result (cs_paramedmem_coupling_t * Z) :=
  pmesh ← arr_deref (meshes coupling) mesh_id;
  let type :=
    if medcpl_field_type =? cs_medcpl_cell_field then ON_CELLS
    else if medcpl_field_type =? cs_medcpl_vertex_field then ON_NODES
    else ON_CELLS in
  let td :=
    if medcpl_time_discr =? cs_medcpl_no_time then NO_TIME
    else if medcpl_time_discr =? cs_medcpl_one_time then ONE_TIME
    else if medcpl_time_discr =? cs_medcpl_linear_time then LINEAR_TIME
    else NO_TIME in
  let f_id := n_fields coupling in
  n ← int (n_fields coupling + 1);
  let fs := BFT_REALLOC (fields coupling) n in
  (* the three branches give the mesh entry, [pf] and the two channels *)
  let '(pmesh', pf, send, recv) :=
    match (if dirflag =? 1 then send_dec coupling else None) with
    | Some sd =>
        let pmesh' :=
          match para_mesh0 pmesh with
          | None => set_para_mesh0 pmesh
                      (Some {| pm_group := source_grp sd;
                               pm_name := "source mesh" |})
          | Some _ => pmesh
          end in
        (pmesh',
         Some {| pf_type := type; pf_td := td; pf_slot := 0%nat;
                 pf_n_comp := dim |},
         Some (dec_call_on sd (AttachLocalField f_id)),
         recv_dec coupling)
    | None =>
        match (if dirflag =? 2 then recv_dec coupling else None) with
        | Some rd =>
            let pmesh' :=
              match para_mesh1 pmesh with
              | None => set_para_mesh1 pmesh
                          (Some {| pm_group := target_grp rd;
                                   pm_name := "target mesh" |})
              | Some _ => pmesh
              end in
            (pmesh',
             Some {| pf_type := type; pf_td := td; pf_slot := 1%nat;
                     pf_n_comp := dim |},
             send_dec coupling,
             Some (dec_call_on rd (AttachLocalField f_id)))
        | None => (pmesh, None, send_dec coupling, recv_dec coupling)
        end
    end in
  let n_locs :=
    match type with
    | ON_NODES => getNumberOfNodes (med_mesh (mesh pmesh))
    | ON_CELLS => getNumberOfCells (med_mesh (mesh pmesh))
    end in
  let f :=
    {| fd_type := type; fd_td := td; fd_nature := IntensiveConservation;
       fd_name := field_name; fd_array := alloc n_locs dim;
       fd_time_label := fd_time_label (MEDCouplingFieldDouble_New type td) |} in
  let entry := {| mesh_id := mesh_id; dim := dim; td := td; f := f; pf := pf |} in
  fs' ← arr_set fs f_id (Some entry);
  ms' ← arr_set (meshes coupling) mesh_id (Some pmesh');
  Ok ({| name := name coupling;
         n_meshes := n_meshes coupling; meshes := ms';
         n_fields := n; fields := fs';
         send_dec := send; recv_dec := recv;
         send_synced := send_synced coupling;
         recv_synced := recv_synced coupling |}, f_id).

(** The lookup loop of [cs_paramedmem_mesh_id], with [n] entries left
    to visit from entry [i]. *)
Fixpoint mesh_id_loop (n : nat) (ms : list (option _paramedmem_mesh_t))
    (i : Z) (mesh_name : string) : result Z :=
  match n with
  | O => Ok (-1)
  | Datatypes.S n' =>
      m ← arr_deref ms i;
      if String.eqb mesh_name (um_name (med_mesh (mesh m))) then Ok i
      else mesh_id_loop n' ms (i + 1) mesh_name
  end.

Definition cs_paramedmem_mesh_id (coupling : cs_paramedmem_coupling_t)
    (mesh_name : string) : result Z :=
  mesh_id_loop (Z.to_nat (n_meshes coupling)) (meshes coupling) 0 mesh_name.

(** The lookup loop of [cs_paramedmem_field_get_id], with [n] entries
    left to visit from entry [i]. *)
Fixpoint field_get_id_loop (n : nat) (fs : list (option _paramedmem_field_t))
    (i m_id : Z) (field_name : string) : result Z :=
  match n with
  | O => Ok (-1)
  | Datatypes.S n' =>
      e ← arr_deref fs i;
      if (mesh_id e =? m_id) && String.eqb field_name (fd_name (f e))
      then Ok i
      else field_get_id_loop n' fs (i + 1) m_id field_name
  end.

Definition cs_paramedmem_field_get_id (coupling : cs_paramedmem_coupling_t)
    (m_id : Z) (field_name : string) : result Z :=
  field_get_id_loop (Z.to_nat (n_fields coupling)) (fields coupling)
    0 m_id field_name.

(** The index [a*b + j], computed on [int]. *)
Definition idx (a b j : Z) : result Z :=
  p ← int (a * b); int (p + j).

(** The assignment [to[wr] = from[rd]]. *)
Definition copy_elt (from : list double) (rd wr : result Z) (to : list double)
  : result (list double) :=
  r ← rd; w ← wr; x ← arr_get from r; arr_set to w x.

(** [list[i]] through a pointer that may be NULL. *)
Definition ptr_get (list : option (list Z)) (i : Z) : result Z :=
  l ← deref list; arr_get l i.

Definition cs_paramedmem_field_export (coupling : cs_paramedmem_coupling_t)
    (field_id : Z) (on_parent : bool) (field_values : list double)
  : result cs_paramedmem_coupling_t :=
  fld ← arr_deref (fields coupling) field_id;
  pmesh ← arr_deref (meshes coupling) (mesh_id fld);
  let val_ptr := fd_array (f fld) in
  let dim := dim fld in
  val_ptr' ←
    (if negb on_parent then
       let n_elts := n_elts (mesh pmesh) in
       hi ← int (dim * n_elts);
       for_range hi
         (fun i val_ptr => copy_elt field_values (Ok i) (Ok i) val_ptr)
         val_ptr
     else
       let n_elts := n_elts (mesh pmesh) in
       let elt_list := elt_list (mesh pmesh) in
       for_range n_elts
         (fun i val_ptr =>
            for_range dim
              (fun j val_ptr =>
                 copy_elt field_values
                   (e ← ptr_get elt_list i; idx e dim j)
                   (idx i dim j)
                   val_ptr)
              val_ptr)
         val_ptr);
  fs ← arr_set (fields coupling) field_id
         (Some (set_f fld (set_array_as_new (f fld) val_ptr')));
  Ok (set_fields coupling (n_fields coupling) fs).

(** Returns the caller's array [field_values] as it is left. *)
Definition cs_paramedmem_field_import (coupling : cs_paramedmem_coupling_t)
    (field_id : Z) (on_parent : bool) (field_values : list double)
  : result (list double) :=
  fld ← arr_deref (fields coupling) field_id;
  pmesh ← arr_deref (meshes coupling) (mesh_id fld);
  let val_ptr := fd_array (f fld) in
  let dim := dim fld in
  if negb on_parent then
    let n_elts := n_elts (mesh pmesh) in
    let new_to_old := new_to_old (mesh pmesh) in
    for_range n_elts
      (fun i field_values =>
         for_range dim
           (fun j field_values =>
              copy_elt val_ptr
                (idx i dim j)
                (c_id ← ptr_get new_to_old i; idx dim c_id j)
                field_values)
           field_values)
      field_values
  else
    let n_elts := n_elts (mesh pmesh) in
    let elt_list := elt_list (mesh pmesh) in
    for_range n_elts
      (fun i field_values =>
         for_range dim
           (fun j field_values =>
              copy_elt val_ptr
                (idx i dim j)
                (e ← ptr_get elt_list i; idx e dim j)
                field_values)
           field_values)
      field_values.

Definition cs_paramedmem_sync_dec (coupling : cs_paramedmem_coupling_t)
    (dec_to_sync : Z) : result cs_paramedmem_coupling_t :=
  if dec_to_sync =? 1 then
    if send_synced coupling =? 0 then
      d ← deref (send_dec coupling);
      Ok (set_send coupling (Some (dec_call_on d Synchronize)) 1)
    else Ok coupling
  else if recv_synced coupling =? 0 then
    d ← deref (recv_dec coupling);
    Ok (set_recv coupling (Some (dec_call_on d Synchronize)) 1)
  else Ok coupling.

Definition cs_paramedmem_send_data (coupling : cs_paramedmem_coupling_t)
  : result cs_paramedmem_coupling_t :=
  d ← deref (send_dec coupling);
  Ok (set_send coupling (Some (dec_call_on d SendData)) (send_synced coupling)).

Definition cs_paramedmem_recv_data (coupling : cs_paramedmem_coupling_t)
  : result cs_paramedmem_coupling_t :=
  d ← deref (recv_dec coupling);
  Ok (set_recv coupling (Some (dec_call_on d RecvData)) (recv_synced coupling)).

Definition cs_paramedmem_reattach_field (coupling : cs_paramedmem_coupling_t)
    (field_id : Z) : result cs_paramedmem_coupling_t :=
  fld ← arr_deref (fields coupling) field_id;
  pmesh ← arr_deref (meshes coupling) (mesh_id fld);
  if direction pmesh =? 1 then
    d ← deref (send_dec coupling);
    _ ← deref (pf fld);
    Ok (set_send coupling (Some (dec_call_on d (AttachLocalField field_id)))
          (send_synced coupling))
  else if direction pmesh =? 2 then
    d ← deref (recv_dec coupling);
    _ ← deref (pf fld);
    Ok (set_recv coupling (Some (dec_call_on d (AttachLocalField field_id)))
          (recv_synced coupling))
  else Ok coupling.

(** [world_ranks] is what [MPI_Allgather] leaves in the new array: the
    rank in MPI_COMM_WORLD of every process of the local communicator. *)
Definition cs_paramedmem_get_mpi_comm_world_ranks (world_ranks : list Z)
  : option (list Z) :=
  Some world_ranks.

(** ** Public functions (HAVE_PARAMEDMEM not defined) *)

(** What a call leaves behind in a build without the library: the
    messages passed to [bft_error], and the value returned. *)
Record stub_call (A : Type) : Type := {
  bft_errors : list string;
  retval : A
}.

Arguments bft_errors {A} _.
Arguments retval {A} _.

Module NoParaMEDMEM.

Definition unsupported : string :=
  "Error: This function cannot be called without MEDCoupling MPI support."
  +:+ String (Ascii.ascii_of_nat 10) EmptyString.

(** [bft_error(__FILE__, __LINE__, 0, _(msg)); ... return ret;] *)
Definition bft_error_then_return {A} (msg : string) (ret : A) : stub_call A :=
  {| bft_errors := [msg]; retval := ret |}.

Definition cs_paramedmem_interpkernel_create (name : string)
    (grp1_global_ranks grp2_global_ranks : list Z)
  : stub_call (option cs_paramedmem_coupling_t) :=
  let c := None in
  bft_error_then_return unsupported c.

Definition cs_paramedmem_destroy
    (coupling : option cs_paramedmem_coupling_t) : stub_call unit :=
  bft_error_then_return unsupported tt.

Definition cs_paramedmem_define_mesh
    (coupling : option cs_paramedmem_coupling_t)
    (name select_criteria : string) (elt_dim : Z) (is_source is_dest : bool)
  : stub_call Z :=
  let id := -1 in
  bft_error_then_return unsupported id.

Definition cs_paramedmem_init_meshes
    (coupling : option cs_paramedmem_coupling_t) : stub_call unit :=
  bft_error_then_return unsupported tt.

Definition cs_paramedmem_mesh_id
    (coupling : option cs_paramedmem_coupling_t) (mesh_name : string)
  : stub_call Z :=
  let retval := -1 in
  bft_error_then_return unsupported retval.

Definition cs_paramedmem_mesh_get_n_elts
    (coupling : option cs_paramedmem_coupling_t) (mesh_id : Z)
  : stub_call Z :=
  let retval := 0 in
  bft_error_then_return unsupported retval.

Definition cs_paramedmem_mesh_get_elt_list
    (coupling : option cs_paramedmem_coupling_t) (mesh_id : Z)
  : stub_call (option (list Z)) :=
  let retval := None in
  bft_error_then_return unsupported retval.

Definition cs_paramedmem_field_add
    (coupling : option cs_paramedmem_coupling_t) (field_name : string)
    (mesh_id dim medcpl_field_type medcpl_time_discr dirflag : Z)
  : stub_call Z :=
  let f_id := -1 in
  bft_error_then_return unsupported f_id.

Definition cs_paramedmem_field_get_id
    (coupling : option cs_paramedmem_coupling_t) (mesh_id : Z)
    (field_name : string) : stub_call Z :=
  let f_id := -1 in
  bft_error_then_return unsupported f_id.

Definition cs_paramedmem_field_export
    (coupling : option cs_paramedmem_coupling_t) (field_id : Z)
    (on_parent : bool) (field_values : list double) : stub_call unit :=
  bft_error_then_return unsupported tt.

Definition cs_paramedmem_field_import
    (coupling : option cs_paramedmem_coupling_t) (field_id : Z)
    (on_parent : bool) (field_values : list double) : stub_call unit :=
  bft_error_then_return unsupported tt.

Definition cs_paramedmem_sync_dec
    (coupling : option cs_paramedmem_coupling_t) (dec_to_sync : Z)
  : stub_call unit :=
  bft_error_then_return unsupported tt.

Definition cs_paramedmem_send_data
    (coupling : option cs_paramedmem_coupling_t) : stub_call unit :=
  bft_error_then_return unsupported tt.

Definition cs_paramedmem_recv_data
    (coupling : option cs_paramedmem_coupling_t) : stub_call unit :=
  bft_error_then_return unsupported tt.

Definition cs_paramedmem_reattach_field
    (coupling : option cs_paramedmem_coupling_t) (field_id : Z)
  : stub_call unit :=
  bft_error_then_return unsupported tt.

(** [return NULL;] and nothing else. *)
Definition cs_paramedmem_get_mpi_comm_world_ranks
  : stub_call (option (list Z)) :=
  {| bft_errors := []; retval := None |}.

(** The public functions with their arguments. *)
Inductive api_call : Type :=
| Interpkernel_create (name : string) (grp1 grp2 : list Z)
| Destroy (coupling : option cs_paramedmem_coupling_t)
| Define_mesh (coupling : option cs_paramedmem_coupling_t)
    (name select_criteria : string) (elt_dim : Z) (is_source is_dest : bool)
| Init_meshes (coupling : option cs_paramedmem_coupling_t)
| Mesh_id (coupling : option cs_paramedmem_coupling_t) (mesh_name : string)
| Mesh_get_n_elts (coupling : option cs_paramedmem_coupling_t) (mesh_id : Z)
| Mesh_get_elt_list (coupling : option cs_paramedmem_coupling_t) (mesh_id : Z)
| Field_add (coupling : option cs_paramedmem_coupling_t) (field_name : string)
    (mesh_id dim medcpl_field_type medcpl_time_discr dirflag : Z)
| Field_get_id (coupling : option cs_paramedmem_coupling_t) (mesh_id : Z)
    (field_name : string)
| Field_export (coupling : option cs_paramedmem_coupling_t) (field_id : Z)
    (on_parent : bool) (field_values : list double)
| Field_import (coupling : option cs_paramedmem_coupling_t) (field_id : Z)
    (on_parent : bool) (field_values : list double)
| Sync_dec (coupling : option cs_paramedmem_coupling_t) (dec_to_sync : Z)
| Send_data (coupling : option cs_paramedmem_coupling_t)
| Recv_data (coupling : option cs_paramedmem_coupling_t)
| Reattach_field (coupling : option cs_paramedmem_coupling_t) (field_id : Z)
| Get_mpi_comm_world_ranks.

(** What a function hands back: nothing, an integer, or a pointer. *)
Inductive ret_value : Type :=
| ret_void
| ret_int (z : Z)
| ret_ptr (is_null : bool).

Definition returning {A} (conv : A -> ret_value) (s : stub_call A)
  : stub_call ret_value :=
  {| bft_errors := bft_errors s; retval := conv (retval s) |}.

Definition ptr_value {A} (p : option A) : ret_value :=
  ret_ptr (match p with Some _ => false | None => true end).

Definition call (a : api_call) : stub_call ret_value :=
  match a with
  | Interpkernel_create nm g1 g2 =>
      returning ptr_value (cs_paramedmem_interpkernel_create nm g1 g2)
  | Destroy c => returning (fun _ => ret_void) (cs_paramedmem_destroy c)
  | Define_mesh c nm sel ed src dst =>
      returning ret_int (cs_paramedmem_define_mesh c nm sel ed src dst)
  | Init_meshes c => returning (fun _ => ret_void) (cs_paramedmem_init_meshes c)
  | Mesh_id c nm => returning ret_int (cs_paramedmem_mesh_id c nm)
  | Mesh_get_n_elts c m =>
      returning ret_int (cs_paramedmem_mesh_get_n_elts c m)
  | Mesh_get_elt_list c m =>
      returning ptr_value (cs_paramedmem_mesh_get_elt_list c m)
  | Field_add c nm m d ft tdisc dir =>
      returning ret_int (cs_paramedmem_field_add c nm m d ft tdisc dir)
  | Field_get_id c m nm =>
      returning ret_int (cs_paramedmem_field_get_id c m nm)
  | Field_export c fid op vals =>
      returning (fun _ => ret_void) (cs_paramedmem_field_export c fid op vals)
  | Field_import c fid op vals =>
      returning (fun _ => ret_void) (cs_paramedmem_field_import c fid op vals)
  | Sync_dec c d => returning (fun _ => ret_void) (cs_paramedmem_sync_dec c d)
  | Send_data c => returning (fun _ => ret_void) (cs_paramedmem_send_data c)
  | Recv_data c => returning (fun _ => ret_void) (cs_paramedmem_recv_data c)
  | Reattach_field c fid =>
      returning (fun _ => ret_void) (cs_paramedmem_reattach_field c fid)
  | Get_mpi_comm_world_ranks =>
      returning ptr_value cs_paramedmem_get_mpi_comm_world_ranks
  end.

(** The sentinels: a null pointer or the id -1. *)
Definition sentinel (v : ret_value) : bool :=
  match v with
  | ret_ptr is_null => is_null
  | ret_int z => z =? -1
  | ret_void => false
  end.

End NoParaMEDMEM.

(** ** Vocabulary of the properties *)

(** [n] successive calls of [cs_paramedmem_sync_dec] for one direction. *)
Fixpoint sync_dec_repeat (n : nat) (coupling : cs_paramedmem_coupling_t)
    (dec_to_sync : Z) : result cs_paramedmem_coupling_t :=
  match n with
  | O => Ok coupling
  | Datatypes.S n' =>
      c ← cs_paramedmem_sync_dec coupling dec_to_sync;
      sync_dec_repeat n' c dec_to_sync
  end.

(** The channel and the flag a direction argument selects. *)
Definition dec_of (coupling : cs_paramedmem_coupling_t) (dec_to_sync : Z)
  : option InterpKernelDEC :=
  if dec_to_sync =? 1 then send_dec coupling else recv_dec coupling.

Definition synced_of (coupling : cs_paramedmem_coupling_t) (dec_to_sync : Z)
  : Z :=
  if dec_to_sync =? 1 then send_synced coupling else recv_synced coupling.

(** How many times a channel was synchronized. *)
Definition n_synchronize (d : InterpKernelDEC) : nat :=
  length (filter (fun e => e = Synchronize) (dec_calls d)).

(** The array of couplings is as [_add_paramedmem_interpkernel] leaves
    it: [_n_paramed_couplers] entries, fewer than [INT_MAX]. *)
Definition globals_wf (g : globals) : Prop :=
  0 <= _n_paramed_couplers g < INT_MAX /\
  match _paramed_couplers g with
  | None => _n_paramed_couplers g = 0
  | Some a => Z.of_nat (length a) = _n_paramed_couplers g
  end.

(** The arrays of a coupling hold as many entries as it counts. *)
Definition meshes_wf (c : cs_paramedmem_coupling_t) : Prop :=
  Z.of_nat (length (meshes c)) = n_meshes c /\ n_meshes c < INT_MAX.

Definition fields_wf (c : cs_paramedmem_coupling_t) : Prop :=
  Z.of_nat (length (fields c)) = n_fields c /\ n_fields c < INT_MAX.

(** Field [field_id] of [c] and its mesh. *)
Definition field_at (c : cs_paramedmem_coupling_t) (field_id : Z)
    (fld : _paramedmem_field_t) (pmesh : _paramedmem_mesh_t) : Prop :=
  0 <= field_id /\ fields c !! Z.to_nat field_id = Some (Some fld) /\
  0 <= mesh_id fld /\ meshes c !! Z.to_nat (mesh_id fld) = Some (Some pmesh).

(** Entry [i] of an index list, [0] outside. *)
Definition entry (l : option (list Z)) (i : Z) : Z :=
  default 0 (l' ← l; l' !! Z.to_nat i).

(** Where [cs_paramedmem_field_export] reads point [i] in the caller's
    array and where [cs_paramedmem_field_import] writes it, in points. *)
Definition export_point (on_parent : bool) (m : cs_medcoupling_mesh_t) (i : Z)
  : Z :=
  if on_parent then entry (elt_list m) i else i.

Definition import_point (on_parent : bool) (m : cs_medcoupling_mesh_t) (i : Z)
  : Z :=
  if on_parent then entry (elt_list m) i else entry (new_to_old m) i.

(** The index mapping of a flag undoes itself: what is read for point
    [i] is written back where it came from. *)
Definition roundtrip_inverse (on_parent : bool) (m : cs_medcoupling_mesh_t)
  : Prop :=
  forall i, 0 <= i < n_elts m -> import_point on_parent m i = export_point on_parent m i.

(** The index list of a flag has [n_elts] entries, all in a parent mesh
    of [n] points. *)
Definition index_list_of (on_parent : bool) (m : cs_medcoupling_mesh_t)
  : option (list Z) :=
  if on_parent then elt_list m else new_to_old m.

Definition selection_in (n : Z) (on_parent : bool) (m : cs_medcoupling_mesh_t)
  : Prop :=
  exists l, index_list_of on_parent m = Some l /\
            Z.of_nat (length l) = n_elts m /\
            Forall (fun e => 0 <= e < n) l.

(** The arrays of an export followed by an import are large enough.
    The caller's arrays in the original numbering hold [n] points of
    [dim] components; the array handed to a compact export and the
    field's own array hold [n_elts] points. *)
Definition transfer_ready (n : Z) (on_parent : bool)
    (fld : _paramedmem_field_t) (pmesh : _paramedmem_mesh_t)
    (from to : list double) : Prop :=
  0 <= dim fld /\ (0 <= n_elts (mesh pmesh) /\ 0 <= n) /\
  n * dim fld <= INT_MAX /\ n_elts (mesh pmesh) * dim fld <= INT_MAX /\
  selection_in n on_parent (mesh pmesh) /\
  (if on_parent then n else n_elts (mesh pmesh)) * dim fld
    <= Z.of_nat (length from) /\
  n * dim fld <= Z.of_nat (length to) /\
  n_elts (mesh pmesh) * dim fld <= Z.of_nat (length (fd_array (f fld))).

(** Position [p] of the caller's array belongs to a point the import
    writes. *)
Definition covered (on_parent : bool) (pmesh : _paramedmem_mesh_t) (d : Z)
    (p : Z) : Prop :=
  exists i j, 0 <= i < n_elts (mesh pmesh) /\ 0 <= j < d /\
              p = import_point on_parent (mesh pmesh) i * d + j.

(** After the assignments [to[w i j] = from[r i j]] of the pairs in [D],
    started on [to0]: every position either keeps its value and is the
    target of no pair of [D], or holds what some pair of [D] aimed at
    it has read. *)
Definition copied_from (from to0 : list double) (r w : Z -> Z -> Z)
    (D : Z -> Z -> Prop) (to : list double) : Prop :=
  length to = length to0 /\
  forall p : nat,
    (to !! p = to0 !! p /\ forall i j, D i j -> Z.to_nat (w i j) <> p) \/
    (exists i j, D i j /\ Z.to_nat (w i j) = p /\
                 to !! p = from !! Z.to_nat (r i j)).

(** The session after an export that left [val] in field [field_id]. *)
Definition exported (c : cs_paramedmem_coupling_t) (field_id : Z)
    (fld : _paramedmem_field_t) (val : list double)
  : cs_paramedmem_coupling_t :=
  set_fields c (n_fields c)
    (<[Z.to_nat field_id :=
         Some (set_f fld (set_array_as_new (f fld) val))]> (fields c)).

(** ** Initialisation and release (HAVE_PARAMEDMEM defined) *)

(** [copy_from_base] stands for
    [cs_medcoupling_mesh_copy_from_base(cs_glob_mesh, _, 0)], which
    fills the mesh structure it is given. *)
Definition _init_mesh_coupling
    (copy_from_base : cs_medcoupling_mesh_t -> cs_medcoupling_mesh_t)
    (coupling : cs_paramedmem_coupling_t) (pmesh : _paramedmem_mesh_t)
  : result _paramedmem_mesh_t :=
  let m := copy_from_base (mesh pmesh) in
  sd ← deref (send_dec coupling);
  rd ← deref (recv_dec coupling);
  Ok {| mesh := m; direction := direction pmesh;
        para_mesh0 := Some {| pm_group := source_grp sd;
                              pm_name := "source mesh" |};
        para_mesh1 := Some {| pm_group := target_grp rd;
                              pm_name := "target mesh" |} |}.

Definition cs_paramedmem_init_meshes
    (copy_from_base : cs_medcoupling_mesh_t -> cs_medcoupling_mesh_t)
    (coupling : cs_paramedmem_coupling_t) : result cs_paramedmem_coupling_t :=
  ms ← for_range (n_meshes coupling)
         (fun i ms =>
            pmesh ← arr_deref ms i;
            pmesh' ← _init_mesh_coupling copy_from_base coupling pmesh;
            arr_set ms i (Some pmesh'))
         (meshes coupling);
  Ok (set_meshes coupling (n_meshes coupling) ms).

(** [_destroy_mesh(&(c->meshes[i]))]: the entry is read and what it
    points to released.  An entry is never NULL in an array filled by
    [cs_paramedmem_define_mesh]; [None] is an entry never assigned. *)
Definition _destroy_mesh (ms : list (option _paramedmem_mesh_t)) (i : Z)
  : result unit :=
  pm ← arr_deref ms i; Ok tt.

(** [cs_paramedmem_destroy(&c)].  Every field has its [pf] read and
    deleted, every mesh is released; the arrays are freed (no entry is
    left to read), the name is freed, [n_meshes] is reset and both
    channel pointers are set to NULL.  [n_fields] and the two flags are
    not written.  The result is what [*coupling] points to afterwards. *)
Definition cs_paramedmem_destroy (coupling : option cs_paramedmem_coupling_t)
  : result (option cs_paramedmem_coupling_t) :=
  match coupling with
  | None => Ok None
  | Some c =>
      _ ← for_range (n_fields c)
            (fun i _ => e ← arr_deref (fields c) i; _ ← deref (pf e); Ok tt)
            tt;
      _ ← for_range (n_meshes c) (fun i _ => _destroy_mesh (meshes c) i) tt;
      Ok (Some {| name := ""; n_meshes := 0; meshes := [];
                  n_fields := n_fields c; fields := [];
                  send_dec := None; recv_dec := None;
                  send_synced := send_synced c;
                  recv_synced := recv_synced c |})
  end.

(** ** Sequences of calls on one session *)

(** The calls that can change a session. *)
Inductive api_op : Type :=
| Op_define_mesh (name select_criteria : string) (elt_dim : Z)
    (is_source is_dest : bool)
| Op_init_meshes
    (copy_from_base : cs_medcoupling_mesh_t -> cs_medcoupling_mesh_t)
| Op_field_add (field_name : string)
    (mesh_id dim medcpl_field_type medcpl_time_discr dirflag : Z)
| Op_field_export (field_id : Z) (on_parent : bool)
    (field_values : list double)
| Op_sync_dec (dec_to_sync : Z)
| Op_send_data
| Op_recv_data
| Op_reattach_field (field_id : Z).

Definition run_op (op : api_op) (c : cs_paramedmem_coupling_t)
  : result cs_paramedmem_coupling_t :=
  match op with
  | Op_define_mesh nm sel ed src dst =>
      r ← cs_paramedmem_define_mesh c nm sel ed src dst; Ok (fst r)
  | Op_init_meshes copy => cs_paramedmem_init_meshes copy c
  | Op_field_add nm m d ft tdisc dir =>
      r ← cs_paramedmem_field_add c nm m d ft tdisc dir; Ok (fst r)
  | Op_field_export fid op vals => cs_paramedmem_field_export c fid op vals
  | Op_sync_dec d => cs_paramedmem_sync_dec c d
  | Op_send_data => cs_paramedmem_send_data c
  | Op_recv_data => cs_paramedmem_recv_data c
  | Op_reattach_field fid => cs_paramedmem_reattach_field c fid
  end.

Fixpoint run_ops (ops : list api_op) (c : cs_paramedmem_coupling_t)
  : result cs_paramedmem_coupling_t :=
  match ops with
  | [] => Ok c
  | op :: rest => c' ← run_op op c; run_ops rest c'
  end.

(** Every entry of both arrays is assigned, the counts are those of the
    arrays, and every field names a registered mesh. *)
Definition coupling_wf (c : cs_paramedmem_coupling_t) : Prop :=
  Z.of_nat (length (meshes c)) = n_meshes c /\
  Z.of_nat (length (fields c)) = n_fields c /\
  Forall (fun p => is_Some p) (meshes c) /\
  Forall (fun p => exists e, p = Some e /\ 0 <= mesh_id e < n_meshes c)
         (fields c).

(** What one call may do to a channel and its flag: nothing; one more
    call other than a synchronization, the flag kept; or the one
    synchronization, the flag going from 0 to 1. *)
Definition chan_step (d d' : option InterpKernelDEC) (flag flag' : Z) : Prop :=
  (d' = d /\ flag' = flag) \/
  exists dec e, d = Some dec /\ d' = Some (dec_call_on dec e) /\
    ((e <> Synchronize /\ flag' = flag) \/
     (e = Synchronize /\ flag = 0 /\ flag' = 1)).

(** A channel and its flag agree: the flag is 0 or 1 and counts the
    synchronizations made on the channel. *)
Definition synced_once (d : option InterpKernelDEC) (flag : Z) : Prop :=
  (flag = 0 \/ flag = 1) /\
  forall dec, d = Some dec -> Z.of_nat (n_synchronize dec) = flag.

Definition sync_inv (c : cs_paramedmem_coupling_t) : Prop :=
  synced_once (send_dec c) (send_synced c) /\
  synced_once (recv_dec c) (recv_synced c).

(** How many times a field was attached to a channel. *)
Definition n_attached (field_id : Z) (d : InterpKernelDEC) : nat :=
  length (filter (fun e => e = AttachLocalField field_id) (dec_calls d)).


Definition field_key_at (c : cs_paramedmem_coupling_t) (i : Z)
  : option (Z * string) :=
  p ← fields c !! Z.to_nat i; e ← p; Some (mesh_id e, fd_name (f e)).

(** The shape of the two lookup loops: the first entry from [i] on,
    among [n], that passes [test], or -1. *)
Fixpoint find_loop {A} (test : A -> bool) (n : nat) (l : list (option A))
    (i : Z) : result Z :=
  match n with
  | O => Ok (-1)
  | Datatypes.S n' =>
      x ← arr_deref l i;
      if test x then Ok i else find_loop test n' l (i + 1)
  end.

(** The arrays of an export alone are large enough: the field's array
    holds [n_elts] points; the caller's array holds [n_elts] points
    when it is compact, and the [n] points of the parent mesh that
    [elt_list] selects from otherwise. *)
Definition export_ready (n : Z) (on_parent : bool)
    (fld : _paramedmem_field_t) (pmesh : _paramedmem_mesh_t)
    (from : list double) : Prop :=
  0 <= dim fld /\ 0 <= n_elts (mesh pmesh) /\
  n_elts (mesh pmesh) * dim fld <= INT_MAX /\
  n_elts (mesh pmesh) * dim fld <= Z.of_nat (length (fd_array (f fld))) /\
  if on_parent
  then n * dim fld <= INT_MAX /\ selection_in n true (mesh pmesh) /\
       n * dim fld <= Z.of_nat (length from)
  else n_elts (mesh pmesh) * dim fld <= Z.of_nat (length from).

(** The arrays of an import alone are large enough: the caller's array
    holds the [n] points of the original numbering. *)
Definition import_ready (n : Z) (on_parent : bool)
    (fld : _paramedmem_field_t) (pmesh : _paramedmem_mesh_t)
    (to : list double) : Prop :=
  0 <= dim fld /\ 0 <= n_elts (mesh pmesh) /\ 0 <= n /\
  n_elts (mesh pmesh) * dim fld <= INT_MAX /\ n * dim fld <= INT_MAX /\
  n_elts (mesh pmesh) * dim fld <= Z.of_nat (length (fd_array (f fld))) /\
  selection_in n on_parent (mesh pmesh) /\
  n * dim fld <= Z.of_nat (length to).

(** ** Sample data *)

(** The session of rank 0 between the groups {0} and {1}. *)
Definition sample_send_dec : InterpKernelDEC :=
  _cs_paramedmem_create_InterpKernelDEC [0] [1].

Definition sample_recv_dec : InterpKernelDEC :=
  _cs_paramedmem_create_InterpKernelDEC [1] [0].

Definition sample_session : cs_paramedmem_coupling_t :=
  {| name := "cpl"; n_meshes := 0; meshes := []; n_fields := 0; fields := [];
     send_dec := Some sample_send_dec; recv_dec := Some sample_recv_dec;
     send_synced := 0; recv_synced := 0 |}.

(** One mesh of two cells, selected out of three and coupled in both
    directions, and one field of two components on it. *)
Definition sample_mesh : _paramedmem_mesh_t :=
  {| mesh := {| sel_criteria := "all[]"; elt_dim := 3; n_elts := 2;
                elt_list := Some [2; 0];
                med_mesh := {| um_name := "m"; um_time_unit := "s";
                               um_mesh_dimension := 3;
                               getNumberOfCells := 2; getNumberOfNodes := 8 |};
                new_to_old := Some [0; 1] |};
     direction := 3; para_mesh0 := None; para_mesh1 := None |}.

Definition sample_field : _paramedmem_field_t :=
  {| mesh_id := 0; dim := 2; td := NO_TIME;
     f := {| fd_type := ON_CELLS; fd_td := NO_TIME;
             fd_nature := IntensiveConservation; fd_name := "T";
             fd_array := alloc 2 2; fd_time_label := 0 |};
     pf := None |}.

Definition sample_with_mesh : cs_paramedmem_coupling_t :=
  set_meshes sample_session 1 [Some sample_mesh].

Definition sample_with_field : cs_paramedmem_coupling_t :=
  set_fields sample_with_mesh 1 [Some sample_field].

Definition sample_values : list double :=
  [1.5; 2.5; 3.5; 4.5; 5.5; 6.5]%float.

Definition sample_target : list double :=
  [10; 20; 30; 40; 50; 60]%float.

(** A mesh defined for receiving only, and a session holding it. *)
Definition sample_recv_mesh : _paramedmem_mesh_t :=
  {| mesh := mesh sample_mesh; direction := 2;
     para_mesh0 := None; para_mesh1 := None |}.

Definition sample_with_recv_mesh : cs_paramedmem_coupling_t :=
  set_meshes sample_session 1 [Some sample_recv_mesh].

(** A complete run: one mesh is defined and initialised, one field is
    added for sending and exported, the send channel is synchronized
    twice and the data sent. *)
Definition sample_globals : globals :=
  {| _n_paramed_couplers := 1;
     _paramed_couplers := Some [Some sample_session] |}.

Definition sample_ops : list api_op :=
  [Op_define_mesh "m" "all[]" 3 true false;
   Op_init_meshes (fun m => m);
   Op_field_add "T" 0 1 0 0 1;
   Op_sync_dec 1;
   Op_field_export 0 false [];
   Op_sync_dec 1;
   Op_send_data].

Definition sample_run : cs_paramedmem_coupling_t :=
  match run_ops sample_ops sample_session with
  | Ok c => c
  | Fail _ => sample_session
  end.

(** The sample field after a compact export of the sample values. *)
Definition sample_exported : cs_paramedmem_coupling_t :=
  match cs_paramedmem_field_export sample_with_field 0 false sample_values with
  | Ok c => c
  | Fail _ => sample_with_field
  end.

(** A mesh as [cs_paramedmem_define_mesh] leaves it, without element
    and with both index lists NULL; the same mesh with an element count
    but still no index list; and the session holding the sample field
    on a given mesh. *)
Definition sample_empty_mesh : _paramedmem_mesh_t :=
  {| mesh := {| sel_criteria := "all[]"; elt_dim := 3; n_elts := 0;
                elt_list := None; med_mesh := MEDCouplingUMesh_New;
                new_to_old := None |};
     direction := 1; para_mesh0 := None; para_mesh1 := None |}.

Definition sample_unlisted_mesh : _paramedmem_mesh_t :=
  {| mesh := {| sel_criteria := "all[]"; elt_dim := 3; n_elts := 2;
                elt_list := None; med_mesh := MEDCouplingUMesh_New;
                new_to_old := None |};
     direction := 1; para_mesh0 := None; para_mesh1 := None |}.

Definition sample_field_on (pm : _paramedmem_mesh_t)
  : cs_paramedmem_coupling_t :=
  set_fields (set_meshes sample_session 1 [Some pm]) 1 [Some sample_field].

(** ** Loops *)

Lemma for_loop_inv {S} (P : Z -> S -> Prop) (body : Z -> S -> result S)
    (n : nat) (lo : Z) (s : S) :
  P lo s ->
  (forall i s, lo <= i < lo + Z.of_nat n -> P i s ->
               exists s', body i s = Ok s' /\ P (i + 1) s') ->
  exists s', for_loop n lo body s = Ok s' /\ P (lo + Z.of_nat n) s'.
Proof.
  revert lo s. induction n as [|n IH]; intros lo s H0 Hstep.
  - exists s. split; [done|]. by replace (lo + Z.of_nat 0) with lo by lia.
  - destruct (Hstep lo s) as (s1 & Hb & H1); [lia|done|].
    destruct (IH (lo + 1) s1) as (s2 & Hl & H2); [done| |].
    + intros i s' Hi. apply Hstep. lia.
    + exists s2. split.
      * simpl. rewrite Hb. simpl. exact Hl.
      * by replace (lo + Z.of_nat (Datatypes.S n)) with (lo + 1 + Z.of_nat n) by lia.
Qed.

Lemma for_range_inv {S} (P : Z -> S -> Prop) (body : Z -> S -> result S)
    (hi : Z) (s : S) :
  0 <= hi ->
  P 0 s ->
  (forall i s, 0 <= i < hi -> P i s ->
               exists s', body i s = Ok s' /\ P (i + 1) s') ->
  exists s', for_range hi body s = Ok s' /\ P hi s'.
Proof.
  intros Hhi H0 Hstep. unfold for_range.
  destruct (for_loop_inv P body (Z.to_nat hi) 0 s) as (s' & Hl & Hp); [done| |].
  - intros i s1 Hi. apply Hstep. lia.
  - exists s'. split; [done|]. by replace hi with (0 + Z.of_nat (Z.to_nat hi)) at 1 by lia.
Qed.

(** Runs the binds whose first computation is a value. *)
Ltac rsimpl :=
  cbn [mbind result_bind mret result_ret deref
       _paramed_couplers _n_paramed_couplers].

Lemma int_Ok (z : Z) : INT_MIN <= z <= INT_MAX -> int z = Ok z.
Proof.
  intros H. unfold int, int_ok.
  destruct (Z.leb_spec INT_MIN z), (Z.leb_spec z INT_MAX); simpl; done || lia.
Qed.

Lemma arr_get_Ok {A} (a : list A) (i : Z) (x : A) :
  0 <= i -> a !! Z.to_nat i = Some x -> arr_get a i = Ok x.
Proof.
  intros Hi Hx. unfold arr_get.
  destruct (Z.ltb_spec i 0); [lia|]. by rewrite Hx.
Qed.

Lemma arr_set_Ok {A} (a : list A) (i : Z) (x : A) :
  0 <= i < Z.of_nat (length a) -> arr_set a i x = Ok (<[Z.to_nat i := x]> a).
Proof.
  intros Hi. unfold arr_set.
  destruct (Z.ltb_spec i 0); [lia|].
  destruct (Z.ltb_spec i (Z.of_nat (length a))); [done|lia].
Qed.

Lemma arr_deref_Ok {A} (a : list (option A)) (i : Z) (x : A) :
  0 <= i -> a !! Z.to_nat i = Some (Some x) -> arr_deref a i = Ok x.
Proof.
  intros Hi Hx. unfold arr_deref. by rewrite (arr_get_Ok a i (Some x)).
Qed.

Lemma idx_Ok (a b j : Z) :
  0 <= a * b -> 0 <= j -> a * b + j <= INT_MAX -> idx a b j = Ok (a * b + j).
Proof.
  intros Ha Hj Hmax. unfold idx.
  rewrite int_Ok by (unfold INT_MIN, INT_MAX in *; lia). simpl.
  apply int_Ok. unfold INT_MIN, INT_MAX in *. lia.
Qed.

(** *** Loops of assignments [to[w i j] = from[r i j]] *)

Section copy_loops.

Variable from : list double.
Variable to0 : list double.
Variables rd wr : Z -> Z -> result Z.
Variables r w : Z -> Z -> Z.
Variables n m : Z.

Hypothesis Hrd : forall i j, 0 <= i < n -> 0 <= j < m ->
  rd i j = Ok (r i j) /\ 0 <= r i j < Z.of_nat (length from).
Hypothesis Hwr : forall i j, 0 <= i < n -> 0 <= j < m ->
  wr i j = Ok (w i j) /\ 0 <= w i j < Z.of_nat (length to0).

Local Abbreviation copied := (copied_from from to0 r w).

Lemma copied_ext (D D' : Z -> Z -> Prop) (to : list double) :
  (forall i j, D i j <-> D' i j) -> copied D to -> copied D' to.
Proof.
  intros HD [Hlen Hp]. split; [done|]. intros p.
  destruct (Hp p) as [[He Hn]|(i & j & Hd & Hw & He)].
  - left. split; [done|]. intros i j Hd. apply Hn. by apply HD.
  - right. exists i, j. split; [by apply HD|done].
Qed.

Lemma copy_elt_step (D : Z -> Z -> Prop) (i j : Z) (to : list double) :
  0 <= i < n -> 0 <= j < m -> copied D to ->
  exists to', copy_elt from (rd i j) (wr i j) to = Ok to' /\
              copied (fun i' j' => D i' j' \/ (i' = i /\ j' = j)) to'.
Proof.
  intros Hi Hj [Hlen Hp].
  destruct (Hrd i j Hi Hj) as [Er Hr], (Hwr i j Hi Hj) as [Ew Hw].
  destruct (lookup_lt_is_Some_2 from (Z.to_nat (r i j))) as [x Hx]; [lia|].
  exists (<[Z.to_nat (w i j) := x]> to). split.
  - unfold copy_elt. rewrite Er, Ew. simpl.
    rewrite (arr_get_Ok from (r i j) x) by (lia || done). simpl.
    apply arr_set_Ok. lia.
  - split; [by rewrite length_insert|]. intros p.
    destruct (decide (Z.to_nat (w i j) = p)) as [<-|Hne].
    + right. exists i, j. split; [by right|]. split; [done|].
      rewrite list_lookup_insert_eq by lia. done.
    + rewrite list_lookup_insert_ne by done.
      destruct (Hp p) as [[He Hn]|(i' & j' & Hd & Hw' & He)].
      * left. split; [done|]. intros i' j' [Hd|[-> ->]]; [by apply Hn|done].
      * right. exists i', j'. split; [by left|done].
Qed.

(** The two nested loops over [i < n] and [j < m]. *)
Lemma copy_loops_spec :
  0 <= n -> 0 <= m ->
  exists to',
    for_range n
      (fun i to =>
         for_range m (fun j to => copy_elt from (rd i j) (wr i j) to) to)
      to0 = Ok to' /\
    copied (fun i j => 0 <= i < n /\ 0 <= j < m) to'.
Proof.
  intros Hn Hm.
  destruct (for_range_inv
    (fun i to => copied (fun i' j' => 0 <= i' < i /\ 0 <= j' < m) to)
    (fun i to =>
       for_range m (fun j to => copy_elt from (rd i j) (wr i j) to) to)
    n to0 Hn) as (to' & Hl & Hc).
  - split; [done|]. intros p. left. split; [done|]. intros i j [? _]. lia.
  - intros i to Hi Hc.
    destruct (for_range_inv
      (fun j to => copied
         (fun i' j' => (0 <= i' < i /\ 0 <= j' < m) \/ (i' = i /\ 0 <= j' < j)) to)
      (fun j to => copy_elt from (rd i j) (wr i j) to)
      m to Hm) as (to' & Hl & Hc').
    + eapply copied_ext; [|exact Hc]. intros i' j'. split; [by left|].
      intros [?|[_ ?]]; [done|lia].
    + intros j to1 Hj Hc1.
      destruct (copy_elt_step _ i j to1 Hi Hj Hc1) as (to2 & He & Hc2).
      exists to2. split; [done|].
      eapply copied_ext; [|exact Hc2]. intros i' j'. simpl. lia.
    + exists to'. split; [done|].
      eapply copied_ext; [|exact Hc']. intros i' j'. lia.
  - exists to'. split; [done|exact Hc].
Qed.

(** The single loop over [i < n], for pairs [(i, 0)]. *)
Lemma copy_loop_spec :
  0 <= n -> 0 < m ->
  exists to',
    for_range n (fun i to => copy_elt from (rd i 0) (wr i 0) to) to0 = Ok to' /\
    copied (fun i j => 0 <= i < n /\ j = 0) to'.
Proof.
  intros Hn Hm.
  destruct (for_range_inv
    (fun i to => copied (fun i' j' => 0 <= i' < i /\ j' = 0) to)
    (fun i to => copy_elt from (rd i 0) (wr i 0) to)
    n to0 Hn) as (to' & Hl & Hc).
  - split; [done|]. intros p. left. split; [done|]. intros i j [? _]. lia.
  - intros i to Hi Hc.
    destruct (copy_elt_step _ i 0 to Hi ltac:(lia) Hc) as (to2 & He & Hc2).
    exists to2. split; [done|].
    eapply copied_ext; [|exact Hc2]. intros i' j'. simpl. lia.
  - exists to'. split; [done|exact Hc].
Qed.

End copy_loops.

(** ** Synchronization runs once per channel *)

Lemma sync_dec_first (c : cs_paramedmem_coupling_t) (dec_to_sync : Z)
    (d : InterpKernelDEC) :
  dec_of c dec_to_sync = Some d -> synced_of c dec_to_sync = 0 ->
  exists c1, cs_paramedmem_sync_dec c dec_to_sync = Ok c1 /\
             dec_of c1 dec_to_sync = Some (dec_call_on d Synchronize) /\
             synced_of c1 dec_to_sync = 1.
Proof.
  unfold dec_of, synced_of, cs_paramedmem_sync_dec.
  destruct (dec_to_sync =? 1); intros -> ->; simpl; eauto.
Qed.

Lemma sync_dec_again (c : cs_paramedmem_coupling_t) (dec_to_sync : Z) :
  synced_of c dec_to_sync <> 0 -> cs_paramedmem_sync_dec c dec_to_sync = Ok c.
Proof.
  unfold synced_of, cs_paramedmem_sync_dec.
  destruct (dec_to_sync =? 1); intros H.
  - by destruct (Z.eqb_spec (send_synced c) 0).
  - by destruct (Z.eqb_spec (recv_synced c) 0).
Qed.

Lemma sync_dec_repeat_again (n : nat) (c : cs_paramedmem_coupling_t)
    (dec_to_sync : Z) :
  synced_of c dec_to_sync <> 0 -> sync_dec_repeat n c dec_to_sync = Ok c.
Proof.
  intros H. induction n as [|n IH]; [done|].
  simpl. rewrite sync_dec_again by done. exact IH.
Qed.

Lemma sync_dec_other_direction (c c' : cs_paramedmem_coupling_t)
    (dec_to_sync other : Z) :
  (other =? 1) <> (dec_to_sync =? 1) ->
  cs_paramedmem_sync_dec c other = Ok c' ->
  dec_of c' dec_to_sync = dec_of c dec_to_sync /\
  synced_of c' dec_to_sync = synced_of c dec_to_sync.
Proof.
  unfold cs_paramedmem_sync_dec, dec_of, synced_of.
  destruct (other =? 1), (dec_to_sync =? 1); try done; intros _.
  - destruct (send_synced c =? 0); [|by intros [= <-]].
    destruct (send_dec c); rsimpl; [|done]. by intros [= <-].
  - destruct (recv_synced c =? 0); [|by intros [= <-]].
    destruct (recv_dec c); rsimpl; [|done]. by intros [= <-].
Qed.

(** C1: on a live session whose channel for the direction has not been
    synchronized, N > 1 calls of [cs_paramedmem_sync_dec] synchronize
    that channel exactly once.  The first call makes the one
    [synchronize()] call and sets the flag of the direction; every later
    call returns the coupling as it got it; so the N calls leave the
    state the first one left, with one more synchronization recorded on
    the channel than before.  More generally a call for a direction
    whose flag is set changes nothing, and a call for the other
    direction leaves the channel and the flag of this one alone. *)
Theorem sync_dec_exactly_once (c : cs_paramedmem_coupling_t)
    (dec_to_sync : Z) (d : InterpKernelDEC) (N : nat) :
  dec_of c dec_to_sync = Some d ->
  synced_of c dec_to_sync = 0 ->
  (1 < N)%nat ->
  exists c1 d1,
    cs_paramedmem_sync_dec c dec_to_sync = Ok c1 /\
    dec_of c1 dec_to_sync = Some d1 /\
    dec_calls d1 = dec_calls d ++ [Synchronize] /\
    synced_of c1 dec_to_sync = 1 /\
    cs_paramedmem_sync_dec c1 dec_to_sync = Ok c1 /\
    (forall k : nat, sync_dec_repeat k c1 dec_to_sync = Ok c1) /\
    sync_dec_repeat N c dec_to_sync = Ok c1 /\
    n_synchronize d1 = Datatypes.S (n_synchronize d) /\
    (forall c2, synced_of c2 dec_to_sync <> 0 ->
       cs_paramedmem_sync_dec c2 dec_to_sync = Ok c2) /\
    (forall other c2 c3, (other =? 1) <> (dec_to_sync =? 1) ->
       cs_paramedmem_sync_dec c2 other = Ok c3 ->
       dec_of c3 dec_to_sync = dec_of c2 dec_to_sync /\
       synced_of c3 dec_to_sync = synced_of c2 dec_to_sync).
Proof.
  intros Hd Hs HN.
  destruct (sync_dec_first c dec_to_sync d Hd Hs) as (c1 & H1 & Hd1 & Hs1).
  assert (Hne : synced_of c1 dec_to_sync <> 0) by lia.
  exists c1, (dec_call_on d Synchronize).
  split; [done|]. split; [done|]. split; [done|]. split; [done|].
  split; [by apply sync_dec_again|].
  split; [intros k; by apply sync_dec_repeat_again|].
  split; [|split; [|split]].
  - destruct N as [|N]; [lia|]. simpl. rewrite H1. rsimpl.
    by apply sync_dec_repeat_again.
  - unfold n_synchronize. simpl. rewrite filter_app, length_app.
    rewrite filter_cons_True by done. simpl. lia.
  - intros c2. apply sync_dec_again.
  - intros other c2 c3. apply sync_dec_other_direction.
Qed.

Lemma sync_dec_exactly_once_witness :
  exists c1 d1,
    cs_paramedmem_sync_dec sample_session 1 = Ok c1 /\
    dec_of c1 1 = Some d1 /\
    dec_calls d1 = dec_calls sample_send_dec ++ [Synchronize] /\
    synced_of c1 1 = 1 /\
    cs_paramedmem_sync_dec c1 1 = Ok c1 /\
    (forall k : nat, sync_dec_repeat k c1 1 = Ok c1) /\
    sync_dec_repeat 3 sample_session 1 = Ok c1 /\
    n_synchronize d1 = Datatypes.S (n_synchronize sample_send_dec) /\
    (forall c2, synced_of c2 1 <> 0 -> cs_paramedmem_sync_dec c2 1 = Ok c2) /\
    (forall other c2 c3, (other =? 1) <> (1 =? 1) ->
       cs_paramedmem_sync_dec c2 other = Ok c3 ->
       dec_of c3 1 = dec_of c2 1 /\ synced_of c3 1 = synced_of c2 1).
Proof.
  apply (sync_dec_exactly_once sample_session 1 sample_send_dec 3).
  - reflexivity.
  - reflexivity.
  - lia.
Defined.

(** ** Arrays grown by one entry *)

Lemma realloc_store {A} (a : list (option A)) (n : Z) (x : A) :
  Z.of_nat (length a) = n ->
  arr_set (BFT_REALLOC a (n + 1)) n (Some x) = Ok (a ++ [Some x]).
Proof.
  intros Hn. unfold BFT_REALLOC.
  replace (Z.to_nat (n + 1)) with (length a + 1)%nat by lia.
  rewrite resize_add, resize_all, drop_all. simpl.
  rewrite arr_set_Ok by (rewrite length_app; simpl; lia).
  f_equal. replace (Z.to_nat n) with (length a + 0)%nat by lia.
  by rewrite insert_app_r.
Qed.

(** ** Creation of a session *)

(** The coupling [_add_paramedmem_interpkernel] builds. *)
Lemma interpkernel_create_result (my_rank : Z) (g : globals) (nm : string)
    (grp1 grp2 : list Z) :
  globals_wf g ->
  exists g' c,
    cs_paramedmem_interpkernel_create my_rank g nm grp1 grp2 = Ok (g', Some c) /\
    _n_paramed_couplers g' = _n_paramed_couplers g + 1 /\
    cs_paramedmem_coupling_by_id g' (_n_paramed_couplers g) = Ok (Some c) /\
    name c = nm /\ n_meshes c = 0 /\ meshes c = [] /\
    n_fields c = 0 /\ fields c = [] /\
    send_synced c = 0 /\ recv_synced c = 0 /\
    send_dec c = Some (if is_in_grp my_rank grp1
                       then _cs_paramedmem_create_InterpKernelDEC grp1 grp2
                       else _cs_paramedmem_create_InterpKernelDEC grp2 grp1) /\
    recv_dec c = Some (if is_in_grp my_rank grp1
                       then _cs_paramedmem_create_InterpKernelDEC grp2 grp1
                       else _cs_paramedmem_create_InterpKernelDEC grp1 grp2).
Proof.
  intros [Hn Ha].
  assert (Hint : int (_n_paramed_couplers g + 1) = Ok (_n_paramed_couplers g + 1))
    by (apply int_Ok; unfold INT_MIN, INT_MAX in *; lia).
  assert (Hint' : int (_n_paramed_couplers g + 1 - 1) = Ok (_n_paramed_couplers g))
    by (replace (_n_paramed_couplers g + 1 - 1) with (_n_paramed_couplers g) by lia;
        apply int_Ok; unfold INT_MIN, INT_MAX in *; lia).
  assert (Hlast : forall (a : list (option cs_paramedmem_coupling_t)) x,
    Z.of_nat (length a) = _n_paramed_couplers g ->
    arr_get (a ++ [Some x]) (_n_paramed_couplers g) = Ok (Some x)).
  { intros a x Hlen. apply arr_get_Ok; [lia|].
    replace (Z.to_nat (_n_paramed_couplers g)) with (length a + 0)%nat by lia.
    by rewrite lookup_app_r, Nat.add_comm, Nat.add_sub by lia. }
  unfold cs_paramedmem_interpkernel_create, cs_paramedmem_coupling_by_id,
    _add_paramedmem_interpkernel.
  destruct (_paramed_couplers g) as [a|]; rsimpl.
  - rewrite Hint. rsimpl. rewrite realloc_store by done. rsimpl.
    rewrite Hint'. rsimpl. rewrite Hlast by done. rsimpl.
    eexists _, _. split; [reflexivity|]. rsimpl. rewrite Hlast by done.
    by destruct (is_in_grp my_rank grp1).
  - rewrite Ha. rewrite (realloc_store [] 0) by done. rsimpl.
    eexists _, _. split; [reflexivity|]. simpl.
    by destruct (is_in_grp my_rank grp1).
Qed.

Lemma is_in_grp_elem_of (my_rank : Z) (grp : list Z) :
  is_in_grp my_rank grp = true <-> my_rank ∈ grp.
Proof.
  induction grp as [|r rest IH]; simpl.
  - split; [done|]. by intros ?%elem_of_nil.
  - rewrite elem_of_cons. destruct (Z.eqb_spec my_rank r) as [->|Hne].
    + split; [by left|done].
    + rewrite IH. split; [by right|]. by intros [?|?].
Qed.

Lemma std_set_insert_all_elem_of (ranks : list Z) (x : Z) :
  x ∈ std_set_insert_all ranks <-> x ∈ ranks.
Proof.
  unfold std_set_insert_all.
  assert (H : forall (acc : gset Z),
    x ∈ foldl (fun ids r => ids ∪ {[ r ]}) acc ranks <-> x ∈ acc \/ x ∈ ranks).
  { induction ranks as [|r rest IH]; intros acc; simpl.
    - rewrite elem_of_nil. tauto.
    - rewrite IH, elem_of_union, elem_of_singleton, elem_of_cons. tauto. }
  rewrite H, elem_of_empty. tauto.
Qed.

(** C3, amended: [cs_paramedmem_interpkernel_create] makes no check on
    the membership of the caller's rank.  Whatever the rank and the two
    groups (rank in one group, in both, or in neither) a session is
    created, registered as the last coupling, with both channels
    present and not synchronized.  The rank is only looked up in the
    first group: found there (also when it is in the second group as
    well) the session is built as for a member of group 1; not found
    there (also when it is in neither group) as for a member of
    group 2. *)
Theorem interpkernel_create_no_membership_check (my_rank : Z) (g : globals)
    (nm : string) (grp1 grp2 : list Z) :
  globals_wf g ->
  exists g' c s r,
    cs_paramedmem_interpkernel_create my_rank g nm grp1 grp2 = Ok (g', Some c) /\
    _n_paramed_couplers g' = _n_paramed_couplers g + 1 /\
    cs_paramedmem_coupling_by_id g' (_n_paramed_couplers g) = Ok (Some c) /\
    send_dec c = Some s /\ recv_dec c = Some r /\
    send_synced c = 0 /\ recv_synced c = 0 /\
    n_meshes c = 0 /\ n_fields c = 0 /\
    (my_rank ∈ grp1 ->
       s = _cs_paramedmem_create_InterpKernelDEC grp1 grp2 /\
       r = _cs_paramedmem_create_InterpKernelDEC grp2 grp1) /\
    (my_rank ∉ grp1 ->
       s = _cs_paramedmem_create_InterpKernelDEC grp2 grp1 /\
       r = _cs_paramedmem_create_InterpKernelDEC grp1 grp2).
Proof.
  intros Hg.
  destruct (interpkernel_create_result my_rank g nm grp1 grp2 Hg)
    as (g' & c & Hc & Hn & Hid & _ & Hm & _ & Hf & _ & Hss & Hrs & Hs & Hr).
  eexists g', c, _, _. split; [exact Hc|].
  do 8 (split; [done|]). split.
  - intros Hin%is_in_grp_elem_of. by rewrite Hin.
  - intros Hnin. destruct (is_in_grp my_rank grp1) eqn:E; [|done].
    by apply is_in_grp_elem_of in E.
Qed.

Lemma interpkernel_create_no_membership_check_witness :
  exists g' c s r,
    cs_paramedmem_interpkernel_create 2 globals_init "cpl" [0] [1]
      = Ok (g', Some c) /\
    _n_paramed_couplers g' = _n_paramed_couplers globals_init + 1 /\
    cs_paramedmem_coupling_by_id g' (_n_paramed_couplers globals_init)
      = Ok (Some c) /\
    send_dec c = Some s /\ recv_dec c = Some r /\
    send_synced c = 0 /\ recv_synced c = 0 /\
    n_meshes c = 0 /\ n_fields c = 0 /\
    (2 ∈ [0] ->
       s = _cs_paramedmem_create_InterpKernelDEC [0] [1] /\
       r = _cs_paramedmem_create_InterpKernelDEC [1] [0]) /\
    (2 ∉ [0] ->
       s = _cs_paramedmem_create_InterpKernelDEC [1] [0] /\
       r = _cs_paramedmem_create_InterpKernelDEC [0] [1]).
Proof.
  apply (interpkernel_create_no_membership_check 2 globals_init "cpl" [0] [1]).
  unfold globals_wf, globals_init, INT_MAX. simpl. lia.
Defined.

(** C3, as stated, fails: a rank in neither group, and a rank in both,
    get a session and no error. *)
Lemma interpkernel_create_accepts_any_rank :
  ((2 ∉ [0]) /\ (2 ∉ [1]) /\
   exists g' c, cs_paramedmem_interpkernel_create 2 globals_init "cpl" [0] [1]
                = Ok (g', Some c)) /\
  ((0 ∈ [0]) /\ (0 ∈ [0; 1]) /\
   exists g' c, cs_paramedmem_interpkernel_create 0 globals_init "cpl" [0] [0; 1]
                = Ok (g', Some c)).
Proof.
  split.
  - split; [|split].
    + by intros [?|?%elem_of_nil]%elem_of_cons.
    + by intros [?|?%elem_of_nil]%elem_of_cons.
    + eexists _, _. reflexivity.
  - split; [|split].
    + apply elem_of_cons. by left.
    + apply elem_of_cons. by left.
    + eexists _, _. reflexivity.
Qed.

(** C6: the send channel goes from the caller's own group to the other
    group and the receive channel from the other group to the own one:
    a rank found in group 1 gets send = DEC(group1, group2) and
    receive = DEC(group2, group1); a rank of group 2 (and not of
    group 1) gets send = DEC(group2, group1) and receive =
    DEC(group1, group2).  In both cases the caller's rank is in the
    source set of its send channel and in the target set of its
    receive channel, and DEC(a, b) has the ranks of a as source set
    and the ranks of b as target set. *)
Theorem interpkernel_create_own_to_other (my_rank : Z) (g : globals)
    (nm : string) (grp1 grp2 : list Z) :
  globals_wf g ->
  my_rank ∈ grp1 \/ my_rank ∈ grp2 ->
  exists g' c s r,
    cs_paramedmem_interpkernel_create my_rank g nm grp1 grp2 = Ok (g', Some c) /\
    send_dec c = Some s /\ recv_dec c = Some r /\
    (my_rank ∈ grp1 ->
       s = _cs_paramedmem_create_InterpKernelDEC grp1 grp2 /\
       r = _cs_paramedmem_create_InterpKernelDEC grp2 grp1 /\
       source_grp s = list_to_set grp1 /\ target_grp s = list_to_set grp2 /\
       source_grp r = list_to_set grp2 /\ target_grp r = list_to_set grp1) /\
    (my_rank ∈ grp2 -> my_rank ∉ grp1 ->
       s = _cs_paramedmem_create_InterpKernelDEC grp2 grp1 /\
       r = _cs_paramedmem_create_InterpKernelDEC grp1 grp2 /\
       source_grp s = list_to_set grp2 /\ target_grp s = list_to_set grp1 /\
       source_grp r = list_to_set grp1 /\ target_grp r = list_to_set grp2) /\
    my_rank ∈ source_grp s /\ my_rank ∈ target_grp r /\
    dec_calls s = [] /\ dec_calls r = [].
Proof.
  intros Hg Hmem.
  assert (Hset : forall l, std_set_insert_all l = list_to_set l).
  { intros l. apply set_eq. intros x.
    by rewrite std_set_insert_all_elem_of, elem_of_list_to_set. }
  destruct (interpkernel_create_result my_rank g nm grp1 grp2 Hg)
    as (g' & c & Hc & _ & _ & _ & _ & _ & _ & _ & _ & _ & Hs & Hr).
  eexists g', c, _, _. split; [exact Hc|].
  split; [exact Hs|]. split; [exact Hr|].
  destruct (is_in_grp my_rank grp1) eqn:E.
  - apply is_in_grp_elem_of in E. simpl. rewrite !Hset.
    repeat split; try done; by apply elem_of_list_to_set.
  - assert (Hnin : my_rank ∉ grp1).
    { intros Hin%is_in_grp_elem_of. congruence. }
    destruct Hmem as [?|Hin2]; [done|]. simpl. rewrite !Hset.
    repeat split; try done; by apply elem_of_list_to_set.
Qed.

Lemma interpkernel_create_own_to_other_witness :
  exists g' c s r,
    cs_paramedmem_interpkernel_create 1 globals_init "cpl" [0] [1]
      = Ok (g', Some c) /\
    send_dec c = Some s /\ recv_dec c = Some r /\
    (1 ∈ [0] ->
       s = _cs_paramedmem_create_InterpKernelDEC [0] [1] /\
       r = _cs_paramedmem_create_InterpKernelDEC [1] [0] /\
       source_grp s = list_to_set [0] /\ target_grp s = list_to_set [1] /\
       source_grp r = list_to_set [1] /\ target_grp r = list_to_set [0]) /\
    (1 ∈ [1] -> 1 ∉ [0] ->
       s = _cs_paramedmem_create_InterpKernelDEC [1] [0] /\
       r = _cs_paramedmem_create_InterpKernelDEC [0] [1] /\
       source_grp s = list_to_set [1] /\ target_grp s = list_to_set [0] /\
       source_grp r = list_to_set [0] /\ target_grp r = list_to_set [1]) /\
    1 ∈ source_grp s /\ 1 ∈ target_grp r /\
    dec_calls s = [] /\ dec_calls r = [].
Proof.
  apply (interpkernel_create_own_to_other 1 globals_init "cpl" [0] [1]).
  - unfold globals_wf, globals_init, INT_MAX. simpl. lia.
  - right. apply elem_of_cons. left. reflexivity.
Defined.

(** ** Transfers and synchronization state *)

(** C2, amended: [cs_paramedmem_send_data] does not look at the
    synchronization flag.  On every session whose send channel exists,
    synchronized or not, it calls [sendData()] on the send channel once
    and changes nothing else; calling the synchronization first is left
    to the caller. *)
Theorem send_data_ignores_synced (c : cs_paramedmem_coupling_t)
    (d : InterpKernelDEC) :
  send_dec c = Some d ->
  exists c' d',
    cs_paramedmem_send_data c = Ok c' /\
    send_dec c' = Some d' /\
    dec_calls d' = dec_calls d ++ [SendData] /\
    source_grp d' = source_grp d /\ target_grp d' = target_grp d /\
    send_synced c' = send_synced c /\ recv_synced c' = recv_synced c /\
    recv_dec c' = recv_dec c /\
    meshes c' = meshes c /\ fields c' = fields c.
Proof.
  intros Hd. unfold cs_paramedmem_send_data. rewrite Hd. rsimpl.
  eexists _, _. split; [reflexivity|]. simpl. by repeat split.
Qed.

Lemma send_data_ignores_synced_witness :
  exists c' d',
    cs_paramedmem_send_data sample_session = Ok c' /\
    send_dec c' = Some d' /\
    dec_calls d' = dec_calls sample_send_dec ++ [SendData] /\
    source_grp d' = source_grp sample_send_dec /\
    target_grp d' = target_grp sample_send_dec /\
    send_synced c' = send_synced sample_session /\
    recv_synced c' = recv_synced sample_session /\
    recv_dec c' = recv_dec sample_session /\
    meshes c' = meshes sample_session /\ fields c' = fields sample_session.
Proof.
  apply (send_data_ignores_synced sample_session sample_send_dec).
  reflexivity.
Defined.

(** C2, as stated, fails: on a session just created, whose send channel
    was never synchronized, the send is not rejected; [sendData()] is
    called on the channel and the flag is still 0. *)
Lemma send_data_before_sync_not_rejected :
  send_synced sample_session = 0 /\
  dec_calls sample_send_dec = [] /\
  exists c' d',
    cs_paramedmem_send_data sample_session = Ok c' /\
    send_dec c' = Some d' /\ dec_calls d' = [SendData] /\
    send_synced c' = 0.
Proof.
  split; [reflexivity|]. split; [reflexivity|].
  eexists _, _. split; [reflexivity|]. split; [reflexivity|].
  split; reflexivity.
Qed.

(** ** Registration of a mesh *)

(** C4, amended: [cs_paramedmem_define_mesh] rejects no combination of
    [is_source] and [is_dest].  It always registers the mesh under the
    next id, with direction [is_source + 2 * is_dest]; with both flags
    false the mesh is registered with direction 0. *)
Theorem define_mesh_any_direction (c : cs_paramedmem_coupling_t)
    (nm select_criteria : string) (e_dim : Z) (is_source is_dest : bool) :
  meshes_wf c ->
  exists c' pm,
    cs_paramedmem_define_mesh c nm select_criteria e_dim is_source is_dest
      = Ok (c', n_meshes c) /\
    n_meshes c' = n_meshes c + 1 /\
    meshes c' = meshes c ++ [Some pm] /\
    direction pm = (if is_source then 1 else 0) + (if is_dest then 2 else 0) /\
    (is_source = false -> is_dest = false -> direction pm = 0) /\
    para_mesh0 pm = None /\ para_mesh1 pm = None /\
    n_elts (mesh pm) = 0 /\ elt_list (mesh pm) = None /\
    um_name (med_mesh (mesh pm)) = nm /\
    fields c' = fields c /\ send_dec c' = send_dec c /\ recv_dec c' = recv_dec c.
Proof.
  intros [Hlen Hmax]. unfold cs_paramedmem_define_mesh.
  destruct is_source, is_dest; rsimpl;
    repeat (rewrite int_Ok by (unfold INT_MIN, INT_MAX in *; lia); rsimpl);
    rewrite realloc_store by done; rsimpl;
    eexists _, _; (split; [reflexivity|]); simpl; by repeat split.
Qed.

Lemma define_mesh_any_direction_witness :
  exists c' pm,
    cs_paramedmem_define_mesh sample_session "m" "all[]" 3 false false
      = Ok (c', n_meshes sample_session) /\
    n_meshes c' = n_meshes sample_session + 1 /\
    meshes c' = meshes sample_session ++ [Some pm] /\
    direction pm = (if false then 1 else 0) + (if false then 2 else 0) /\
    (false = false -> false = false -> direction pm = 0) /\
    para_mesh0 pm = None /\ para_mesh1 pm = None /\
    n_elts (mesh pm) = 0 /\ elt_list (mesh pm) = None /\
    um_name (med_mesh (mesh pm)) = "m" /\
    fields c' = fields sample_session /\
    send_dec c' = send_dec sample_session /\
    recv_dec c' = recv_dec sample_session.
Proof.
  apply (define_mesh_any_direction sample_session "m" "all[]" 3 false false).
  unfold meshes_wf, INT_MAX. simpl. lia.
Defined.

(** C4, as stated, fails: a mesh that is neither source nor destination
    is accepted, gets id 0 and direction 0. *)
Lemma define_mesh_no_direction_accepted :
  exists c' pm,
    cs_paramedmem_define_mesh sample_session "m" "all[]" 3 false false
      = Ok (c', 0) /\
    n_meshes c' = 1 /\ meshes c' = [Some pm] /\ direction pm = 0.
Proof.
  eexists _, _. split; [reflexivity|]. split; [reflexivity|].
  split; reflexivity.
Qed.

(** ** Registration and re-attachment of a field *)

Lemma field_at_deref (c : cs_paramedmem_coupling_t) (field_id : Z)
    (fld : _paramedmem_field_t) (pmesh : _paramedmem_mesh_t) :
  field_at c field_id fld pmesh ->
  arr_deref (fields c) field_id = Ok fld /\
  arr_deref (meshes c) (mesh_id fld) = Ok pmesh.
Proof.
  intros (Hi & Hf & Hm & Hp). split; by apply arr_deref_Ok.
Qed.

(** C9: for a field whose mesh has direction 3,
    [cs_paramedmem_reattach_field] attaches the field to neither
    channel and returns the session unchanged.  Whenever the call
    changes the send channel the direction of the mesh is exactly 1,
    whenever it changes the receive channel it is exactly 2, and with
    any other direction the session is returned as it was. *)
Theorem reattach_field_only_single_direction (c : cs_paramedmem_coupling_t)
    (field_id : Z) (fld : _paramedmem_field_t) (pmesh : _paramedmem_mesh_t) :
  field_at c field_id fld pmesh ->
  (direction pmesh = 3 -> cs_paramedmem_reattach_field c field_id = Ok c) /\
  (direction pmesh <> 1 -> direction pmesh <> 2 ->
     cs_paramedmem_reattach_field c field_id = Ok c) /\
  (forall c', cs_paramedmem_reattach_field c field_id = Ok c' ->
     (send_dec c' <> send_dec c -> direction pmesh = 1) /\
     (recv_dec c' <> recv_dec c -> direction pmesh = 2) /\
     send_synced c' = send_synced c /\ recv_synced c' = recv_synced c /\
     meshes c' = meshes c /\ fields c' = fields c) /\
  (forall d p, direction pmesh = 1 -> send_dec c = Some d -> pf fld = Some p ->
     cs_paramedmem_reattach_field c field_id =
       Ok (set_send c (Some (dec_call_on d (AttachLocalField field_id)))
             (send_synced c))) /\
  (forall d p, direction pmesh = 2 -> recv_dec c = Some d -> pf fld = Some p ->
     cs_paramedmem_reattach_field c field_id =
       Ok (set_recv c (Some (dec_call_on d (AttachLocalField field_id)))
             (recv_synced c))).
Proof.
  intros [Hf Hm]%field_at_deref.
  unfold cs_paramedmem_reattach_field. rewrite Hf. rsimpl. rewrite Hm. rsimpl.
  split; [|split; [|split; [|split]]].
  - intros ->. reflexivity.
  - intros H1 H2.
    destruct (Z.eqb_spec (direction pmesh) 1); [done|].
    by destruct (Z.eqb_spec (direction pmesh) 2).
  - intros c'.
    destruct (Z.eqb_spec (direction pmesh) 1) as [E1|N1].
    + destruct (send_dec c), (pf fld); rsimpl; try done.
      intros [= <-]. simpl. by repeat split.
    + destruct (Z.eqb_spec (direction pmesh) 2) as [E2|N2].
      * destruct (recv_dec c), (pf fld); rsimpl; try done.
        intros [= <-]. simpl. by repeat split.
      * intros [= <-]. by repeat split.
  - intros d p -> -> ->. reflexivity.
  - intros d p -> -> ->. reflexivity.
Qed.

Lemma reattach_field_only_single_direction_witness :
  cs_paramedmem_reattach_field sample_with_field 0 = Ok sample_with_field.
Proof.
  refine (proj1 (reattach_field_only_single_direction
                   sample_with_field 0 sample_field sample_mesh _) _).
  - unfold field_at. simpl.
    split; [lia|split; [reflexivity|split; [lia|reflexivity]]].
  - reflexivity.
Defined.

Lemma length_alloc (n_locs d : Z) :
  length (alloc n_locs d) = (Z.to_nat n_locs * Z.to_nat d)%nat.
Proof. unfold alloc. by rewrite length_replicate. Qed.

Arguments alloc : simpl never.

(** The located points of a field type argument. *)
Lemma field_add_type_cases (medcpl_field_type : Z) :
  (if medcpl_field_type =? cs_medcpl_cell_field then ON_CELLS
   else if medcpl_field_type =? cs_medcpl_vertex_field then ON_NODES
   else ON_CELLS)
  = (if medcpl_field_type =? cs_medcpl_vertex_field then ON_NODES else ON_CELLS).
Proof.
  unfold cs_medcpl_cell_field, cs_medcpl_vertex_field.
  destruct (Z.eqb_spec medcpl_field_type 0) as [->|]; [reflexivity|].
  reflexivity.
Qed.

(** C10: [cs_paramedmem_field_add] with a direction flag that is
    neither 1 nor 2, or whose channel is NULL, does not fail.  It
    returns the next field id, which no field had before and which
    names the new entry afterwards; the field count grows by one; the
    value array has (number of located points) x dim entries; no
    ParaFIELD is made ([pf] is left unassigned), and neither channel
    nor any mesh entry is touched, so the field is attached to no
    channel. *)
Theorem field_add_without_channel (c : cs_paramedmem_coupling_t)
    (field_name : string)
    (m_id d medcpl_field_type medcpl_time_discr dirflag : Z)
    (pmesh : _paramedmem_mesh_t) :
  0 <= m_id -> meshes c !! Z.to_nat m_id = Some (Some pmesh) ->
  fields_wf c ->
  (dirflag <> 1 /\ dirflag <> 2) \/
  (dirflag = 1 /\ send_dec c = None) \/
  (dirflag = 2 /\ recv_dec c = None) ->
  let n_locs :=
    if medcpl_field_type =? cs_medcpl_vertex_field
    then getNumberOfNodes (med_mesh (mesh pmesh))
    else getNumberOfCells (med_mesh (mesh pmesh)) in
  exists c' e,
    cs_paramedmem_field_add c field_name m_id d medcpl_field_type
      medcpl_time_discr dirflag = Ok (c', n_fields c) /\
    n_fields c' = n_fields c + 1 /\
    fields c !! Z.to_nat (n_fields c) = None /\
    fields c' = fields c ++ [Some e] /\
    fields c' !! Z.to_nat (n_fields c) = Some (Some e) /\
    mesh_id e = m_id /\ dim e = d /\ fd_name (f e) = field_name /\
    length (fd_array (f e)) = (Z.to_nat n_locs * Z.to_nat d)%nat /\
    (0 <= n_locs -> 0 <= d -> Z.of_nat (length (fd_array (f e))) = n_locs * d) /\
    pf e = None /\
    send_dec c' = send_dec c /\ recv_dec c' = recv_dec c /\
    meshes c' = meshes c /\
    send_synced c' = send_synced c /\ recv_synced c' = recv_synced c.
Proof.
  intros Hm Hp [Hlen Hmax] Hdir n_locs.
  unfold cs_paramedmem_field_add.
  rewrite (arr_deref_Ok _ _ pmesh) by done. rsimpl.
  rewrite int_Ok by (unfold INT_MIN, INT_MAX in *; lia). rsimpl.
  rewrite field_add_type_cases.
  assert (Hbr :
    (if dirflag =? 1 then send_dec c else None) = None /\
    (if dirflag =? 2 then recv_dec c else None) = None).
  { destruct (Z.eqb_spec dirflag 1), (Z.eqb_spec dirflag 2);
      destruct Hdir as [[? ?]|[[? ?]|[? ?]]]; split; try done; lia. }
  destruct Hbr as [-> ->].
  rewrite realloc_store by done. rsimpl.
  apply lookup_lt_Some in Hp as Hlt.
  rewrite arr_set_Ok by lia.
  rsimpl. rewrite list_insert_id by done.
  eexists _, _. split; [reflexivity|]. simpl.
  assert (Hn : Z.to_nat (n_fields c) = (length (fields c) + 0)%nat) by lia.
  repeat split; try done.
  - apply lookup_ge_None. lia.
  - rewrite Hn, lookup_app_r by lia. by replace (_ + 0 - _)%nat with 0%nat by lia.
  - simpl. rewrite length_alloc. subst n_locs.
    by destruct (medcpl_field_type =? cs_medcpl_vertex_field).
  - intros Hl Hd. simpl. rewrite length_alloc. subst n_locs.
    destruct (medcpl_field_type =? cs_medcpl_vertex_field); lia.
Qed.

Lemma field_add_without_channel_witness :
  exists c' e,
    cs_paramedmem_field_add sample_with_mesh "T" 0 2 0 0 3
      = Ok (c', n_fields sample_with_mesh) /\
    n_fields c' = n_fields sample_with_mesh + 1 /\
    fields sample_with_mesh !! Z.to_nat (n_fields sample_with_mesh) = None /\
    fields c' = fields sample_with_mesh ++ [Some e] /\
    fields c' !! Z.to_nat (n_fields sample_with_mesh) = Some (Some e) /\
    mesh_id e = 0 /\ dim e = 2 /\ fd_name (f e) = "T" /\
    length (fd_array (f e)) = (Z.to_nat 2 * Z.to_nat 2)%nat /\
    (0 <= 2 -> 0 <= 2 -> Z.of_nat (length (fd_array (f e))) = 2 * 2) /\
    pf e = None /\
    send_dec c' = send_dec sample_with_mesh /\
    recv_dec c' = recv_dec sample_with_mesh /\
    meshes c' = meshes sample_with_mesh /\
    send_synced c' = send_synced sample_with_mesh /\
    recv_synced c' = recv_synced sample_with_mesh.
Proof.
  apply (field_add_without_channel sample_with_mesh "T" 0 2 0 0 3 sample_mesh).
  - lia.
  - reflexivity.
  - unfold fields_wf, INT_MAX. simpl. lia.
  - left. lia.
Defined.

(** ** A build without the coupling library *)

(** C5, on the code: without HAVE_PARAMEDMEM every public function
    raises the one unsupported-configuration error, except
    [cs_paramedmem_get_mpi_comm_world_ranks], which returns NULL and
    raises nothing.  Functions with a result return a null pointer or
    -1, but for [cs_paramedmem_mesh_get_n_elts], which returns 0. *)
Theorem stub_errors_all_but_rank_mapping :
  (forall a, a <> NoParaMEDMEM.Get_mpi_comm_world_ranks ->
             bft_errors (NoParaMEDMEM.call a) = [NoParaMEDMEM.unsupported]) /\
  NoParaMEDMEM.call NoParaMEDMEM.Get_mpi_comm_world_ranks
    = {| bft_errors := []; retval := NoParaMEDMEM.ret_ptr true |} /\
  bft_errors NoParaMEDMEM.cs_paramedmem_get_mpi_comm_world_ranks = [] /\
  retval NoParaMEDMEM.cs_paramedmem_get_mpi_comm_world_ranks = None /\
  (forall a, NoParaMEDMEM.sentinel (retval (NoParaMEDMEM.call a)) = true \/
             retval (NoParaMEDMEM.call a) = NoParaMEDMEM.ret_void \/
             exists c m, a = NoParaMEDMEM.Mesh_get_n_elts c m /\
                         retval (NoParaMEDMEM.call a) = NoParaMEDMEM.ret_int 0).
Proof.
  split; [|split; [|split; [|split]]].
  - intros a Ha. by destruct a.
  - reflexivity.
  - reflexivity.
  - reflexivity.
  - intros a. destruct a; simpl;
      try (by left); try (by right; left).
    right. right. by eexists _, _.
Qed.

(** ** Export and import of values *)

Lemma selection_entry (n : Z) (on_parent : bool) (m : cs_medcoupling_mesh_t)
    (i : Z) :
  selection_in n on_parent m -> 0 <= i < n_elts m ->
  ptr_get (index_list_of on_parent m) i
    = Ok (entry (index_list_of on_parent m) i) /\
  0 <= entry (index_list_of on_parent m) i < n.
Proof.
  intros (l & -> & Hlen & Hall) Hi.
  destruct (lookup_lt_is_Some_2 l (Z.to_nat i)) as [e He]; [lia|].
  unfold ptr_get, entry. rsimpl. simpl. rewrite He. simpl. split.
  - apply arr_get_Ok; [lia|done].
  - exact (Forall_lookup_1 _ _ _ _ Hall He).
Qed.

(** Two positions [i*d + j] with [j < d] coincide only for the same
    point and component. *)
Lemma point_component_inj (d i j i' j' : Z) :
  0 <= j < d -> 0 <= j' < d -> i * d + j = i' * d + j' -> i = i' /\ j = j'.
Proof.
  intros Hj Hj' H.
  assert (i = i') as ->.
  { destruct (Z.lt_trichotomy i i') as [Hlt|[?|Hlt]]; [|done|].
    - assert (i * d + d <= i' * d) by nia. lia.
    - assert (i' * d + d <= i * d) by nia. lia. }
  split; [done|lia].
Qed.

Section transfer.

Variable n : Z.
Variable c : cs_paramedmem_coupling_t.
Variable field_id : Z.
Variable fld : _paramedmem_field_t.
Variable pmesh : _paramedmem_mesh_t.
Variable on_parent : bool.
Variables from to : list double.

Hypothesis Hat : field_at c field_id fld pmesh.
Hypothesis Hready : transfer_ready n on_parent fld pmesh from to.

Let d := dim fld.
Let k := n_elts (mesh pmesh).

Local Abbreviation exported := (exported c field_id fld).

Lemma field_export_spec :
  exists val,
    cs_paramedmem_field_export c field_id on_parent from = Ok (exported val) /\
    length val = length (fd_array (f fld)) /\
    forall i j, 0 <= i < k -> 0 <= j < d ->
      val !! Z.to_nat (i * d + j)
      = from !! Z.to_nat (export_point on_parent (mesh pmesh) i * d + j).
Proof.
  destruct Hready as (Hd & Hk & Hnd & Hkd & Hsel & Hfrom & Hto & Hbuf).
  destruct (field_at_deref _ _ _ _ Hat) as [Hf Hm].
  destruct Hat as (Hfid & Hfl & _ & _).
  apply lookup_lt_Some in Hfl as Hlt.
  fold d in Hd, Hnd, Hkd, Hfrom, Hto, Hbuf. fold k in Hk, Hkd, Hfrom, Hbuf.
  assert (Hstore : forall val,
    (fs ← arr_set (fields c) field_id
            (Some (set_f fld (set_array_as_new (f fld) val)));
     Ok (set_fields c (n_fields c) fs)) = Ok (exported val)).
  { intros val. by rewrite arr_set_Ok by lia. }
  unfold cs_paramedmem_field_export. rewrite Hf. rsimpl. rewrite Hm. rsimpl.
  fold d k. destruct on_parent; simpl negb; cbv iota.
  - (* gathered through elt_list *)
    destruct (copy_loops_spec from (fd_array (f fld))
      (fun i j => e ← ptr_get (elt_list (mesh pmesh)) i; idx e d j)
      (fun i j => idx i d j)
      (fun i j => entry (elt_list (mesh pmesh)) i * d + j)
      (fun i j => i * d + j) k d) as (val & Hl & Hlen & Hc); try lia.
    + intros i j Hi Hj.
      destruct (selection_entry n true (mesh pmesh) i Hsel Hi) as [Hg He].
      simpl in Hg, He. rewrite Hg. rsimpl.
      rewrite idx_Ok by nia. split; [done|nia].
    + intros i j Hi Hj. rewrite idx_Ok by nia. split; [done|nia].
    + exists val. rewrite Hl. rsimpl. split; [apply Hstore|]. split; [done|].
      intros i j Hi Hj.
      destruct (Hc (Z.to_nat (i * d + j))) as [[_ Hn]|(i' & j' & [Hi' Hj'] & Hw & He)].
      * by destruct (Hn i j).
      * assert (i' = i /\ j' = j) as [-> ->]
          by (apply (point_component_inj d); [done|done|nia]).
        exact He.
  - (* contiguous block *)
    rewrite int_Ok by (unfold INT_MIN, INT_MAX in *; nia). rsimpl.
    destruct (copy_loop_spec from (fd_array (f fld))
      (fun i _ => Ok i) (fun i _ => Ok i) (fun i _ => i) (fun i _ => i)
      (d * k) 1) as (val & Hl & Hlen & Hc); try lia.
    + intros i j Hi Hj. split; [done|nia].
    + intros i j Hi Hj. split; [done|nia].
    + exists val. cbv beta in Hl. rewrite Hl. rsimpl.
      split; [apply Hstore|]. split; [done|].
      intros i j Hi Hj. unfold export_point.
      destruct (Hc (Z.to_nat (i * d + j))) as [[_ Hn]|(i' & j' & [Hi' Hj'] & Hw & He)].
      * destruct (Hn (i * d + j) 0); [split; [nia|done]|done].
      * by replace i' with (i * d + j) in He by nia.
Qed.

Lemma field_import_spec :
  exists to',
    cs_paramedmem_field_import c field_id on_parent to = Ok to' /\
    length to' = length to /\
    forall p : nat,
      (to' !! p = to !! p /\
       forall i j, 0 <= i < k -> 0 <= j < d ->
         Z.to_nat (import_point on_parent (mesh pmesh) i * d + j) <> p) \/
      (exists i j, (0 <= i < k /\ 0 <= j < d) /\
         Z.to_nat (import_point on_parent (mesh pmesh) i * d + j) = p /\
         to' !! p = fd_array (f fld) !! Z.to_nat (i * d + j)).
Proof.
  destruct Hready as (Hd & Hk & Hnd & Hkd & Hsel & Hfrom & Hto & Hbuf).
  destruct (field_at_deref _ _ _ _ Hat) as [Hf Hm].
  fold d in Hd, Hnd, Hkd, Hfrom, Hto, Hbuf. fold k in Hk, Hkd, Hfrom, Hbuf.
  unfold cs_paramedmem_field_import. rewrite Hf. rsimpl. rewrite Hm. rsimpl.
  fold d k.
  assert (Hrd : forall i j, 0 <= i < k -> 0 <= j < d ->
    idx i d j = Ok (i * d + j) /\
    0 <= i * d + j < Z.of_nat (length (fd_array (f fld)))).
  { intros i j Hi Hj. rewrite idx_Ok by nia. split; [done|nia]. }
  destruct on_parent; simpl negb; cbv iota.
  - destruct (copy_loops_spec (fd_array (f fld)) to
      (fun i j => idx i d j)
      (fun i j => e ← ptr_get (elt_list (mesh pmesh)) i; idx e d j)
      (fun i j => i * d + j)
      (fun i j => import_point true (mesh pmesh) i * d + j) k d)
      as (to' & Hl & Hlen & Hc); try lia; try exact Hrd.
    + intros i j Hi Hj.
      destruct (selection_entry n true (mesh pmesh) i Hsel Hi) as [Hg He].
      simpl in Hg, He. rewrite Hg. rsimpl. unfold import_point.
      rewrite idx_Ok by nia. split; [done|nia].
    + exists to'. split; [exact Hl|]. split; [done|]. intros p.
      destruct (Hc p) as [[He Hn]|(i & j & Hij & Hw & He)].
      * left. split; [done|]. intros i j Hi Hj. by apply Hn.
      * right. by exists i, j.
  - destruct (copy_loops_spec (fd_array (f fld)) to
      (fun i j => idx i d j)
      (fun i j => c_id ← ptr_get (new_to_old (mesh pmesh)) i; idx d c_id j)
      (fun i j => i * d + j)
      (fun i j => import_point false (mesh pmesh) i * d + j) k d)
      as (to' & Hl & Hlen & Hc); try lia; try exact Hrd.
    + intros i j Hi Hj.
      destruct (selection_entry n false (mesh pmesh) i Hsel Hi) as [Hg He].
      simpl in Hg, He. rewrite Hg. rsimpl. unfold import_point.
      rewrite idx_Ok by nia. rewrite (Z.mul_comm d). split; [done|nia].
    + exists to'. split; [exact Hl|]. split; [done|]. intros p.
      destruct (Hc p) as [[He Hn]|(i & j & Hij & Hw & He)].
      * left. split; [done|]. intros i j Hi Hj. by apply Hn.
      * right. by exists i, j.
Qed.

End transfer.

(** An export followed by an import of the same field with the same
    flag: every position of the destination either keeps its value and
    is the target of no point, or holds what the export read for some
    point aimed at it. *)
Lemma export_import_run (n : Z) (c : cs_paramedmem_coupling_t) (field_id : Z)
    (fld : _paramedmem_field_t) (pmesh : _paramedmem_mesh_t)
    (on_parent : bool) (src dst : list double) :
  field_at c field_id fld pmesh ->
  transfer_ready n on_parent fld pmesh src dst ->
  exists c' dst',
    cs_paramedmem_field_export c field_id on_parent src = Ok c' /\
    cs_paramedmem_field_import c' field_id on_parent dst = Ok dst' /\
    length dst' = length dst /\
    forall p : nat,
      (dst' !! p = dst !! p /\
       forall i j, 0 <= i < n_elts (mesh pmesh) -> 0 <= j < dim fld ->
         Z.to_nat (import_point on_parent (mesh pmesh) i * dim fld + j) <> p) \/
      (exists i j, (0 <= i < n_elts (mesh pmesh) /\ 0 <= j < dim fld) /\
         Z.to_nat (import_point on_parent (mesh pmesh) i * dim fld + j) = p /\
         dst' !! p
         = src !! Z.to_nat (export_point on_parent (mesh pmesh) i * dim fld + j)).
Proof.
  intros Hat Hready.
  destruct (field_export_spec n c field_id fld pmesh on_parent src dst Hat Hready)
    as (val & Hexp & Hlen & Hval).
  set (fld' := set_f fld (set_array_as_new (f fld) val)).
  assert (Hat' : field_at (exported c field_id fld val) field_id fld' pmesh).
  { destruct Hat as (Hi & Hf & Hm & Hp). apply lookup_lt_Some in Hf as Hlt.
    split; [done|]. split; [|by split].
    simpl. by rewrite list_lookup_insert_eq. }
  assert (Hready' : transfer_ready n on_parent fld' pmesh src dst).
  { unfold transfer_ready in *. simpl. by rewrite Hlen. }
  destruct (field_import_spec n _ field_id fld' pmesh on_parent src dst Hat' Hready')
    as (dst' & Himp & Hlen' & Hdst).
  exists (exported c field_id fld val), dst'.
  split; [done|]. split; [done|]. split; [done|]. intros p.
  destruct (Hdst p) as [[He Hn]|(i & j & [Hi Hj] & Hw & He)].
  - left. by split.
  - right. exists i, j. split; [done|]. split; [done|].
    rewrite He. simpl. by apply Hval.
Qed.

Lemma covered_position (n : Z) (on_parent : bool) (fld : _paramedmem_field_t)
    (pmesh : _paramedmem_mesh_t) (src dst : list double) (i j : Z) :
  transfer_ready n on_parent fld pmesh src dst ->
  0 <= i < n_elts (mesh pmesh) -> 0 <= j < dim fld ->
  0 <= import_point on_parent (mesh pmesh) i < n /\
  0 <= import_point on_parent (mesh pmesh) i * dim fld + j < n * dim fld.
Proof.
  intros (Hd & Hk & Hnd & Hkd & Hsel & Hfrom & Hto & Hbuf) Hi Hj.
  destruct (selection_entry n on_parent (mesh pmesh) i Hsel Hi) as [_ He].
  assert (import_point on_parent (mesh pmesh) i
          = entry (index_list_of on_parent (mesh pmesh)) i) as ->
    by by destruct on_parent.
  split; [done|nia].
Qed.

(** C7: an export followed at once by an import of the same field with
    the same [on_parent] flag runs to the end and returns, at every
    position covered by the mapping, the value the caller's source
    array held there, provided the index mapping of the flag is its own
    round-trip inverse ([elt_list] against itself for [on_parent];
    the identity of the contiguous copy against [new_to_old]
    otherwise). *)
Theorem export_import_roundtrip (n : Z) (c : cs_paramedmem_coupling_t)
    (field_id : Z) (fld : _paramedmem_field_t) (pmesh : _paramedmem_mesh_t)
    (on_parent : bool) (src dst : list double) :
  field_at c field_id fld pmesh ->
  transfer_ready n on_parent fld pmesh src dst ->
  roundtrip_inverse on_parent (mesh pmesh) ->
  exists c' dst',
    cs_paramedmem_field_export c field_id on_parent src = Ok c' /\
    cs_paramedmem_field_import c' field_id on_parent dst = Ok dst' /\
    length dst' = length dst /\
    forall p, covered on_parent pmesh (dim fld) p ->
      exists x, src !! Z.to_nat p = Some x /\ dst' !! Z.to_nat p = Some x.
Proof.
  intros Hat Hready Hinv.
  destruct (export_import_run n c field_id fld pmesh on_parent src dst Hat Hready)
    as (c' & dst' & Hexp & Himp & Hlen & Hdst).
  exists c', dst'. split; [done|]. split; [done|]. split; [done|].
  intros p (i & j & Hi & Hj & ->).
  assert (Hsrc : forall i' j', 0 <= i' < n_elts (mesh pmesh) -> 0 <= j' < dim fld ->
    is_Some (src !! Z.to_nat (import_point on_parent (mesh pmesh) i' * dim fld + j'))).
  { intros i' j' Hi' Hj'. apply lookup_lt_is_Some_2.
    destruct (covered_position n on_parent fld pmesh src dst i' j' Hready Hi' Hj')
      as [Hp Hpos].
    destruct Hready as (Hd & Hk & Hnd & Hkd & Hsel & Hfrom & Hto & Hbuf).
    destruct on_parent; [lia|].
    rewrite (Hinv i' Hi') in *. unfold export_point in *. nia. }
  destruct (Hdst (Z.to_nat (import_point on_parent (mesh pmesh) i * dim fld + j)))
    as [[_ Hn]|(i' & j' & [Hi' Hj'] & Hw & He)].
  - by destruct (Hn i j).
  - rewrite <- (Hinv i' Hi'), Hw in He.
    destruct (Hsrc i j Hi Hj) as [x Hx]. exists x. split; [done|].
    by rewrite He.
Qed.

Lemma unselected_count (n : Z) (l : list Z) :
  NoDup l -> Forall (fun e => 0 <= e < n) l ->
  (length l + length (filter (fun e => e ∉ l) (seqZ 0 n)) = Z.to_nat n)%nat.
Proof.
  intros Hnd Hall.
  assert (Hperm : filter (fun e => e ∈ l) (seqZ 0 n) ≡ₚ l).
  { apply NoDup_Permutation; [apply NoDup_filter, NoDup_seqZ|done|].
    intros x. rewrite list_elem_of_filter, elem_of_seqZ.
    rewrite Forall_forall in Hall. split; [by intros [? _]|].
    intros Hx. split; [done|]. specialize (Hall x Hx). lia. }
  pose proof (filter_app_complement (fun e => e ∈ l) (seqZ 0 n)) as Hsplit.
  apply Permutation_length in Hsplit.
  rewrite length_app, length_seqZ in Hsplit.
  apply Permutation_length in Hperm. lia.
Qed.

(** C8: with [on_parent] set, an export followed by an import runs to
    the end and writes the destination only at the positions addressed
    through [elt_list]: every other position, in particular the [dim]
    entries of every original index that is not selected, keeps its
    value.  When the selection of size k lists distinct indices of a
    parent mesh of size n, k <= n and exactly n - k original indices
    are unselected. *)
Theorem export_import_frame (n : Z) (c : cs_paramedmem_coupling_t)
    (field_id : Z) (fld : _paramedmem_field_t) (pmesh : _paramedmem_mesh_t)
    (src dst : list double) (l : list Z) :
  field_at c field_id fld pmesh ->
  transfer_ready n true fld pmesh src dst ->
  elt_list (mesh pmesh) = Some l ->
  exists c' dst',
    cs_paramedmem_field_export c field_id true src = Ok c' /\
    cs_paramedmem_field_import c' field_id true dst = Ok dst' /\
    length dst' = length dst /\
    (forall p, 0 <= p -> ~ covered true pmesh (dim fld) p ->
       dst' !! Z.to_nat p = dst !! Z.to_nat p) /\
    (forall e j, 0 <= e < n -> e ∉ l -> 0 <= j < dim fld ->
       dst' !! Z.to_nat (e * dim fld + j) = dst !! Z.to_nat (e * dim fld + j)) /\
    (NoDup l ->
       n_elts (mesh pmesh) <= n /\
       Z.of_nat (length (filter (fun e => e ∉ l) (seqZ 0 n)))
       = n - n_elts (mesh pmesh)).
Proof.
  intros Hat Hready Hl.
  destruct (export_import_run n c field_id fld pmesh true src dst Hat Hready)
    as (c' & dst' & Hexp & Himp & Hlen & Hdst).
  assert (Hframe : forall p, 0 <= p -> ~ covered true pmesh (dim fld) p ->
    dst' !! Z.to_nat p = dst !! Z.to_nat p).
  { intros p Hp Hnc.
    destruct (Hdst (Z.to_nat p)) as [[He _]|(i & j & [Hi Hj] & Hw & _)]; [done|].
    destruct Hnc. exists i, j. split; [done|]. split; [done|].
    destruct (covered_position n true fld pmesh src dst i j Hready Hi Hj). lia. }
  exists c', dst'. split; [done|]. split; [done|]. split; [done|].
  split; [exact Hframe|]. split.
  - intros e j He Hnin Hj. apply Hframe; [nia|].
    intros (i & j' & Hi & Hj' & Heq).
    apply point_component_inj in Heq as [-> _]; [|done|done].
    apply Hnin. unfold import_point, entry. rewrite Hl. simpl.
    destruct Hready as (_ & _ & _ & _ & (l' & Hl' & Hlen' & _) & _).
    simpl in Hl'. rewrite Hl in Hl'. injection Hl' as <-.
    destruct (lookup_lt_is_Some_2 l (Z.to_nat i)) as [x Hx]; [lia|].
    rewrite Hx. simpl. by eapply list_elem_of_lookup_2.
  - intros Hnd.
    destruct Hready as (_ & [_ Hn] & _ & _ & (l' & Hl' & Hlen' & Hall) & _).
    simpl in Hl'. rewrite Hl in Hl'. injection Hl' as <-.
    pose proof (unselected_count n l Hnd Hall) as Hcount. lia.
Qed.

Lemma export_import_roundtrip_witness :
  exists c' dst',
    cs_paramedmem_field_export sample_with_field 0 false sample_values = Ok c' /\
    cs_paramedmem_field_import c' 0 false sample_target = Ok dst' /\
    length dst' = length sample_target /\
    forall p, covered false sample_mesh (dim sample_field) p ->
      exists x, sample_values !! Z.to_nat p = Some x /\
                dst' !! Z.to_nat p = Some x.
Proof.
  apply (export_import_roundtrip 3 sample_with_field 0 sample_field sample_mesh
           false sample_values sample_target).
  - unfold field_at. simpl.
    split; [lia|split; [reflexivity|split; [lia|reflexivity]]].
  - unfold transfer_ready, selection_in, INT_MAX. simpl.
    split; [lia|]. split; [lia|]. split; [lia|]. split; [lia|].
    split; [|lia].
    exists [0; 1]. split; [reflexivity|]. split; [reflexivity|].
    repeat constructor; lia.
  - intros i Hi. simpl in Hi.
    assert (i = 0 \/ i = 1) as [-> | ->] by lia; reflexivity.
Defined.

Lemma export_import_frame_witness :
  exists c' dst',
    cs_paramedmem_field_export sample_with_field 0 true sample_values = Ok c' /\
    cs_paramedmem_field_import c' 0 true sample_target = Ok dst' /\
    length dst' = length sample_target /\
    (forall p, 0 <= p -> ~ covered true sample_mesh (dim sample_field) p ->
       dst' !! Z.to_nat p = sample_target !! Z.to_nat p) /\
    (forall e j, 0 <= e < 3 -> e ∉ [2; 0] -> 0 <= j < dim sample_field ->
       dst' !! Z.to_nat (e * dim sample_field + j)
       = sample_target !! Z.to_nat (e * dim sample_field + j)) /\
    (NoDup [2; 0] ->
       n_elts (mesh sample_mesh) <= 3 /\
       Z.of_nat (length (filter (fun e => e ∉ [2; 0]) (seqZ 0 3)))
       = 3 - n_elts (mesh sample_mesh)).
Proof.
  apply (export_import_frame 3 sample_with_field 0 sample_field sample_mesh
           sample_values sample_target [2; 0]).
  - unfold field_at. simpl.
    split; [lia|split; [reflexivity|split; [lia|reflexivity]]].
  - unfold transfer_ready, selection_in, INT_MAX. simpl.
    split; [lia|]. split; [lia|]. split; [lia|]. split; [lia|].
    split; [|lia].
    exists [2; 0]. split; [reflexivity|]. split; [reflexivity|].
    repeat constructor; lia.
  - reflexivity.
Defined.

(** The two round trips on the sample data: the compact one returns the
    first two points, the one on the parent mesh returns points 2 and 0
    and leaves point 1 alone. *)
Example export_import_compact_sample :
  exists c',
    cs_paramedmem_field_export sample_with_field 0 false sample_values = Ok c' /\
    cs_paramedmem_field_import c' 0 false sample_target
      = Ok [1.5; 2.5; 3.5; 4.5; 50; 60]%float.
Proof. eexists. split; reflexivity. Qed.

Example export_import_parent_sample :
  exists c',
    cs_paramedmem_field_export sample_with_field 0 true sample_values = Ok c' /\
    cs_paramedmem_field_import c' 0 true sample_target
      = Ok [1.5; 2.5; 30; 40; 5.5; 6.5]%float.
Proof. eexists. split; reflexivity. Qed.

(** A field added for sending on the sample mesh: the parallel mesh of
    slot 0 is made on the source group of the send channel, a ParaFIELD
    is made and attached to the send channel. *)
Example field_add_send_sample :
  exists c' e pm,
    cs_paramedmem_field_add sample_with_mesh "T" 0 2 0 0 1 = Ok (c', 0) /\
    fields c' = [Some e] /\ meshes c' = [Some pm] /\
    pf e = Some {| pf_type := ON_CELLS; pf_td := NO_TIME; pf_slot := 0;
                   pf_n_comp := 2 |} /\
    para_mesh0 pm = Some {| pm_group := {[ 0 ]}; pm_name := "source mesh" |} /\
    para_mesh1 pm = None /\
    (dec_calls <$> send_dec c') = Some [AttachLocalField 0] /\
    (dec_calls <$> recv_dec c') = Some [].
Proof.
  eexists _, _, _. split; [reflexivity|]. split; [reflexivity|].
  split; [reflexivity|]. split; [reflexivity|]. split; [reflexivity|].
  by repeat split.
Qed.

(** * Further properties of the coupling layer *)

(** ** Receiving *)

(** [cs_paramedmem_recv_data] does not look at the synchronization
    flag either: on every session whose receive channel exists it calls
    [recvData()] on that channel once; the send channel, both flags,
    the meshes and the fields are left as they are. *)
Theorem recv_data_only_receives (c : cs_paramedmem_coupling_t)
    (d : InterpKernelDEC) :
  recv_dec c = Some d ->
  exists c' d',
    cs_paramedmem_recv_data c = Ok c' /\
    recv_dec c' = Some d' /\
    dec_calls d' = dec_calls d ++ [RecvData] /\
    source_grp d' = source_grp d /\ target_grp d' = target_grp d /\
    send_dec c' = send_dec c /\
    send_synced c' = send_synced c /\ recv_synced c' = recv_synced c /\
    meshes c' = meshes c /\ fields c' = fields c /\
    n_meshes c' = n_meshes c /\ n_fields c' = n_fields c.
Proof.
  intros Hd. unfold cs_paramedmem_recv_data. rewrite Hd. rsimpl.
  eexists _, _. split; [reflexivity|]. simpl. by repeat split.
Qed.

Lemma recv_data_only_receives_witness :
  exists c' d',
    cs_paramedmem_recv_data sample_session = Ok c' /\
    recv_dec c' = Some d' /\
    dec_calls d' = dec_calls sample_recv_dec ++ [RecvData] /\
    source_grp d' = source_grp sample_recv_dec /\
    target_grp d' = target_grp sample_recv_dec /\
    send_dec c' = send_dec sample_session /\
    send_synced c' = send_synced sample_session /\
    recv_synced c' = recv_synced sample_session /\
    meshes c' = meshes sample_session /\ fields c' = fields sample_session /\
    n_meshes c' = n_meshes sample_session /\
    n_fields c' = n_fields sample_session.
Proof.
  apply (recv_data_only_receives sample_session sample_recv_dec).
  reflexivity.
Defined.

(** ** Loops that only read *)


(** It stops with the failure of the first turn that fails. *)
Lemma for_loop_reads_Fail (g : Z -> result unit) (n : nat) (lo i0 : Z)
    (e : failure) :
  lo <= i0 < lo + Z.of_nat n ->
  g i0 = Fail e ->
  (forall i, lo <= i < i0 -> g i = Ok tt) ->
  for_loop n lo (fun i _ => g i) tt = Fail e.
Proof.
  revert lo. induction n as [|n IH]; intros lo Hi He Hg; [lia|].
  simpl. destruct (decide (i0 = lo)) as [->|Hne].
  - by rewrite He.
  - rewrite Hg by lia. rsimpl. apply IH; [lia|done|].
    intros i Hi'. apply Hg. lia.
Qed.

(** ** Release of a session *)

Lemma Forall_lookup_Z {A} (P : A -> Prop) (l : list A) (i : Z) :
  Forall P l -> 0 <= i < Z.of_nat (length l) ->
  exists x, l !! Z.to_nat i = Some x /\ P x.
Proof.
  intros Hall Hi.
  destruct (lookup_lt_is_Some_2 l (Z.to_nat i)) as [x Hx]; [lia|].
  exists x. split; [done|]. exact (Forall_lookup_1 _ _ _ _ Hall Hx).
Qed.






(** X3: [cs_paramedmem_destroy] reads the [pf] member of every field.
    A field registered without a channel never had it assigned: the
    release of a session holding such a field, after fields that all
    carry one, reads a pointer that was never set. *)
Theorem destroy_reads_unassigned_pf (c : cs_paramedmem_coupling_t)
    (i0 : Z) (e0 : _paramedmem_field_t) :
  0 <= i0 < n_fields c ->
  fields c !! Z.to_nat i0 = Some (Some e0) -> pf e0 = None ->
  (forall i, 0 <= i < i0 ->
     exists e q, fields c !! Z.to_nat i = Some (Some e) /\ pf e = Some q) ->
  cs_paramedmem_destroy (Some c) = Fail NullDeref.
Proof.
  intros Hi He Hpf Hbefore.
  unfold cs_paramedmem_destroy, for_range.
  rewrite (for_loop_reads_Fail
    (fun i => e ← arr_deref (fields c) i; _ ← deref (pf e); Ok tt)
    _ 0 i0 NullDeref); [done|lia| |].
  - rewrite (arr_deref_Ok _ _ e0) by (lia || done). rsimpl. by rewrite Hpf.
  - intros i Hi'. destruct (Hbefore i Hi') as (e & q & Hl & Hq).
    rewrite (arr_deref_Ok _ _ e) by (lia || done). rsimpl. by rewrite Hq.
Qed.

Lemma destroy_reads_unassigned_pf_witness :
  cs_paramedmem_destroy (Some sample_with_field) = Fail NullDeref.
Proof.
  apply (destroy_reads_unassigned_pf sample_with_field 0 sample_field).
  - simpl. lia.
  - reflexivity.
  - reflexivity.
  - intros i Hi. lia.
Defined.

(** ** The registry of couplings *)

Lemma add_interpkernel_registry (my_rank : Z) (g : globals) (nm : string)
    (grp1 grp2 : list Z) :
  globals_wf g ->
  exists c,
    _add_paramedmem_interpkernel my_rank g nm grp1 grp2
    = Ok {| _n_paramed_couplers := _n_paramed_couplers g + 1;
            _paramed_couplers :=
              Some (default [] (_paramed_couplers g) ++ [Some c]) |} /\
    Z.of_nat (length (default [] (_paramed_couplers g))) = _n_paramed_couplers g.
Proof.
  intros [Hn Ha].
  assert (Hint : int (_n_paramed_couplers g + 1) = Ok (_n_paramed_couplers g + 1))
    by (apply int_Ok; unfold INT_MIN, INT_MAX in *; lia).
  unfold _add_paramedmem_interpkernel.
  destruct (_paramed_couplers g) as [a|]; rsimpl.
  - rewrite Hint. rsimpl. rewrite realloc_store by done. rsimpl.
    eexists. split; [reflexivity|done].
  - rewrite Ha. rewrite (realloc_store [] 0) by done. rsimpl.
    eexists. split; [reflexivity|done].
Qed.

(** X4: the registry only grows.  A creation stores the new coupling
    under the next id and keeps every coupling registered before under
    its id; ids outside the registry are not checked by
    [cs_paramedmem_coupling_by_id], which then reads out of bounds. *)
Theorem create_keeps_registry (my_rank : Z) (g : globals) (nm : string)
    (grp1 grp2 : list Z) :
  globals_wf g ->
  exists g' c,
    cs_paramedmem_interpkernel_create my_rank g nm grp1 grp2 = Ok (g', Some c) /\
    _n_paramed_couplers g' = _n_paramed_couplers g + 1 /\
    cs_paramedmem_coupling_by_id g' (_n_paramed_couplers g) = Ok (Some c) /\
    (forall i, 0 <= i < _n_paramed_couplers g ->
       cs_paramedmem_coupling_by_id g' i = cs_paramedmem_coupling_by_id g i) /\
    (forall i, i < 0 \/ _n_paramed_couplers g' <= i ->
       cs_paramedmem_coupling_by_id g' i = Fail OutOfBounds) /\
    (_n_paramed_couplers g' < INT_MAX -> globals_wf g').
Proof.
  intros Hg.
  destruct (add_interpkernel_registry my_rank g nm grp1 grp2 Hg) as (c & Hadd & Hlen).
  destruct Hg as [Hn Ha].
  set (a := default [] (_paramed_couplers g)) in *.
  assert (Hlast : (a ++ [Some c]) !! Z.to_nat (_n_paramed_couplers g)
                  = Some (Some c)).
  { replace (Z.to_nat (_n_paramed_couplers g)) with (length a + 0)%nat by lia.
    by rewrite lookup_app_r, Nat.add_comm, Nat.add_sub by lia. }
  eexists _, c. unfold cs_paramedmem_interpkernel_create. rewrite Hadd. rsimpl.
  replace (_n_paramed_couplers g + 1 - 1) with (_n_paramed_couplers g) by lia.
  rewrite int_Ok by (unfold INT_MIN, INT_MAX in *; lia). rsimpl.
  rewrite (arr_get_Ok _ _ (Some c)) by (lia || done). rsimpl.
  split; [reflexivity|]. split; [done|].
  unfold cs_paramedmem_coupling_by_id. rsimpl.
  split; [by rewrite (arr_get_Ok _ _ (Some c)) by (lia || done)|].
  split; [|split].
  - intros i Hi. destruct (_paramed_couplers g) as [a0|] eqn:E; [|lia].
    rsimpl. subst a. simpl. unfold arr_get.
    destruct (i <? 0); [done|]. by rewrite lookup_app_l by lia.
  - intros i Hi. unfold arr_get. destruct (Z.ltb_spec i 0); [done|].
    rewrite lookup_ge_None_2; [done|]. rewrite length_app. simpl. lia.
  - intros Hmax. split; [simpl; lia|]. simpl. rewrite length_app. simpl. lia.
Qed.

Lemma create_keeps_registry_witness :
  exists g' c,
    cs_paramedmem_interpkernel_create 0 globals_init "cpl" [0] [1]
      = Ok (g', Some c) /\
    _n_paramed_couplers g' = _n_paramed_couplers globals_init + 1 /\
    cs_paramedmem_coupling_by_id g' (_n_paramed_couplers globals_init)
      = Ok (Some c) /\
    (forall i, 0 <= i < _n_paramed_couplers globals_init ->
       cs_paramedmem_coupling_by_id g' i
       = cs_paramedmem_coupling_by_id globals_init i) /\
    (forall i, i < 0 \/ _n_paramed_couplers g' <= i ->
       cs_paramedmem_coupling_by_id g' i = Fail OutOfBounds) /\
    (_n_paramed_couplers g' < INT_MAX -> globals_wf g').
Proof.
  apply (create_keeps_registry 0 globals_init "cpl" [0] [1]).
  unfold globals_wf, globals_init, INT_MAX. simpl. lia.
Defined.

(** ** Lookups by name *)


Lemma field_get_id_loop_find (n : nat) (fs : list (option _paramedmem_field_t))
    (i m_id : Z) (nm : string) :
  field_get_id_loop n fs i m_id nm
  = find_loop (fun e => (mesh_id e =? m_id) && String.eqb nm (fd_name (f e)))
      n fs i.
Proof.
  revert i. induction n as [|n IH]; intros i; [done|].
  simpl. destruct (arr_deref fs i); [|done]. rsimpl. by rewrite IH.
Qed.

(** The loop returns the first entry that passes the test, or -1 when
    none does. *)
Lemma find_loop_first {A} (test : A -> bool) (l : list (option A)) (n : nat)
    (i : Z) :
  Forall (fun p => is_Some p) l ->
  0 <= i -> i + Z.of_nat n <= Z.of_nat (length l) ->
  exists r,
    find_loop test n l i = Ok r /\
    ((r = -1 /\
      forall j x, i <= j < i + Z.of_nat n ->
                  l !! Z.to_nat j = Some (Some x) -> test x = false) \/
     (i <= r < i + Z.of_nat n /\
      (exists x, l !! Z.to_nat r = Some (Some x) /\ test x = true) /\
      forall j x, i <= j < r ->
                  l !! Z.to_nat j = Some (Some x) -> test x = false)).
Proof.
  intros Hall. revert i. induction n as [|n IH]; intros i Hi Hlen.
  - exists (-1). split; [done|]. left. split; [done|]. intros j x Hj. lia.
  - destruct (Forall_lookup_Z _ l i Hall) as (p & Hp & x & ->); [lia|].
    simpl. rewrite (arr_deref_Ok _ _ x) by (lia || done). rsimpl.
    destruct (test x) eqn:Ht.
    + exists i. split; [done|]. right. split; [lia|]. split; [by exists x|].
      intros j y Hj. lia.
    + destruct (IH (i + 1)) as (r & Hr & Hcase); [lia|lia|].
      exists r. split; [done|].
      destruct Hcase as [[-> Hnone]|(Hrange & Hx & Hbefore)].
      * left. split; [done|]. intros j y Hj Hy.
        destruct (decide (j = i)) as [->|]; [congruence|]. apply (Hnone j); [lia|done].
      * right. split; [lia|]. split; [done|]. intros j y Hj Hy.
        destruct (decide (j = i)) as [->|]; [congruence|].
        apply (Hbefore j); [lia|done].
Qed.

Lemma find_loop_S {A} (test : A -> bool) (n : nat) (l : list (option A))
    (i : Z) :
  find_loop test (Datatypes.S n) l i
  = (x ← arr_deref l i; if test x then Ok i else find_loop test n l (i + 1)).
Proof. reflexivity. Qed.

(** One more entry at the end is found only when nothing was found
    before. *)
Lemma find_loop_app {A} (test : A -> bool) (l : list (option A)) (x : A)
    (n : nat) (i : Z) :
  Forall (fun p => is_Some p) l ->
  0 <= i -> i + Z.of_nat n = Z.of_nat (length l) ->
  find_loop test (Datatypes.S n) (l ++ [Some x]) i
  = match find_loop test n l i with
    | Ok r => if r =? -1
              then (if test x then Ok (Z.of_nat (length l)) else Ok (-1))
              else Ok r
    | Fail e => Fail e
    end.
Proof.
  intros Hall. revert i. induction n as [|n IH]; intros i Hi Hlen.
  - simpl. rewrite (arr_deref_Ok _ _ x); [|lia|].
    + rsimpl. replace i with (Z.of_nat (length l)) by lia. by destruct (test x).
    + replace (Z.to_nat i) with (length l + 0)%nat by lia.
      by rewrite lookup_app_r, Nat.add_comm, Nat.add_sub by lia.
  - destruct (Forall_lookup_Z _ l i Hall) as (p & Hp & y & ->); [lia|].
    assert (Hlt : (Z.to_nat i < length l)%nat) by lia.
    rewrite (find_loop_S test (Datatypes.S n)), (find_loop_S test n l).
    rewrite (arr_deref_Ok (l ++ [Some x]) _ y); [|lia|by rewrite lookup_app_l].
    rewrite (arr_deref_Ok l _ y) by (lia || done). rsimpl.
    destruct (test y).
    + destruct (Z.eqb_spec i (-1)); [lia|done].
    + apply IH; lia.
Qed.




Lemma define_mesh_result (c : cs_paramedmem_coupling_t)
    (nm select_criteria : string) (e_dim : Z) (is_source is_dest : bool) :
  meshes_wf c ->
  exists pm,
    cs_paramedmem_define_mesh c nm select_criteria e_dim is_source is_dest
      = Ok (set_meshes c (n_meshes c + 1) (meshes c ++ [Some pm]), n_meshes c) /\
    um_name (med_mesh (mesh pm)) = nm /\
    n_elts (mesh pm) = 0 /\ elt_list (mesh pm) = None /\
    new_to_old (mesh pm) = None /\
    para_mesh0 pm = None /\ para_mesh1 pm = None.
Proof.
  intros [Hlen Hmax]. unfold cs_paramedmem_define_mesh.
  destruct is_source, is_dest; rsimpl;
    repeat (rewrite int_Ok by (unfold INT_MIN, INT_MAX in *; lia); rsimpl);
    rewrite realloc_store by done; rsimpl;
    eexists; (split; [reflexivity|]); simpl; by repeat split.
Qed.



(** X7: the two element queries test only for a negative mesh id, for
    which they return 0 and NULL; for a registered id they return the
    element count and the element list of that mesh; an id past the end
    of the mesh array is read out of bounds. *)
Theorem mesh_queries_guard_negative_only (c : cs_paramedmem_coupling_t) :
  (forall id, id < 0 ->
     cs_paramedmem_mesh_get_n_elts c id = Ok 0 /\
     cs_paramedmem_mesh_get_elt_list c id = Ok None) /\
  (forall id m, 0 <= id -> meshes c !! Z.to_nat id = Some (Some m) ->
     cs_paramedmem_mesh_get_n_elts c id = Ok (n_elts (mesh m)) /\
     cs_paramedmem_mesh_get_elt_list c id = Ok (elt_list (mesh m))) /\
  (forall id, Z.of_nat (length (meshes c)) <= id ->
     cs_paramedmem_mesh_get_n_elts c id = Fail OutOfBounds /\
     cs_paramedmem_mesh_get_elt_list c id = Fail OutOfBounds).
Proof.
  unfold cs_paramedmem_mesh_get_n_elts, cs_paramedmem_mesh_get_elt_list.
  split; [|split].
  - intros id Hid. by destruct (Z.leb_spec 0 id); [lia|].
  - intros id m Hid Hm. destruct (Z.leb_spec 0 id); [|lia].
    by rewrite (arr_deref_Ok _ _ m).
  - intros id Hid. destruct (Z.leb_spec 0 id); [|lia].
    unfold arr_deref, arr_get. destruct (Z.ltb_spec id 0); [lia|].
    by rewrite lookup_ge_None_2 by lia.
Qed.

(** ** Registration of a field, in every branch *)

(** The result of [cs_paramedmem_field_add] on a registered mesh. *)
Lemma field_add_spec (c : cs_paramedmem_coupling_t) (field_name : string)
    (m_id d medcpl_field_type medcpl_time_discr dirflag : Z)
    (pmesh : _paramedmem_mesh_t) :
  0 <= m_id -> meshes c !! Z.to_nat m_id = Some (Some pmesh) ->
  fields_wf c ->
  exists c' e pmesh',
    cs_paramedmem_field_add c field_name m_id d medcpl_field_type
      medcpl_time_discr dirflag = Ok (c', n_fields c) /\
    n_fields c' = n_fields c + 1 /\ n_meshes c' = n_meshes c /\
    fields c' = fields c ++ [Some e] /\
    meshes c' = <[Z.to_nat m_id := Some pmesh']> (meshes c) /\
    mesh_id e = m_id /\ dim e = d /\ fd_name (f e) = field_name /\
    send_synced c' = send_synced c /\ recv_synced c' = recv_synced c /\
    mesh pmesh' = mesh pmesh /\ direction pmesh' = direction pmesh /\
    match (if dirflag =? 1 then send_dec c else None) with
    | Some sd =>
        (exists p, pf e = Some p /\ pf_slot p = 0%nat /\ pf_n_comp p = d) /\
        send_dec c' = Some (dec_call_on sd (AttachLocalField (n_fields c))) /\
        recv_dec c' = recv_dec c /\
        para_mesh0 pmesh'
        = Some (default {| pm_group := source_grp sd; pm_name := "source mesh" |}
                  (para_mesh0 pmesh)) /\
        para_mesh1 pmesh' = para_mesh1 pmesh
    | None =>
        match (if dirflag =? 2 then recv_dec c else None) with
        | Some rd =>
            (exists p, pf e = Some p /\ pf_slot p = 1%nat /\ pf_n_comp p = d) /\
            send_dec c' = send_dec c /\
            recv_dec c' = Some (dec_call_on rd (AttachLocalField (n_fields c))) /\
            para_mesh0 pmesh' = para_mesh0 pmesh /\
            para_mesh1 pmesh'
            = Some (default {| pm_group := target_grp rd;
                               pm_name := "target mesh" |}
                      (para_mesh1 pmesh))
        | None =>
            pf e = None /\ send_dec c' = send_dec c /\
            recv_dec c' = recv_dec c /\ pmesh' = pmesh
        end
    end.
Proof.
  intros Hm Hp [Hlen Hmax].
  unfold cs_paramedmem_field_add.
  rewrite (arr_deref_Ok _ _ pmesh) by done. rsimpl.
  rewrite int_Ok by (unfold INT_MIN, INT_MAX in *; lia). rsimpl.
  apply lookup_lt_Some in Hp as Hlt.
  destruct (if dirflag =? 1 then send_dec c else None) as [sd|];
    [|destruct (if dirflag =? 2 then recv_dec c else None) as [rd|]];
    rewrite realloc_store by done; rsimpl;
    rewrite arr_set_Ok by lia; rsimpl;
    destruct pmesh as [pm_mesh pm_dir [p0|] [p1|]];
    eexists _, _, _; (split; [reflexivity|]); simpl;
    repeat split; try done; by eexists.
Qed.

Lemma n_attached_call_on (field_id : Z) (d : InterpKernelDEC) :
  n_attached field_id (dec_call_on d (AttachLocalField field_id))
  = Datatypes.S (n_attached field_id d).
Proof.
  unfold n_attached. simpl. rewrite filter_app, length_app.
  rewrite filter_cons_True by done. simpl. lia.
Qed.

(** X8: a field added with direction flag 1 on a session that has a
    send channel gets the next field id, a ParaFIELD built on the
    send-side parallel mesh, and is attached exactly once to the send
    channel; the receive channel and both flags are untouched.  The
    send-side ParaMESH of the mesh is created, on the source group of
    the send channel, only when the mesh has none yet; otherwise no
    mesh entry changes.  The direction the mesh was defined with is
    not consulted. *)
Theorem field_add_send_side (c : cs_paramedmem_coupling_t)
    (field_name : string) (m_id d medcpl_field_type medcpl_time_discr : Z)
    (pmesh : _paramedmem_mesh_t) (sd : InterpKernelDEC) :
  0 <= m_id -> meshes c !! Z.to_nat m_id = Some (Some pmesh) ->
  fields_wf c -> send_dec c = Some sd ->
  exists c' e p pmesh' sd',
    cs_paramedmem_field_add c field_name m_id d medcpl_field_type
      medcpl_time_discr 1 = Ok (c', n_fields c) /\
    n_fields c' = n_fields c + 1 /\
    fields c' = fields c ++ [Some e] /\
    mesh_id e = m_id /\ dim e = d /\
    pf e = Some p /\ pf_slot p = 0%nat /\
    send_dec c' = Some sd' /\
    dec_calls sd' = dec_calls sd ++ [AttachLocalField (n_fields c)] /\
    n_attached (n_fields c) sd' = Datatypes.S (n_attached (n_fields c) sd) /\
    recv_dec c' = recv_dec c /\
    send_synced c' = send_synced c /\ recv_synced c' = recv_synced c /\
    meshes c' !! Z.to_nat m_id = Some (Some pmesh') /\
    (forall i, i <> Z.to_nat m_id -> meshes c' !! i = meshes c !! i) /\
    direction pmesh' = direction pmesh /\
    para_mesh1 pmesh' = para_mesh1 pmesh /\
    (para_mesh0 pmesh = None ->
       para_mesh0 pmesh' = Some {| pm_group := source_grp sd;
                                   pm_name := "source mesh" |}) /\
    (is_Some (para_mesh0 pmesh) -> meshes c' = meshes c).
Proof.
  intros Hm Hp Hwf Hsd.
  destruct (field_add_spec c field_name m_id d medcpl_field_type
              medcpl_time_discr 1 pmesh Hm Hp Hwf)
    as (c' & e & pmesh' & Hadd & Hn & _ & Hf & Hms & Hmid & Hdim & _ & Hss & Hrs
        & Hmesh & Hdir & Hbr).
  simpl in Hbr. rewrite Hsd in Hbr.
  destruct Hbr as ((p & Hpf & Hslot & _) & Hsend & Hrecv & Hp0 & Hp1).
  apply lookup_lt_Some in Hp as Hlt.
  exists c', e, p, pmesh', (dec_call_on sd (AttachLocalField (n_fields c))).
  do 9 (split; [done|]). split; [apply n_attached_call_on|].
  do 3 (split; [done|]).
  split; [rewrite Hms; by apply list_lookup_insert_eq|].
  split; [intros i Hi; rewrite Hms; by apply list_lookup_insert_ne|].
  do 2 (split; [done|]). split.
  - intros Hnone. by rewrite Hp0, Hnone.
  - intros [q Hq]. rewrite Hms. apply list_insert_id. rewrite Hp. do 2 f_equal.
    destruct pmesh, pmesh'. simpl in *. rewrite Hq in Hp0. simpl in Hp0.
    congruence.
Qed.

Lemma field_add_send_side_witness :
  exists c' e p pmesh' sd',
    cs_paramedmem_field_add sample_with_mesh "T" 0 2 0 0 1
      = Ok (c', n_fields sample_with_mesh) /\
    n_fields c' = n_fields sample_with_mesh + 1 /\
    fields c' = fields sample_with_mesh ++ [Some e] /\
    mesh_id e = 0 /\ dim e = 2 /\
    pf e = Some p /\ pf_slot p = 0%nat /\
    send_dec c' = Some sd' /\
    dec_calls sd' = dec_calls sample_send_dec
                    ++ [AttachLocalField (n_fields sample_with_mesh)] /\
    n_attached (n_fields sample_with_mesh) sd'
    = Datatypes.S (n_attached (n_fields sample_with_mesh) sample_send_dec) /\
    recv_dec c' = recv_dec sample_with_mesh /\
    send_synced c' = send_synced sample_with_mesh /\
    recv_synced c' = recv_synced sample_with_mesh /\
    meshes c' !! Z.to_nat 0 = Some (Some pmesh') /\
    (forall i, i <> Z.to_nat 0 -> meshes c' !! i = meshes sample_with_mesh !! i) /\
    direction pmesh' = direction sample_mesh /\
    para_mesh1 pmesh' = para_mesh1 sample_mesh /\
    (para_mesh0 sample_mesh = None ->
       para_mesh0 pmesh' = Some {| pm_group := source_grp sample_send_dec;
                                   pm_name := "source mesh" |}) /\
    (is_Some (para_mesh0 sample_mesh) -> meshes c' = meshes sample_with_mesh).
Proof.
  apply (field_add_send_side sample_with_mesh "T" 0 2 0 0 sample_mesh
           sample_send_dec).
  - lia.
  - reflexivity.
  - unfold fields_wf, INT_MAX. simpl. lia.
  - reflexivity.
Defined.

(** X9: a field added with direction flag 2 on a session that has a
    receive channel gets the next field id, a ParaFIELD built on the
    receive-side parallel mesh, and is attached exactly once to the
    receive channel; the send channel and both flags are untouched.
    The receive-side ParaMESH of the mesh is created, on the target
    group of the receive channel, only when the mesh has none yet. *)
Theorem field_add_recv_side (c : cs_paramedmem_coupling_t)
    (field_name : string) (m_id d medcpl_field_type medcpl_time_discr : Z)
    (pmesh : _paramedmem_mesh_t) (rd : InterpKernelDEC) :
  0 <= m_id -> meshes c !! Z.to_nat m_id = Some (Some pmesh) ->
  fields_wf c -> recv_dec c = Some rd ->
  exists c' e p pmesh' rd',
    cs_paramedmem_field_add c field_name m_id d medcpl_field_type
      medcpl_time_discr 2 = Ok (c', n_fields c) /\
    n_fields c' = n_fields c + 1 /\
    fields c' = fields c ++ [Some e] /\
    mesh_id e = m_id /\ dim e = d /\
    pf e = Some p /\ pf_slot p = 1%nat /\
    recv_dec c' = Some rd' /\
    dec_calls rd' = dec_calls rd ++ [AttachLocalField (n_fields c)] /\
    n_attached (n_fields c) rd' = Datatypes.S (n_attached (n_fields c) rd) /\
    send_dec c' = send_dec c /\
    send_synced c' = send_synced c /\ recv_synced c' = recv_synced c /\
    meshes c' !! Z.to_nat m_id = Some (Some pmesh') /\
    (forall i, i <> Z.to_nat m_id -> meshes c' !! i = meshes c !! i) /\
    direction pmesh' = direction pmesh /\
    para_mesh0 pmesh' = para_mesh0 pmesh /\
    (para_mesh1 pmesh = None ->
       para_mesh1 pmesh' = Some {| pm_group := target_grp rd;
                                   pm_name := "target mesh" |}) /\
    (is_Some (para_mesh1 pmesh) -> meshes c' = meshes c).
Proof.
  intros Hm Hp Hwf Hrd.
  destruct (field_add_spec c field_name m_id d medcpl_field_type
              medcpl_time_discr 2 pmesh Hm Hp Hwf)
    as (c' & e & pmesh' & Hadd & Hn & _ & Hf & Hms & Hmid & Hdim & _ & Hss & Hrs
        & Hmesh & Hdir & Hbr).
  simpl in Hbr. rewrite Hrd in Hbr.
  destruct Hbr as ((p & Hpf & Hslot & _) & Hsend & Hrecv & Hp0 & Hp1).
  apply lookup_lt_Some in Hp as Hlt.
  exists c', e, p, pmesh', (dec_call_on rd (AttachLocalField (n_fields c))).
  do 9 (split; [done|]). split; [apply n_attached_call_on|].
  do 3 (split; [done|]).
  split; [rewrite Hms; by apply list_lookup_insert_eq|].
  split; [intros i Hi; rewrite Hms; by apply list_lookup_insert_ne|].
  do 2 (split; [done|]). split.
  - intros Hnone. by rewrite Hp1, Hnone.
  - intros [q Hq]. rewrite Hms. apply list_insert_id. rewrite Hp. do 2 f_equal.
    destruct pmesh, pmesh'. simpl in *. rewrite Hq in Hp1. simpl in Hp1.
    congruence.
Qed.

Lemma field_add_recv_side_witness :
  exists c' e p pmesh' rd',
    cs_paramedmem_field_add sample_with_mesh "T" 0 2 0 0 2
      = Ok (c', n_fields sample_with_mesh) /\
    n_fields c' = n_fields sample_with_mesh + 1 /\
    fields c' = fields sample_with_mesh ++ [Some e] /\
    mesh_id e = 0 /\ dim e = 2 /\
    pf e = Some p /\ pf_slot p = 1%nat /\
    recv_dec c' = Some rd' /\
    dec_calls rd' = dec_calls sample_recv_dec
                    ++ [AttachLocalField (n_fields sample_with_mesh)] /\
    n_attached (n_fields sample_with_mesh) rd'
    = Datatypes.S (n_attached (n_fields sample_with_mesh) sample_recv_dec) /\
    send_dec c' = send_dec sample_with_mesh /\
    send_synced c' = send_synced sample_with_mesh /\
    recv_synced c' = recv_synced sample_with_mesh /\
    meshes c' !! Z.to_nat 0 = Some (Some pmesh') /\
    (forall i, i <> Z.to_nat 0 -> meshes c' !! i = meshes sample_with_mesh !! i) /\
    direction pmesh' = direction sample_mesh /\
    para_mesh0 pmesh' = para_mesh0 sample_mesh /\
    (para_mesh1 sample_mesh = None ->
       para_mesh1 pmesh' = Some {| pm_group := target_grp sample_recv_dec;
                                   pm_name := "target mesh" |}) /\
    (is_Some (para_mesh1 sample_mesh) -> meshes c' = meshes sample_with_mesh).
Proof.
  apply (field_add_recv_side sample_with_mesh "T" 0 2 0 0 sample_mesh
           sample_recv_dec).
  - lia.
  - reflexivity.
  - unfold fields_wf, INT_MAX. simpl. lia.
  - reflexivity.
Defined.

(** X10: [cs_paramedmem_reattach_field] picks the channel from the
    direction the mesh was defined with, not from the direction the
    field was registered for.  After a field is added for direction 1
    or 2 on a session with both channels, re-attaching it appends one
    attachment to the send channel when the mesh direction is 1, to
    the receive channel when it is 2, and to none otherwise, whichever
    channel the registration had attached it to. *)
Theorem reattach_follows_mesh_direction (c : cs_paramedmem_coupling_t)
    (field_name : string)
    (m_id d medcpl_field_type medcpl_time_discr dirflag : Z)
    (pmesh : _paramedmem_mesh_t) (sd rd : InterpKernelDEC) :
  0 <= m_id -> meshes c !! Z.to_nat m_id = Some (Some pmesh) ->
  fields_wf c -> send_dec c = Some sd -> recv_dec c = Some rd ->
  dirflag = 1 \/ dirflag = 2 ->
  exists c' c'' s' r' s'' r'',
    cs_paramedmem_field_add c field_name m_id d medcpl_field_type
      medcpl_time_discr dirflag = Ok (c', n_fields c) /\
    cs_paramedmem_reattach_field c' (n_fields c) = Ok c'' /\
    send_dec c' = Some s' /\ recv_dec c' = Some r' /\
    send_dec c'' = Some s'' /\ recv_dec c'' = Some r'' /\
    dec_calls s' = dec_calls sd
      ++ (if dirflag =? 1 then [AttachLocalField (n_fields c)] else []) /\
    dec_calls r' = dec_calls rd
      ++ (if dirflag =? 2 then [AttachLocalField (n_fields c)] else []) /\
    dec_calls s'' = dec_calls s'
      ++ (if direction pmesh =? 1 then [AttachLocalField (n_fields c)] else []) /\
    dec_calls r'' = dec_calls r'
      ++ (if direction pmesh =? 2 then [AttachLocalField (n_fields c)] else []).
Proof.
  intros Hm Hp Hwf Hsd Hrd Hflag.
  destruct (field_add_spec c field_name m_id d medcpl_field_type
              medcpl_time_discr dirflag pmesh Hm Hp Hwf)
    as (c' & e & pmesh' & Hadd & Hn & _ & Hf & Hms & Hmid & _ & _ & _ & _
        & _ & Hdir & Hbr).
  destruct Hwf as [Hlen Hmax]. apply lookup_lt_Some in Hp as Hlt.
  assert (He : arr_deref (fields c') (n_fields c) = Ok e).
  { apply arr_deref_Ok; [lia|]. rewrite Hf.
    replace (Z.to_nat (n_fields c)) with (length (fields c) + 0)%nat by lia.
    by rewrite lookup_app_r, Nat.add_comm, Nat.add_sub by lia. }
  assert (Hpm : arr_deref (meshes c') (mesh_id e) = Ok pmesh').
  { rewrite Hmid. apply arr_deref_Ok; [done|]. rewrite Hms.
    by apply list_lookup_insert_eq. }
  assert (Hch : exists s' r' p,
    send_dec c' = Some s' /\ recv_dec c' = Some r' /\ pf e = Some p /\
    dec_calls s' = dec_calls sd
      ++ (if dirflag =? 1 then [AttachLocalField (n_fields c)] else []) /\
    dec_calls r' = dec_calls rd
      ++ (if dirflag =? 2 then [AttachLocalField (n_fields c)] else [])).
  { destruct Hflag as [-> | ->]; simpl in Hbr; rewrite ?Hsd, ?Hrd in Hbr;
      destruct Hbr as ((p & Hpf & _) & Hs & Hr & _);
      rewrite ?Hsd, ?Hrd in Hs, Hr; eexists _, _, p;
      (split; [exact Hs|]); (split; [exact Hr|]); (split; [exact Hpf|]);
      simpl; by rewrite ?app_nil_r. }
  destruct Hch as (s' & r' & p & Hs' & Hr' & Hpf & Hcs & Hcr).
  assert (Hre : exists c'' s'' r'',
    cs_paramedmem_reattach_field c' (n_fields c) = Ok c'' /\
    send_dec c'' = Some s'' /\ recv_dec c'' = Some r'' /\
    dec_calls s'' = dec_calls s'
      ++ (if direction pmesh =? 1 then [AttachLocalField (n_fields c)] else []) /\
    dec_calls r'' = dec_calls r'
      ++ (if direction pmesh =? 2 then [AttachLocalField (n_fields c)] else [])).
  { unfold cs_paramedmem_reattach_field. rewrite He. rsimpl. rewrite Hpm. rsimpl.
    rewrite Hdir, Hs', Hr', Hpf.
    destruct (direction pmesh =? 1) eqn:E1;
      [|destruct (direction pmesh =? 2) eqn:E2]; rsimpl.
    - eexists _, _, _. split; [reflexivity|]. simpl. rewrite Hr'.
      split; [reflexivity|]. split; [reflexivity|]. split; [done|].
      apply Z.eqb_eq in E1. rewrite E1. simpl. by rewrite app_nil_r.
    - eexists _, _, _. split; [reflexivity|]. simpl. rewrite Hs'.
      split; [reflexivity|]. split; [reflexivity|]. split; [|done].
      by rewrite app_nil_r.
    - exists c', s', r'. split; [reflexivity|]. split; [done|]. split; [done|].
      by rewrite !app_nil_r. }
  destruct Hre as (c'' & s'' & r'' & Hre & Hs'' & Hr'' & Hcs' & Hcr').
  exists c', c'', s', r', s'', r''. by repeat split.
Qed.

Lemma reattach_follows_mesh_direction_witness :
  exists c' c'' s' r' s'' r'',
    cs_paramedmem_field_add sample_with_recv_mesh "T" 0 2 0 0 1
    = Ok (c', n_fields sample_with_recv_mesh) /\
    cs_paramedmem_reattach_field c' (n_fields sample_with_recv_mesh) = Ok c'' /\
    send_dec c' = Some s' /\ recv_dec c' = Some r' /\
    send_dec c'' = Some s'' /\ recv_dec c'' = Some r'' /\
    dec_calls s' = dec_calls sample_send_dec
      ++ (if 1 =? 1
          then [AttachLocalField (n_fields sample_with_recv_mesh)] else []) /\
    dec_calls r' = dec_calls sample_recv_dec
      ++ (if 1 =? 2
          then [AttachLocalField (n_fields sample_with_recv_mesh)] else []) /\
    dec_calls s'' = dec_calls s'
      ++ (if direction sample_recv_mesh =? 1
          then [AttachLocalField (n_fields sample_with_recv_mesh)] else []) /\
    dec_calls r'' = dec_calls r'
      ++ (if direction sample_recv_mesh =? 2
          then [AttachLocalField (n_fields sample_with_recv_mesh)] else []).
Proof.
  apply (reattach_follows_mesh_direction sample_with_recv_mesh
           "T" 0 2 0 0 1 sample_recv_mesh sample_send_dec sample_recv_dec).
  - lia.
  - reflexivity.
  - unfold fields_wf, INT_MAX. simpl. lia.
  - reflexivity.
  - reflexivity.
  - left. reflexivity.
Defined.

(** ** Lookup of a field *)

Lemma field_key_at_test (c : cs_paramedmem_coupling_t) (j : Z)
    (e : _paramedmem_field_t) (m_id : Z) (nm : string) :
  fields c !! Z.to_nat j = Some (Some e) ->
  ((mesh_id e =? m_id) && String.eqb nm (fd_name (f e)) = true
   <-> field_key_at c j = Some (m_id, nm)).
Proof.
  intros He. unfold field_key_at. rewrite He. simpl.
  rewrite andb_true_iff, Z.eqb_eq, String.eqb_eq.
  split; [by intros [-> ->]|by intros [= -> ->]].
Qed.

(** X11: [cs_paramedmem_field_get_id] returns the id of the first field
    registered on the given mesh under the given name, and -1 exactly
    when the session has no such field. *)
Theorem field_get_id_first_match (c : cs_paramedmem_coupling_t) (m_id : Z)
    (nm : string) :
  fields_wf c -> Forall (fun p => is_Some p) (fields c) ->
  exists r,
    cs_paramedmem_field_get_id c m_id nm = Ok r /\
    ((r = -1 /\
      forall j, 0 <= j < n_fields c -> field_key_at c j <> Some (m_id, nm)) \/
     (0 <= r < n_fields c /\ field_key_at c r = Some (m_id, nm) /\
      forall j, 0 <= j < r -> field_key_at c j <> Some (m_id, nm))).
Proof.
  intros [Hlen _] Hall. unfold cs_paramedmem_field_get_id.
  rewrite field_get_id_loop_find.
  destruct (find_loop_first
    (fun e => (mesh_id e =? m_id) && String.eqb nm (fd_name (f e)))
    (fields c) (Z.to_nat (n_fields c)) 0 Hall) as (r & Hr & Hcase); [lia|lia|].
  exists r. split; [done|].
  assert (Hno : forall j, 0 <= j < n_fields c ->
    (forall x, fields c !! Z.to_nat j = Some (Some x) ->
               (mesh_id x =? m_id) && String.eqb nm (fd_name (f x)) = false) ->
    field_key_at c j <> Some (m_id, nm)).
  { intros j Hj Hf Hkey.
    destruct (Forall_lookup_Z _ _ j Hall) as (p & Hp & e & ->); [lia|].
    apply (field_key_at_test c j e m_id nm Hp) in Hkey.
    rewrite (Hf e Hp) in Hkey. done. }
  destruct Hcase as [[-> Hnone]|(Hrange & (x & Hx & Ht) & Hbefore)].
  - left. split; [done|]. intros j Hj. apply Hno; [done|].
    intros y Hy. apply (Hnone j); [lia|done].
  - right. split; [lia|].
    split; [by apply (field_key_at_test c r x m_id nm Hx)|].
    intros j Hj. apply Hno; [lia|]. intros y Hy. apply (Hbefore j); [lia|done].
Qed.

Lemma field_get_id_first_match_witness :
  exists r,
    cs_paramedmem_field_get_id sample_with_field 0 "T" = Ok r /\
    ((r = -1 /\
      forall j, 0 <= j < n_fields sample_with_field ->
                field_key_at sample_with_field j <> Some (0, "T")) \/
     (0 <= r < n_fields sample_with_field /\
      field_key_at sample_with_field r = Some (0, "T") /\
      forall j, 0 <= j < r -> field_key_at sample_with_field j <> Some (0, "T"))).
Proof.
  apply (field_get_id_first_match sample_with_field 0 "T").
  - unfold fields_wf, INT_MAX. simpl. lia.
  - repeat constructor. by eexists.
Defined.

(** X12: a field just added is found under its mesh and name, with the
    id [cs_paramedmem_field_add] returned, unless an older field was
    already registered under the same mesh and name: the registration
    does not refuse the duplicate, and the lookup keeps returning the
    older id.  Every other lookup gives what it gave before. *)
Theorem field_add_then_lookup (c : cs_paramedmem_coupling_t)
    (nm : string) (m_id d medcpl_field_type medcpl_time_discr dirflag : Z)
    (pmesh : _paramedmem_mesh_t) :
  0 <= m_id -> meshes c !! Z.to_nat m_id = Some (Some pmesh) ->
  fields_wf c -> Forall (fun p => is_Some p) (fields c) ->
  exists c',
    cs_paramedmem_field_add c nm m_id d medcpl_field_type
      medcpl_time_discr dirflag = Ok (c', n_fields c) /\
    (cs_paramedmem_field_get_id c m_id nm = Ok (-1) ->
       cs_paramedmem_field_get_id c' m_id nm = Ok (n_fields c)) /\
    (forall m' nm' r, cs_paramedmem_field_get_id c m' nm' = Ok r -> r <> -1 ->
       cs_paramedmem_field_get_id c' m' nm' = Ok r) /\
    (forall m' nm', (m', nm') <> (m_id, nm) ->
       cs_paramedmem_field_get_id c m' nm' = Ok (-1) ->
       cs_paramedmem_field_get_id c' m' nm' = Ok (-1)).
Proof.
  intros Hm Hp Hwf Hall.
  destruct (field_add_spec c nm m_id d medcpl_field_type
              medcpl_time_discr dirflag pmesh Hm Hp Hwf)
    as (c' & e & pmesh' & Hadd & Hn & _ & Hf & _ & Hmid & _ & Hname & _).
  destruct Hwf as [Hlen Hmax].
  exists c'. split; [exact Hadd|].
  assert (Hlook : forall m' nm',
    cs_paramedmem_field_get_id c' m' nm'
    = match cs_paramedmem_field_get_id c m' nm' with
      | Ok r => if r =? -1
                then (if (m_id =? m') && String.eqb nm' nm
                      then Ok (n_fields c) else Ok (-1))
                else Ok r
      | Fail e => Fail e
      end).
  { intros m' nm'. unfold cs_paramedmem_field_get_id.
    rewrite !field_get_id_loop_find, Hn, Hf.
    replace (Z.to_nat (n_fields c + 1))
      with (Datatypes.S (Z.to_nat (n_fields c))) by lia.
    rewrite find_loop_app by (done || lia). rewrite Hmid, Hname.
    by replace (Z.of_nat (length (fields c))) with (n_fields c) by lia. }
  split; [|split].
  - intros H0. rewrite Hlook, H0. simpl.
    by rewrite Z.eqb_refl, String.eqb_refl.
  - intros m' nm' r Hr Hne. rewrite Hlook, Hr. by destruct (Z.eqb_spec r (-1)).
  - intros m' nm' Hne H0. rewrite Hlook, H0. simpl.
    destruct (Z.eqb_spec m_id m'); [|done].
    destruct (String.eqb_spec nm' nm); [|done]. by subst.
Qed.

Lemma field_add_then_lookup_witness :
  exists c',
    cs_paramedmem_field_add sample_with_field "T" 0 2 0 0 1
      = Ok (c', n_fields sample_with_field) /\
    (cs_paramedmem_field_get_id sample_with_field 0 "T" = Ok (-1) ->
       cs_paramedmem_field_get_id c' 0 "T" = Ok (n_fields sample_with_field)) /\
    (forall m' nm' r,
       cs_paramedmem_field_get_id sample_with_field m' nm' = Ok r -> r <> -1 ->
       cs_paramedmem_field_get_id c' m' nm' = Ok r) /\
    (forall m' nm', (m', nm') <> (0, "T") ->
       cs_paramedmem_field_get_id sample_with_field m' nm' = Ok (-1) ->
       cs_paramedmem_field_get_id c' m' nm' = Ok (-1)).
Proof.
  apply (field_add_then_lookup sample_with_field "T" 0 2 0 0 1 sample_mesh).
  - lia.
  - reflexivity.
  - unfold fields_wf, INT_MAX. simpl. lia.
  - repeat constructor. by eexists.
Defined.

(** ** What a call that returned has done *)

Lemma bind_Ok_inv {A B} (m : result A) (k : A -> result B) (b : B) :
  (x ← m; k x) = Ok b -> exists a, m = Ok a /\ k a = Ok b.
Proof. destruct m as [a|e]; [by exists a|done]. Qed.

Lemma int_Ok_inv (z r : Z) : int z = Ok r -> r = z /\ z <= INT_MAX.
Proof.
  unfold int, int_ok. intros H.
  destruct (Z.leb_spec INT_MIN z), (Z.leb_spec z INT_MAX); simpl in H;
    try done. by injection H as <-.
Qed.

Lemma arr_get_Ok_inv {A} (a : list A) (i : Z) (x : A) :
  arr_get a i = Ok x -> 0 <= i /\ a !! Z.to_nat i = Some x.
Proof.
  unfold arr_get. destruct (Z.ltb_spec i 0); [done|].
  destruct (a !! Z.to_nat i); [|done]. by intros [= ->].
Qed.

Lemma arr_deref_Ok_inv {A} (a : list (option A)) (i : Z) (x : A) :
  arr_deref a i = Ok x -> 0 <= i /\ a !! Z.to_nat i = Some (Some x).
Proof.
  unfold arr_deref. intros (p & Hp & Hd)%bind_Ok_inv.
  apply arr_get_Ok_inv in Hp. destruct p; [|done]. by injection Hd as ->.
Qed.

Lemma arr_set_Ok_inv {A} (a a' : list A) (i : Z) (x : A) :
  arr_set a i x = Ok a' ->
  a' = <[Z.to_nat i := x]> a /\ 0 <= i < Z.of_nat (length a).
Proof.
  unfold arr_set. destruct (Z.ltb_spec i 0); [done|].
  destruct (Z.ltb_spec i (Z.of_nat (length a))); [|done].
  intros [= <-]. split; [done|lia].
Qed.

(** An invariant of the turns that return holds when the loop returns. *)
Lemma for_loop_Ok_inv {S} (P : Z -> S -> Prop) (body : Z -> S -> result S)
    (n : nat) (lo : Z) (s s' : S) :
  for_loop n lo body s = Ok s' ->
  P lo s ->
  (forall i s s1, lo <= i < lo + Z.of_nat n -> P i s -> body i s = Ok s1 ->
                  P (i + 1) s1) ->
  P (lo + Z.of_nat n) s'.
Proof.
  revert lo s. induction n as [|n IH]; intros lo s Hl H0 Hstep.
  - injection Hl as <-. by replace (lo + Z.of_nat 0) with lo by lia.
  - simpl in Hl. apply bind_Ok_inv in Hl as (s1 & Hb & Hl).
    replace (lo + Z.of_nat (Datatypes.S n)) with (lo + 1 + Z.of_nat n) by lia.
    apply (IH (lo + 1) s1 Hl).
    + apply (Hstep lo s); [lia|done|done].
    + intros i s2 s3 Hi. apply Hstep. lia.
Qed.

Lemma define_mesh_Ok_inv (c c' : cs_paramedmem_coupling_t)
    (nm sel : string) (ed : Z) (src dst : bool) (id : Z) :
  Z.of_nat (length (meshes c)) = n_meshes c ->
  cs_paramedmem_define_mesh c nm sel ed src dst = Ok (c', id) ->
  exists pm, c' = set_meshes c (n_meshes c + 1) (meshes c ++ [Some pm]) /\
             id = n_meshes c.
Proof.
  intros Hlen Hdef.
  assert (Hmax : n_meshes c < INT_MAX).
  { unfold cs_paramedmem_define_mesh in Hdef.
    apply bind_Ok_inv in Hdef as (d1 & _ & Hdef).
    apply bind_Ok_inv in Hdef as (d2 & _ & Hdef).
    apply bind_Ok_inv in Hdef as (n & Hn%int_Ok_inv & _). lia. }
  destruct (define_mesh_result c nm sel ed src dst (conj Hlen Hmax))
    as (pm & Hres & _).
  rewrite Hres in Hdef. injection Hdef as <- <-. by exists pm.
Qed.

Lemma field_add_Ok_inv (c c' : cs_paramedmem_coupling_t) (nm : string)
    (m_id d ft tdisc dirflag id : Z) :
  Z.of_nat (length (fields c)) = n_fields c ->
  cs_paramedmem_field_add c nm m_id d ft tdisc dirflag = Ok (c', id) ->
  exists pmesh,
    0 <= m_id /\ meshes c !! Z.to_nat m_id = Some (Some pmesh) /\ fields_wf c.
Proof.
  intros Hlen Hadd. unfold cs_paramedmem_field_add in Hadd.
  apply bind_Ok_inv in Hadd as (pmesh & [Hm Hp]%arr_deref_Ok_inv & Hadd).
  apply bind_Ok_inv in Hadd as (n & Hn%int_Ok_inv & _).
  exists pmesh. split; [done|]. split; [done|]. split; [done|lia].
Qed.

(** The copies of an export or import never resize the array they
    write. *)
Lemma copy_elt_length (from to to' : list double) (rd wr : result Z) :
  copy_elt from rd wr to = Ok to' -> length to' = length to.
Proof.
  unfold copy_elt. intros (r & _ & H)%bind_Ok_inv.
  apply bind_Ok_inv in H as (w & _ & H).
  apply bind_Ok_inv in H as (x & _ & H).
  apply arr_set_Ok_inv in H as [-> _]. by rewrite length_insert.
Qed.

Lemma for_range_length (hi : Z)
    (body : Z -> list double -> result (list double)) (a a' : list double) :
  (forall i s s1, body i s = Ok s1 -> length s1 = length s) ->
  for_range hi body a = Ok a' -> length a' = length a.
Proof.
  intros Hbody Hl.
  apply (for_loop_Ok_inv (fun _ s => length s = length a) body _ _ _ _ Hl);
    [done|].
  intros i s s1 _ Hs Hb. by rewrite (Hbody i s s1 Hb).
Qed.

(** An export that returned has replaced the array of its field by one
    of the same length and marked it as new; nothing else moved. *)
Lemma field_export_Ok_inv (c c' : cs_paramedmem_coupling_t) (field_id : Z)
    (on_parent : bool) (vals : list double) :
  cs_paramedmem_field_export c field_id on_parent vals = Ok c' ->
  exists fld val,
    0 <= field_id /\ fields c !! Z.to_nat field_id = Some (Some fld) /\
    length val = length (fd_array (f fld)) /\
    c' = exported c field_id fld val.
Proof.
  unfold cs_paramedmem_field_export.
  intros (fld & [Hi Hf]%arr_deref_Ok_inv & H)%bind_Ok_inv.
  apply bind_Ok_inv in H as (pmesh & _ & H).
  apply bind_Ok_inv in H as (val & Hval & H).
  apply bind_Ok_inv in H as (fs & [-> _]%arr_set_Ok_inv & H).
  injection H as <-. exists fld, val. split; [done|]. split; [done|].
  split; [|done].
  destruct on_parent; cbn [negb] in Hval.
  - apply for_range_length in Hval; [done|].
    intros i s s1 Hb. apply for_range_length in Hb; [done|].
    intros j t t1. apply copy_elt_length.
  - apply bind_Ok_inv in Hval as (hi & _ & Hval).
    apply for_range_length in Hval; [done|].
    intros i s s1. apply copy_elt_length.
Qed.

(** ** Initialisation of the meshes *)

Lemma set_meshes_same (c : cs_paramedmem_coupling_t) :
  set_meshes c (n_meshes c) (meshes c) = c.
Proof. by destruct c. Qed.

(** The loop of [cs_paramedmem_init_meshes] on a session with both
    channels: every entry is replaced by its initialised form. *)
Lemma init_meshes_loop
    (copy : cs_medcoupling_mesh_t -> cs_medcoupling_mesh_t)
    (c : cs_paramedmem_coupling_t) (sd rd : InterpKernelDEC) :
  Z.of_nat (length (meshes c)) = n_meshes c ->
  Forall (fun p => is_Some p) (meshes c) ->
  send_dec c = Some sd -> recv_dec c = Some rd ->
  exists ms,
    cs_paramedmem_init_meshes copy c = Ok (set_meshes c (n_meshes c) ms) /\
    length ms = length (meshes c) /\
    forall (j : nat) pm, meshes c !! j = Some (Some pm) ->
      ms !! j = Some (Some
        {| mesh := copy (mesh pm); direction := direction pm;
           para_mesh0 := Some {| pm_group := source_grp sd;
                                 pm_name := "source mesh" |};
           para_mesh1 := Some {| pm_group := target_grp rd;
                                 pm_name := "target mesh" |} |}).
Proof.
  intros Hlen Hall Hsd Hrd.
  set (initd := fun pm : _paramedmem_mesh_t =>
    {| mesh := copy (mesh pm); direction := direction pm;
       para_mesh0 := Some {| pm_group := source_grp sd;
                             pm_name := "source mesh" |};
       para_mesh1 := Some {| pm_group := target_grp rd;
                             pm_name := "target mesh" |} |}).
  destruct (for_range_inv
    (fun i ms => length ms = length (meshes c) /\
       forall (j : nat) pm, meshes c !! j = Some (Some pm) ->
         ms !! j = Some (Some (if Z.of_nat j <? i then initd pm else pm)))
    (fun i ms =>
       pmesh ← arr_deref ms i;
       pmesh' ← _init_mesh_coupling copy c pmesh;
       arr_set ms i (Some pmesh'))
    (n_meshes c) (meshes c)) as (ms & Hl & Hlen' & Hms); [lia| | |].
  - split; [done|]. intros j pm Hj.
    by destruct (Z.ltb_spec (Z.of_nat j) 0); [lia|].
  - intros i ms Hi [Hlen' Hms].
    destruct (Forall_lookup_Z _ _ i Hall) as (p & Hp & pm & ->); [lia|].
    pose proof (Hms _ _ Hp) as Hcur.
    destruct (Z.ltb_spec (Z.of_nat (Z.to_nat i)) i); [lia|].
    rewrite (arr_deref_Ok _ _ pm) by (lia || done). rsimpl.
    unfold _init_mesh_coupling. rewrite Hsd, Hrd. rsimpl.
    rewrite arr_set_Ok by lia. eexists. split; [reflexivity|].
    split; [by rewrite length_insert|]. intros j pm' Hj.
    apply lookup_lt_Some in Hj as Hlt.
    destruct (decide (j = Z.to_nat i)) as [->|Hne].
    + rewrite list_lookup_insert_eq by lia.
      destruct (Z.ltb_spec (Z.of_nat (Z.to_nat i)) (i + 1)); [|lia].
      by replace pm' with pm by congruence.
    + rewrite list_lookup_insert_ne by done. rewrite (Hms _ _ Hj).
      destruct (Z.ltb_spec (Z.of_nat j) i), (Z.ltb_spec (Z.of_nat j) (i + 1));
        done || lia.
  - exists ms. unfold cs_paramedmem_init_meshes. rewrite Hl. rsimpl.
    split; [done|]. split; [done|]. intros j pm Hj.
    rewrite (Hms _ _ Hj). apply lookup_lt_Some in Hj.
    by destruct (Z.ltb_spec (Z.of_nat j) (n_meshes c)); [|lia].
Qed.

(** X13: on a session with both channels, [cs_paramedmem_init_meshes]
    fills every mesh through the mesh copy and gives every mesh both
    parallel meshes, the send-side one on the source group of the send
    channel and the receive-side one on the target group of the receive
    channel, whatever the direction the mesh was defined with and
    whatever parallel mesh it had before.  The direction of each mesh,
    the number of meshes, the fields, the channels and the flags are
    kept. *)
Theorem init_meshes_builds_both_sides
    (copy : cs_medcoupling_mesh_t -> cs_medcoupling_mesh_t)
    (c : cs_paramedmem_coupling_t) (sd rd : InterpKernelDEC) :
  Z.of_nat (length (meshes c)) = n_meshes c ->
  Forall (fun p => is_Some p) (meshes c) ->
  send_dec c = Some sd -> recv_dec c = Some rd ->
  exists c',
    cs_paramedmem_init_meshes copy c = Ok c' /\
    n_meshes c' = n_meshes c /\ length (meshes c') = length (meshes c) /\
    n_fields c' = n_fields c /\ fields c' = fields c /\
    send_dec c' = send_dec c /\ recv_dec c' = recv_dec c /\
    send_synced c' = send_synced c /\ recv_synced c' = recv_synced c /\
    forall (j : nat) pm, meshes c !! j = Some (Some pm) ->
      exists pm',
        meshes c' !! j = Some (Some pm') /\
        mesh pm' = copy (mesh pm) /\ direction pm' = direction pm /\
        para_mesh0 pm' = Some {| pm_group := source_grp sd;
                                 pm_name := "source mesh" |} /\
        para_mesh1 pm' = Some {| pm_group := target_grp rd;
                                 pm_name := "target mesh" |}.
Proof.
  intros Hlen Hall Hsd Hrd.
  destruct (init_meshes_loop copy c sd rd Hlen Hall Hsd Hrd)
    as (ms & Hinit & Hlen' & Hms).
  eexists. split; [exact Hinit|]. simpl. do 8 (split; [done|]).
  intros j pm Hj. eexists. split; [exact (Hms j pm Hj)|]. by repeat split.
Qed.

Lemma init_meshes_builds_both_sides_witness :
  exists c',
    cs_paramedmem_init_meshes (fun m => m) sample_with_recv_mesh = Ok c' /\
    n_meshes c' = n_meshes sample_with_recv_mesh /\
    length (meshes c') = length (meshes sample_with_recv_mesh) /\
    n_fields c' = n_fields sample_with_recv_mesh /\
    fields c' = fields sample_with_recv_mesh /\
    send_dec c' = send_dec sample_with_recv_mesh /\
    recv_dec c' = recv_dec sample_with_recv_mesh /\
    send_synced c' = send_synced sample_with_recv_mesh /\
    recv_synced c' = recv_synced sample_with_recv_mesh /\
    forall (j : nat) pm, meshes sample_with_recv_mesh !! j = Some (Some pm) ->
      exists pm',
        meshes c' !! j = Some (Some pm') /\
        mesh pm' = (fun m => m) (mesh pm) /\ direction pm' = direction pm /\
        para_mesh0 pm' = Some {| pm_group := source_grp sample_send_dec;
                                 pm_name := "source mesh" |} /\
        para_mesh1 pm' = Some {| pm_group := target_grp sample_recv_dec;
                                 pm_name := "target mesh" |}.
Proof.
  apply (init_meshes_builds_both_sides (fun m => m) sample_with_recv_mesh
           sample_send_dec sample_recv_dec).
  - reflexivity.
  - repeat constructor. by eexists.
  - reflexivity.
  - reflexivity.
Defined.

(** X14: [cs_paramedmem_init_meshes] does nothing on a session without
    mesh, even one without channels; with at least one mesh and a NULL
    send or receive channel it dereferences NULL on the first mesh. *)
Theorem init_meshes_needs_both_channels
    (copy : cs_medcoupling_mesh_t -> cs_medcoupling_mesh_t)
    (c : cs_paramedmem_coupling_t) :
  (n_meshes c <= 0 -> cs_paramedmem_init_meshes copy c = Ok c) /\
  (forall pm, 0 < n_meshes c -> meshes c !! 0%nat = Some (Some pm) ->
     send_dec c = None \/ recv_dec c = None ->
     cs_paramedmem_init_meshes copy c = Fail NullDeref).
Proof.
  unfold cs_paramedmem_init_meshes, for_range. split.
  - intros Hn. replace (Z.to_nat (n_meshes c)) with 0%nat by lia.
    simpl. by rewrite set_meshes_same.
  - intros pm Hn Hpm Hnull.
    destruct (Z.to_nat (n_meshes c)) as [|k] eqn:E; [lia|].
    simpl. rewrite (arr_deref_Ok _ _ pm) by (lia || done). rsimpl.
    unfold _init_mesh_coupling.
    destruct Hnull as [-> | Hr]; [done|]. rewrite Hr.
    by destruct (send_dec c).
Qed.

(** X15: once [cs_paramedmem_init_meshes] has run, registering a field
    for direction 1 or 2 creates no parallel mesh any more: the mesh
    entries are those the initialisation left. *)
Theorem init_meshes_then_field_add
    (copy : cs_medcoupling_mesh_t -> cs_medcoupling_mesh_t)
    (c : cs_paramedmem_coupling_t) (sd rd : InterpKernelDEC)
    (nm : string) (m_id d ft tdisc dirflag : Z) :
  Z.of_nat (length (meshes c)) = n_meshes c ->
  Forall (fun p => is_Some p) (meshes c) ->
  send_dec c = Some sd -> recv_dec c = Some rd ->
  fields_wf c -> 0 <= m_id < n_meshes c ->
  dirflag = 1 \/ dirflag = 2 ->
  exists c' c'',
    cs_paramedmem_init_meshes copy c = Ok c' /\
    cs_paramedmem_field_add c' nm m_id d ft tdisc dirflag
      = Ok (c'', n_fields c) /\
    meshes c'' = meshes c' /\ n_fields c'' = n_fields c + 1.
Proof.
  intros Hlen Hall Hsd Hrd Hwf Hm Hflag.
  destruct (init_meshes_loop copy c sd rd Hlen Hall Hsd Hrd)
    as (ms & Hinit & Hlen' & Hms).
  destruct (Forall_lookup_Z _ _ m_id Hall) as (p & Hp & pm & ->); [lia|].
  pose proof (Hms _ _ Hp) as Hpm'.
  set (c' := set_meshes c (n_meshes c) ms) in *.
  destruct (field_add_spec c' nm m_id d ft tdisc dirflag _ (proj1 Hm) Hpm' Hwf)
    as (c'' & e & pmesh' & Hadd & Hn & _ & _ & Hmeshes & _ & _ & _ & _ & _
        & Hmesh & Hdir & Hbr).
  exists c', c''. split; [done|]. split; [exact Hadd|]. split; [|exact Hn].
  rewrite Hmeshes. apply list_insert_id. simpl. rewrite Hpm'. do 2 f_equal.
  simpl in Hbr. rewrite Hsd, Hrd in Hbr.
  destruct pmesh' as [m' dir' p0' p1']. simpl in *.
  destruct Hflag as [-> | ->]; simpl in Hbr;
    destruct Hbr as (_ & _ & _ & H0 & H1); simpl in H0, H1; congruence.
Qed.

Lemma init_meshes_then_field_add_witness :
  exists c' c'',
    cs_paramedmem_init_meshes (fun m => m) sample_with_recv_mesh = Ok c' /\
    cs_paramedmem_field_add c' "T" 0 2 0 0 2
      = Ok (c'', n_fields sample_with_recv_mesh) /\
    meshes c'' = meshes c' /\
    n_fields c'' = n_fields sample_with_recv_mesh + 1.
Proof.
  apply (init_meshes_then_field_add (fun m => m) sample_with_recv_mesh
           sample_send_dec sample_recv_dec "T" 0 2 0 0 2).
  - reflexivity.
  - repeat constructor. by eexists.
  - reflexivity.
  - reflexivity.
  - unfold fields_wf, INT_MAX. simpl. lia.
  - simpl. lia.
  - right. reflexivity.
Defined.

(** ** Invariants of a session over any sequence of calls *)

Lemma init_meshes_Ok_inv
    (copy : cs_medcoupling_mesh_t -> cs_medcoupling_mesh_t)
    (c c' : cs_paramedmem_coupling_t) :
  Forall (fun p => is_Some p) (meshes c) ->
  cs_paramedmem_init_meshes copy c = Ok c' ->
  exists ms, c' = set_meshes c (n_meshes c) ms /\
             length ms = length (meshes c) /\
             Forall (fun p => is_Some p) ms.
Proof.
  intros Hall. unfold cs_paramedmem_init_meshes.
  intros (ms & Hl & [= <-])%bind_Ok_inv. exists ms. split; [done|].
  apply (for_loop_Ok_inv
    (fun _ ms => length ms = length (meshes c) /\
                 Forall (fun p => is_Some p) ms) _ _ _ _ _ Hl); [done|].
  intros i s s1 _ [Hlen Hs] Hb.
  apply bind_Ok_inv in Hb as (pm & _ & Hb).
  apply bind_Ok_inv in Hb as (pm' & _ & Hb).
  apply arr_set_Ok_inv in Hb as [-> Hi].
  split; [by rewrite length_insert|].
  apply Forall_insert; [done|by eexists].
Qed.

Lemma n_synchronize_call_on (d : InterpKernelDEC) (e : dec_call) :
  n_synchronize (dec_call_on d e)
  = (n_synchronize d + if decide (e = Synchronize) then 1 else 0)%nat.
Proof.
  unfold n_synchronize. simpl. rewrite filter_app, length_app. f_equal.
  destruct (decide (e = Synchronize)) as [->|Hne].
  - by rewrite filter_cons_True.
  - by rewrite filter_cons_False.
Qed.

Lemma synced_once_step (d d' : option InterpKernelDEC) (flag flag' : Z) :
  synced_once d flag -> chan_step d d' flag flag' -> synced_once d' flag'.
Proof.
  intros [Hflag Hcount] [[-> ->]|(dec & e & -> & -> & Hcase)]; [done|].
  specialize (Hcount dec eq_refl).
  destruct Hcase as [[Hne ->]|(-> & -> & ->)].
  - split; [done|]. intros dec' [= <-]. rewrite n_synchronize_call_on.
    rewrite decide_False by done. lia.
  - split; [by right|]. intros dec' [= <-]. rewrite n_synchronize_call_on.
    rewrite decide_True by done. lia.
Qed.

Ltac chan_tac Hd Hflag :=
  first
    [ left; split; [exact Hd|exact Hflag]
    | right; eexists _, _; split; [reflexivity|]; split; [exact Hd|];
      left; split; [discriminate|exact Hflag] ].

(** What one call that returned has done to the two channels. *)
Lemma run_op_channels (op : api_op) (c c' : cs_paramedmem_coupling_t) :
  Z.of_nat (length (meshes c)) = n_meshes c ->
  Z.of_nat (length (fields c)) = n_fields c ->
  Forall (fun p => is_Some p) (meshes c) ->
  run_op op c = Ok c' ->
  chan_step (send_dec c) (send_dec c') (send_synced c) (send_synced c') /\
  chan_step (recv_dec c) (recv_dec c') (recv_synced c) (recv_synced c').
Proof.
  intros Hml Hfl Hall Hrun. destruct op; simpl in Hrun.
  - apply bind_Ok_inv in Hrun as ([c1 id] & Hdef & [= <-]).
    apply define_mesh_Ok_inv in Hdef as (pm & -> & _); [|done].
    split; by left.
  - apply init_meshes_Ok_inv in Hrun as (ms & -> & _); [|done].
    split; by left.
  - apply bind_Ok_inv in Hrun as ([c1 id] & Hadd & [= <-]).
    destruct (field_add_Ok_inv _ _ _ _ _ _ _ _ _ Hfl Hadd) as (pmesh & Hm & Hp & Hwf).
    destruct (field_add_spec c field_name mesh_id0 dim0 medcpl_field_type
                medcpl_time_discr dirflag pmesh Hm Hp Hwf)
      as (c2 & e & pmesh' & Hadd' & _ & _ & _ & _ & _ & _ & _ & Hss & Hrs
          & _ & _ & Hbr).
    rewrite Hadd' in Hadd. injection Hadd as <- _. simpl.
    destruct (dirflag =? 1), (send_dec c) as [sd|], (dirflag =? 2),
      (recv_dec c) as [rd|]; simpl in Hbr;
      destruct Hbr as (_ & Hs & Hr & _);
      (split; [chan_tac Hs Hss|chan_tac Hr Hrs]).
  - apply field_export_Ok_inv in Hrun as (fld & val & _ & _ & _ & ->).
    split; by left.
  - unfold cs_paramedmem_sync_dec in Hrun.
    destruct (dec_to_sync =? 1).
    + destruct (Z.eqb_spec (send_synced c) 0) as [E|].
      * apply bind_Ok_inv in Hrun as (sd & Hsd & [= <-]).
        destruct (send_dec c) as [sd'|] eqn:Es; [|done]. injection Hsd as ->.
        split; [|by left]. right. exists sd, Synchronize.
        split; [done|]. split; [done|]. right. by repeat split.
      * injection Hrun as <-. split; by left.
    + destruct (Z.eqb_spec (recv_synced c) 0) as [E|].
      * apply bind_Ok_inv in Hrun as (rd & Hrd & [= <-]).
        destruct (recv_dec c) as [rd'|] eqn:Er; [|done]. injection Hrd as ->.
        split; [by left|]. right. exists rd, Synchronize.
        split; [done|]. split; [done|]. right. by repeat split.
      * injection Hrun as <-. split; by left.
  - unfold cs_paramedmem_send_data in Hrun.
    apply bind_Ok_inv in Hrun as (sd & Hsd & [= <-]).
    destruct (send_dec c) as [sd'|] eqn:Es; [|done]. injection Hsd as ->.
    split; [|by left]. right. exists sd, SendData.
    split; [done|]. split; [done|]. by left.
  - unfold cs_paramedmem_recv_data in Hrun.
    apply bind_Ok_inv in Hrun as (rd & Hrd & [= <-]).
    destruct (recv_dec c) as [rd'|] eqn:Er; [|done]. injection Hrd as ->.
    split; [by left|]. right. exists rd, RecvData.
    split; [done|]. split; [done|]. by left.
  - unfold cs_paramedmem_reattach_field in Hrun.
    apply bind_Ok_inv in Hrun as (fld & _ & Hrun).
    apply bind_Ok_inv in Hrun as (pm & _ & Hrun).
    destruct (direction pm =? 1); [|destruct (direction pm =? 2)].
    + apply bind_Ok_inv in Hrun as (sd & Hsd & Hrun).
      apply bind_Ok_inv in Hrun as (p & _ & [= <-]).
      destruct (send_dec c) as [sd'|] eqn:Es; [|done]. injection Hsd as ->.
      split; [|by left]. right. exists sd, (AttachLocalField field_id).
      split; [done|]. split; [done|]. by left.
    + apply bind_Ok_inv in Hrun as (rd & Hrd & Hrun).
      apply bind_Ok_inv in Hrun as (p & _ & [= <-]).
      destruct (recv_dec c) as [rd'|] eqn:Er; [|done]. injection Hrd as ->.
      split; [by left|]. right. exists rd, (AttachLocalField field_id).
      split; [done|]. split; [done|]. by left.
    + injection Hrun as <-. split; by left.
Qed.

(** One call that returned keeps the session well formed. *)
Lemma run_op_wf (op : api_op) (c c' : cs_paramedmem_coupling_t) :
  coupling_wf c -> run_op op c = Ok c' -> coupling_wf c'.
Proof.
  intros (Hml & Hfl & Hms & Hfs) Hrun. destruct op; simpl in Hrun.
  - apply bind_Ok_inv in Hrun as ([c1 id] & Hdef & [= <-]).
    apply define_mesh_Ok_inv in Hdef as (pm & -> & _); [|done].
    unfold coupling_wf. simpl. rewrite length_app. simpl.
    split; [lia|]. split; [done|]. split.
    + apply Forall_app. split; [done|]. repeat constructor. by eexists.
    + eapply Forall_impl; [exact Hfs|]. intros p (e & -> & He).
      exists e. split; [done|lia].
  - apply init_meshes_Ok_inv in Hrun as (ms & -> & Hlen & Hall); [|done].
    unfold coupling_wf. simpl. split; [lia|]. by repeat split.
  - apply bind_Ok_inv in Hrun as ([c1 id] & Hadd & [= <-]).
    destruct (field_add_Ok_inv _ _ _ _ _ _ _ _ _ Hfl Hadd) as (pmesh & Hm & Hp & Hwf).
    destruct (field_add_spec c field_name mesh_id0 dim0 medcpl_field_type
                medcpl_time_discr dirflag pmesh Hm Hp Hwf)
      as (c2 & e & pmesh' & Hadd' & Hn & Hnm & Hf & Hmeshes & Hmid & _).
    rewrite Hadd' in Hadd. injection Hadd as <- _. simpl.
    apply lookup_lt_Some in Hp as Hlt.
    unfold coupling_wf. rewrite Hn, Hnm, Hf, Hmeshes, length_app, length_insert.
    simpl. split; [lia|]. split; [lia|]. split.
    + apply Forall_insert; [done|by eexists].
    + apply Forall_app. split; [done|]. repeat constructor.
      exists e. split; [done|lia].
  - apply field_export_Ok_inv in Hrun as (fld & val & Hi & Hf & _ & ->).
    apply lookup_lt_Some in Hf as Hlt.
    unfold coupling_wf, exported. simpl. rewrite length_insert.
    split; [done|]. split; [done|]. split; [done|].
    apply Forall_insert; [done|].
    destruct (Forall_lookup_1 _ _ _ _ Hfs Hf) as (e & [= <-] & He).
    by eexists.
  - unfold cs_paramedmem_sync_dec in Hrun.
    destruct (dec_to_sync =? 1).
    + destruct (send_synced c =? 0); [|by injection Hrun as <-].
      by apply bind_Ok_inv in Hrun as (sd & _ & [= <-]).
    + destruct (recv_synced c =? 0); [|by injection Hrun as <-].
      by apply bind_Ok_inv in Hrun as (rd & _ & [= <-]).
  - unfold cs_paramedmem_send_data in Hrun.
    by apply bind_Ok_inv in Hrun as (sd & _ & [= <-]).
  - unfold cs_paramedmem_recv_data in Hrun.
    by apply bind_Ok_inv in Hrun as (rd & _ & [= <-]).
  - unfold cs_paramedmem_reattach_field in Hrun.
    apply bind_Ok_inv in Hrun as (fld & _ & Hrun).
    apply bind_Ok_inv in Hrun as (pm & _ & Hrun).
    destruct (direction pm =? 1); [|destruct (direction pm =? 2)].
    + apply bind_Ok_inv in Hrun as (sd & _ & Hrun).
      by apply bind_Ok_inv in Hrun as (p & _ & [= <-]).
    + apply bind_Ok_inv in Hrun as (rd & _ & Hrun).
      by apply bind_Ok_inv in Hrun as (p & _ & [= <-]).
    + by injection Hrun as <-.
Qed.

Lemma run_ops_invariants (ops : list api_op) (c c' : cs_paramedmem_coupling_t) :
  coupling_wf c -> sync_inv c -> run_ops ops c = Ok c' ->
  coupling_wf c' /\ sync_inv c'.
Proof.
  revert c. induction ops as [|op ops IH]; intros c Hwf Hsync Hrun.
  - by injection Hrun as <-.
  - simpl in Hrun. apply bind_Ok_inv in Hrun as (c1 & Hop & Hrun).
    apply (IH c1); [by apply (run_op_wf op c)| |done].
    destruct Hwf as (Hml & Hfl & Hms & _).
    destruct (run_op_channels op c c1 Hml Hfl Hms Hop) as [Hs Hr].
    destruct Hsync as [Hss Hrs]. split.
    + exact (synced_once_step _ _ _ _ Hss Hs).
    + exact (synced_once_step _ _ _ _ Hrs Hr).
Qed.

Lemma created_invariants (my_rank : Z) (g g' : globals) (nm : string)
    (grp1 grp2 : list Z) (c : cs_paramedmem_coupling_t) :
  globals_wf g ->
  cs_paramedmem_interpkernel_create my_rank g nm grp1 grp2 = Ok (g', Some c) ->
  coupling_wf c /\ sync_inv c.
Proof.
  intros Hg Hc.
  destruct (interpkernel_create_result my_rank g nm grp1 grp2 Hg)
    as (g1 & c1 & Hc1 & _ & _ & _ & Hnm & Hm & Hnf & Hf & Hss & Hrs & Hs & Hr).
  rewrite Hc1 in Hc. injection Hc as <- <-.
  split.
  - unfold coupling_wf. rewrite Hnm, Hm, Hnf, Hf. by repeat split.
  - unfold sync_inv, synced_once. rewrite Hss, Hrs, Hs, Hr.
    split; (split; [by left|]); intros dec [= <-];
      by destruct (is_in_grp my_rank grp1).
Qed.

(** X16: a session stays well formed for its whole life.  After its
    creation and any sequence of mesh definitions, initialisations,
    field registrations, exports, synchronizations, transfers and
    re-attachments that all returned, the counts are those of the
    arrays, and every field id below the field count names a field
    whose mesh id names a mesh of the session. *)
Theorem session_stays_well_formed (my_rank : Z) (g g' : globals) (nm : string)
    (grp1 grp2 : list Z) (ops : list api_op)
    (c c' : cs_paramedmem_coupling_t) :
  globals_wf g ->
  cs_paramedmem_interpkernel_create my_rank g nm grp1 grp2 = Ok (g', Some c) ->
  run_ops ops c = Ok c' ->
  coupling_wf c' /\
  forall field_id, 0 <= field_id < n_fields c' ->
    exists fld pmesh, field_at c' field_id fld pmesh.
Proof.
  intros Hg Hc Hrun.
  destruct (created_invariants my_rank g g' nm grp1 grp2 c Hg Hc) as [Hwf Hsync].
  destruct (run_ops_invariants ops c c' Hwf Hsync Hrun) as [Hwf' _].
  split; [done|]. intros field_id Hid.
  destruct Hwf' as (Hml & Hfl & Hms & Hfs).
  destruct (Forall_lookup_Z _ _ field_id Hfs) as (p & Hp & e & -> & He); [lia|].
  destruct (Forall_lookup_Z _ _ (mesh_id e) Hms) as (q & Hq & pm & ->); [lia|].
  exists e, pm. unfold field_at. split; [lia|]. split; [done|]. split; [lia|done].
Qed.

Lemma session_stays_well_formed_witness :
  coupling_wf sample_run /\
  forall field_id, 0 <= field_id < n_fields sample_run ->
    exists fld pmesh, field_at sample_run field_id fld pmesh.
Proof.
  apply (session_stays_well_formed 0 globals_init sample_globals "cpl" [0] [1]
           sample_ops sample_session sample_run).
  - unfold globals_wf, globals_init, INT_MAX. simpl. lia.
  - reflexivity.
  - reflexivity.
Defined.

(** X17: over the whole life of a session each channel is synchronized
    at most once.  After the creation and any sequence of calls that
    all returned, each flag is 0 or 1 and equals the number of
    [synchronize()] calls made on its channel, however many times and
    in whatever order [cs_paramedmem_sync_dec] was called. *)
Theorem synchronized_at_most_once (my_rank : Z) (g g' : globals) (nm : string)
    (grp1 grp2 : list Z) (ops : list api_op)
    (c c' : cs_paramedmem_coupling_t) :
  globals_wf g ->
  cs_paramedmem_interpkernel_create my_rank g nm grp1 grp2 = Ok (g', Some c) ->
  run_ops ops c = Ok c' ->
  (send_synced c' = 0 \/ send_synced c' = 1) /\
  (recv_synced c' = 0 \/ recv_synced c' = 1) /\
  (forall d, send_dec c' = Some d ->
     Z.of_nat (n_synchronize d) = send_synced c' /\ (n_synchronize d <= 1)%nat) /\
  (forall d, recv_dec c' = Some d ->
     Z.of_nat (n_synchronize d) = recv_synced c' /\ (n_synchronize d <= 1)%nat).
Proof.
  intros Hg Hc Hrun.
  destruct (created_invariants my_rank g g' nm grp1 grp2 c Hg Hc) as [Hwf Hsync].
  destruct (run_ops_invariants ops c c' Hwf Hsync Hrun)
    as [_ [[Hsf Hsc] [Hrf Hrc]]].
  split; [done|]. split; [done|]. split.
  - intros d Hd. specialize (Hsc d Hd). split; [done|lia].
  - intros d Hd. specialize (Hrc d Hd). split; [done|lia].
Qed.

Lemma synchronized_at_most_once_witness :
  (send_synced sample_run = 0 \/ send_synced sample_run = 1) /\
  (recv_synced sample_run = 0 \/ recv_synced sample_run = 1) /\
  (forall d, send_dec sample_run = Some d ->
     Z.of_nat (n_synchronize d) = send_synced sample_run /\
     (n_synchronize d <= 1)%nat) /\
  (forall d, recv_dec sample_run = Some d ->
     Z.of_nat (n_synchronize d) = recv_synced sample_run /\
     (n_synchronize d <= 1)%nat).
Proof.
  apply (synchronized_at_most_once 0 globals_init sample_globals "cpl" [0] [1]
           sample_ops sample_session sample_run).
  - unfold globals_wf, globals_init, INT_MAX. simpl. lia.
  - reflexivity.
  - reflexivity.
Defined.

(** The sample run goes through: the field was attached once, the send
    channel synchronized once in spite of the two calls, and sent. *)
Example sample_run_trace :
  run_ops sample_ops sample_session = Ok sample_run /\
  (dec_calls <$> send_dec sample_run)
  = Some [AttachLocalField 0; Synchronize; SendData] /\
  (dec_calls <$> recv_dec sample_run) = Some [] /\
  send_synced sample_run = 1 /\ recv_synced sample_run = 0.
Proof. repeat split; reflexivity. Qed.

(** ** Export and import, one at a time *)

(** X18: an export that returns touches nothing but the value array of
    its field: that array keeps its length and is marked as new once;
    the mesh id, dimension, time discretization, name and ParaFIELD of
    the field, every other field, the meshes, the channels, the flags
    and the counts are unchanged. *)
Theorem export_touches_one_array (c c' : cs_paramedmem_coupling_t)
    (field_id : Z) (on_parent : bool) (vals : list double) :
  cs_paramedmem_field_export c field_id on_parent vals = Ok c' ->
  exists fld fld',
    fields c !! Z.to_nat field_id = Some (Some fld) /\
    fields c' !! Z.to_nat field_id = Some (Some fld') /\
    mesh_id fld' = mesh_id fld /\ dim fld' = dim fld /\ td fld' = td fld /\
    pf fld' = pf fld /\ fd_name (f fld') = fd_name (f fld) /\
    length (fd_array (f fld')) = length (fd_array (f fld)) /\
    fd_time_label (f fld') = Datatypes.S (fd_time_label (f fld)) /\
    (forall i, i <> Z.to_nat field_id -> fields c' !! i = fields c !! i) /\
    meshes c' = meshes c /\ n_meshes c' = n_meshes c /\
    n_fields c' = n_fields c /\
    send_dec c' = send_dec c /\ recv_dec c' = recv_dec c /\
    send_synced c' = send_synced c /\ recv_synced c' = recv_synced c.
Proof.
  intros (fld & val & Hi & Hf & Hlen & ->)%field_export_Ok_inv.
  apply lookup_lt_Some in Hf as Hlt.
  exists fld, (set_f fld (set_array_as_new (f fld) val)).
  split; [done|]. unfold exported. simpl.
  split; [by apply list_lookup_insert_eq|].
  do 7 (split; [done|]).
  split; [intros i Hne; by apply list_lookup_insert_ne|]. by repeat split.
Qed.

Lemma export_touches_one_array_witness :
  exists fld fld',
    fields sample_with_field !! Z.to_nat 0 = Some (Some fld) /\
    fields sample_exported !! Z.to_nat 0 = Some (Some fld') /\
    mesh_id fld' = mesh_id fld /\ dim fld' = dim fld /\ td fld' = td fld /\
    pf fld' = pf fld /\ fd_name (f fld') = fd_name (f fld) /\
    length (fd_array (f fld')) = length (fd_array (f fld)) /\
    fd_time_label (f fld') = Datatypes.S (fd_time_label (f fld)) /\
    (forall i, i <> Z.to_nat 0 ->
               fields sample_exported !! i = fields sample_with_field !! i) /\
    meshes sample_exported = meshes sample_with_field /\
    n_meshes sample_exported = n_meshes sample_with_field /\
    n_fields sample_exported = n_fields sample_with_field /\
    send_dec sample_exported = send_dec sample_with_field /\
    recv_dec sample_exported = recv_dec sample_with_field /\
    send_synced sample_exported = send_synced sample_with_field /\
    recv_synced sample_exported = recv_synced sample_with_field.
Proof.
  apply (export_touches_one_array sample_with_field sample_exported 0 false
           sample_values).
  reflexivity.
Defined.

(** X19: on a mesh without element, as
    [cs_paramedmem_define_mesh] leaves it, export and import copy
    nothing, with either flag and even though both index lists are
    still NULL: the import returns the caller's array as it was, the
    export keeps the values of the field and only marks its array as
    new. *)
Theorem no_element_no_copy (c : cs_paramedmem_coupling_t) (field_id : Z)
    (fld : _paramedmem_field_t) (pmesh : _paramedmem_mesh_t) :
  field_at c field_id fld pmesh -> n_elts (mesh pmesh) = 0 ->
  forall (on_parent : bool) (vals : list double),
    cs_paramedmem_field_import c field_id on_parent vals = Ok vals /\
    cs_paramedmem_field_export c field_id on_parent vals
    = Ok (exported c field_id fld (fd_array (f fld))).
Proof.
  intros Hat Hk on_parent vals.
  destruct (field_at_deref _ _ _ _ Hat) as [Hf Hm].
  destruct Hat as (Hi & Hfl & _ & _). apply lookup_lt_Some in Hfl as Hlt.
  unfold cs_paramedmem_field_import, cs_paramedmem_field_export.
  rewrite Hf. rsimpl. rewrite Hm. rsimpl. rewrite Hk.
  destruct on_parent; cbn [negb].
  - split; [done|]. unfold for_range. simpl. rsimpl.
    by rewrite arr_set_Ok by lia.
  - split; [done|]. rewrite Z.mul_0_r. unfold for_range. simpl. rsimpl.
    by rewrite arr_set_Ok by lia.
Qed.

Lemma no_element_no_copy_witness :
  cs_paramedmem_field_import (sample_field_on sample_empty_mesh) 0
    true sample_values = Ok sample_values /\
  cs_paramedmem_field_export (sample_field_on sample_empty_mesh) 0
    true sample_values
  = Ok (exported (sample_field_on sample_empty_mesh) 0 sample_field
          (fd_array (f sample_field))).
Proof.
  apply (no_element_no_copy (sample_field_on sample_empty_mesh) 0
           sample_field sample_empty_mesh).
  - unfold field_at. simpl.
    split; [lia|split; [reflexivity|split; [lia|reflexivity]]].
  - reflexivity.
Defined.

(** X20: with at least one element and one component, a copy through
    an index list that is still NULL dereferences NULL: export and
    import on the parent numbering when [elt_list] is NULL, and the
    compact import when [new_to_old] is NULL. *)
Theorem null_index_list_is_dereferenced (c : cs_paramedmem_coupling_t)
    (field_id : Z) (fld : _paramedmem_field_t) (pmesh : _paramedmem_mesh_t)
    (vals : list double) :
  field_at c field_id fld pmesh ->
  0 < n_elts (mesh pmesh) -> 0 < dim fld ->
  (elt_list (mesh pmesh) = None ->
     cs_paramedmem_field_export c field_id true vals = Fail NullDeref /\
     cs_paramedmem_field_import c field_id true vals = Fail NullDeref) /\
  (new_to_old (mesh pmesh) = None ->
     cs_paramedmem_field_import c field_id false vals = Fail NullDeref).
Proof.
  intros Hat Hk Hd.
  destruct (field_at_deref _ _ _ _ Hat) as [Hf Hm].
  unfold cs_paramedmem_field_import, cs_paramedmem_field_export.
  rewrite Hf. rsimpl. rewrite Hm. rsimpl. unfold for_range.
  destruct (Z.to_nat (n_elts (mesh pmesh))) as [|k] eqn:Ek; [lia|].
  destruct (Z.to_nat (dim fld)) as [|d] eqn:Ed; [lia|].
  assert (Hidx : idx 0 (dim fld) 0 = Ok 0) by (by rewrite idx_Ok by (unfold INT_MAX; lia)).
  split.
  - intros ->. cbn [negb for_loop]. unfold copy_elt, ptr_get. rsimpl.
    by rewrite Hidx.
  - intros ->. cbn [negb for_loop]. unfold copy_elt, ptr_get. rsimpl.
    by rewrite Hidx.
Qed.

Lemma null_index_list_is_dereferenced_witness :
  (elt_list (mesh sample_unlisted_mesh) = None ->
     cs_paramedmem_field_export (sample_field_on sample_unlisted_mesh) 0 true
       sample_values = Fail NullDeref /\
     cs_paramedmem_field_import (sample_field_on sample_unlisted_mesh) 0 true
       sample_values = Fail NullDeref) /\
  (new_to_old (mesh sample_unlisted_mesh) = None ->
     cs_paramedmem_field_import (sample_field_on sample_unlisted_mesh) 0 false
       sample_values = Fail NullDeref).
Proof.
  apply (null_index_list_is_dereferenced (sample_field_on sample_unlisted_mesh)
           0 sample_field sample_unlisted_mesh sample_values).
  - unfold field_at. simpl.
    split; [lia|split; [reflexivity|split; [lia|reflexivity]]].
  - simpl. lia.
  - simpl. lia.
Defined.

Lemma arr_deref_out_of_bounds {A} (a : list (option A)) (i : Z) :
  i < 0 \/ Z.of_nat (length a) <= i -> arr_deref a i = Fail OutOfBounds.
Proof.
  intros Hi. unfold arr_deref, arr_get.
  destruct (Z.ltb_spec i 0); [done|].
  by rewrite lookup_ge_None_2 by lia.
Qed.

(** X21: no function checks the ids it is given.  A field id that is
    negative or past the end of the field array makes export, import
    and re-attachment read out of bounds; a mesh id that is negative or
    past the end of the mesh array does the same to the registration
    of a field.  None of them returns an error value. *)
Theorem unknown_ids_are_not_checked (c : cs_paramedmem_coupling_t) (id : Z) :
  id < 0 \/ Z.of_nat (length (fields c)) <= id ->
  (forall on_parent vals,
     cs_paramedmem_field_export c id on_parent vals = Fail OutOfBounds /\
     cs_paramedmem_field_import c id on_parent vals = Fail OutOfBounds) /\
  cs_paramedmem_reattach_field c id = Fail OutOfBounds /\
  (forall m_id nm d ft tdisc dirflag,
     m_id < 0 \/ Z.of_nat (length (meshes c)) <= m_id ->
     cs_paramedmem_field_add c nm m_id d ft tdisc dirflag = Fail OutOfBounds).
Proof.
  intros Hid. apply arr_deref_out_of_bounds in Hid.
  unfold cs_paramedmem_field_export, cs_paramedmem_field_import,
    cs_paramedmem_reattach_field, cs_paramedmem_field_add.
  rewrite Hid. split; [done|]. split; [done|].
  intros m_id nm d ft tdisc dirflag Hm.
  by rewrite (arr_deref_out_of_bounds _ _ Hm).
Qed.

Lemma unknown_ids_are_not_checked_witness :
  (forall on_parent vals,
     cs_paramedmem_field_export sample_with_field 1 on_parent vals
     = Fail OutOfBounds /\
     cs_paramedmem_field_import sample_with_field 1 on_parent vals
     = Fail OutOfBounds) /\
  cs_paramedmem_reattach_field sample_with_field 1 = Fail OutOfBounds /\
  (forall m_id nm d ft tdisc dirflag,
     m_id < 0 \/ Z.of_nat (length (meshes sample_with_field)) <= m_id ->
     cs_paramedmem_field_add sample_with_field nm m_id d ft tdisc dirflag
     = Fail OutOfBounds).
Proof.
  apply (unknown_ids_are_not_checked sample_with_field 1).
  right. simpl. lia.
Defined.

(** X22: an export alone gathers.  With arrays large enough the compact
    position of component [j] of point [i] receives what the caller's
    array holds for that point: at the same position for a compact
    array, at point [elt_list[i]] for an array on the parent mesh.
    The field's array keeps its length, and its entries past the
    [n_elts] points are not written. *)
Theorem export_gathers (n : Z) (c : cs_paramedmem_coupling_t) (field_id : Z)
    (fld : _paramedmem_field_t) (pmesh : _paramedmem_mesh_t)
    (on_parent : bool) (vals : list double) :
  field_at c field_id fld pmesh ->
  export_ready n on_parent fld pmesh vals ->
  exists val,
    cs_paramedmem_field_export c field_id on_parent vals
    = Ok (exported c field_id fld val) /\
    length val = length (fd_array (f fld)) /\
    (forall i j, 0 <= i < n_elts (mesh pmesh) -> 0 <= j < dim fld ->
       val !! Z.to_nat (i * dim fld + j)
       = vals !! Z.to_nat (export_point on_parent (mesh pmesh) i * dim fld + j)) /\
    (forall p : nat, n_elts (mesh pmesh) * dim fld <= Z.of_nat p ->
       val !! p = fd_array (f fld) !! p).
Proof.
  intros Hat (Hd & Hk & Hkd & Hbuf & Hop).
  destruct (field_at_deref _ _ _ _ Hat) as [Hf Hm].
  destruct Hat as (Hfid & Hfl & _ & _).
  apply lookup_lt_Some in Hfl as Hlt.
  set (d := dim fld) in *. set (k := n_elts (mesh pmesh)) in *.
  assert (Hstore : forall val,
    (fs ← arr_set (fields c) field_id
            (Some (set_f fld (set_array_as_new (f fld) val)));
     Ok (set_fields c (n_fields c) fs)) = Ok (exported c field_id fld val)).
  { intros val. by rewrite arr_set_Ok by lia. }
  unfold cs_paramedmem_field_export. rewrite Hf. rsimpl. rewrite Hm. rsimpl.
  fold d k. destruct on_parent; cbn [negb].
  - destruct Hop as (Hnd & Hsel & Hfrom).
    destruct (copy_loops_spec vals (fd_array (f fld))
      (fun i j => e ← ptr_get (elt_list (mesh pmesh)) i; idx e d j)
      (fun i j => idx i d j)
      (fun i j => entry (elt_list (mesh pmesh)) i * d + j)
      (fun i j => i * d + j) k d) as (val & Hl & Hlen & Hc); try lia.
    + intros i j Hi Hj.
      destruct (selection_entry n true (mesh pmesh) i Hsel Hi) as [Hg He].
      simpl in Hg, He. rewrite Hg. rsimpl.
      rewrite idx_Ok by nia. split; [done|nia].
    + intros i j Hi Hj. rewrite idx_Ok by nia. split; [done|nia].
    + exists val. rewrite Hl. rsimpl. split; [apply Hstore|]. split; [done|].
      split.
      * intros i j Hi Hj.
        destruct (Hc (Z.to_nat (i * d + j)))
          as [[_ Hn]|(i' & j' & [Hi' Hj'] & Hw & He)].
        -- by destruct (Hn i j).
        -- assert (i' = i /\ j' = j) as [-> ->]
             by (apply (point_component_inj d); [done|done|nia]).
           exact He.
      * intros p Hp.
        destruct (Hc p) as [[He _]|(i & j & [Hi Hj] & Hw & _)]; [done|nia].
  - rewrite int_Ok by (unfold INT_MIN, INT_MAX in *; nia). rsimpl.
    destruct (copy_loop_spec vals (fd_array (f fld))
      (fun i _ => Ok i) (fun i _ => Ok i) (fun i _ => i) (fun i _ => i)
      (d * k) 1) as (val & Hl & Hlen & Hc); try lia.
    + intros i j Hi Hj. split; [done|nia].
    + intros i j Hi Hj. split; [done|nia].
    + exists val. cbv beta in Hl. rewrite Hl. rsimpl.
      split; [apply Hstore|]. split; [done|]. split.
      * intros i j Hi Hj. unfold export_point.
        destruct (Hc (Z.to_nat (i * d + j)))
          as [[_ Hn]|(i' & j' & [Hi' Hj'] & Hw & He)].
        -- destruct (Hn (i * d + j) 0); [split; [nia|done]|done].
        -- by replace i' with (i * d + j) in He by nia.
      * intros p Hp.
        destruct (Hc p) as [[He _]|(i & j & [Hi Hj] & Hw & _)]; [done|nia].
Qed.

Lemma export_gathers_witness :
  exists val,
    cs_paramedmem_field_export sample_with_field 0 true sample_values
    = Ok (exported sample_with_field 0 sample_field val) /\
    length val = length (fd_array (f sample_field)) /\
    (forall i j, 0 <= i < n_elts (mesh sample_mesh) -> 0 <= j < dim sample_field ->
       val !! Z.to_nat (i * dim sample_field + j)
       = sample_values
         !! Z.to_nat (export_point true (mesh sample_mesh) i * dim sample_field + j)) /\
    (forall p : nat, n_elts (mesh sample_mesh) * dim sample_field <= Z.of_nat p ->
       val !! p = fd_array (f sample_field) !! p).
Proof.
  apply (export_gathers 3 sample_with_field 0 sample_field sample_mesh true
           sample_values).
  - unfold field_at. simpl.
    split; [lia|split; [reflexivity|split; [lia|reflexivity]]].
  - unfold export_ready, selection_in, INT_MAX. simpl.
    split; [lia|]. split; [lia|]. split; [lia|]. split; [lia|].
    split; [lia|]. split; [|lia].
    exists [2; 0]. split; [reflexivity|]. split; [reflexivity|].
    repeat constructor; lia.
Defined.

Lemma entry_NoDup (l : list Z) (i i' : Z) :
  NoDup l -> 0 <= i < Z.of_nat (length l) -> 0 <= i' < Z.of_nat (length l) ->
  entry (Some l) i = entry (Some l) i' -> i = i'.
Proof.
  intros Hnd Hi Hi'. unfold entry. simpl.
  destruct (lookup_lt_is_Some_2 l (Z.to_nat i)) as [x Hx]; [lia|].
  destruct (lookup_lt_is_Some_2 l (Z.to_nat i')) as [x' Hx']; [lia|].
  rewrite Hx, Hx'. simpl. intros ->.
  pose proof (NoDup_lookup _ _ _ _ Hnd Hx Hx'). lia.
Qed.

(** X23: an import alone scatters.  When the index list of the flag
    ([elt_list] on the parent numbering, [new_to_old] otherwise) lists
    distinct points, component [j] of compact point [i] of the field
    lands at point [list[i]] of the caller's array, and every position
    that belongs to no listed point keeps its value. *)
Theorem import_scatters (n : Z) (c : cs_paramedmem_coupling_t) (field_id : Z)
    (fld : _paramedmem_field_t) (pmesh : _paramedmem_mesh_t)
    (on_parent : bool) (dst : list double) (l : list Z) :
  field_at c field_id fld pmesh ->
  import_ready n on_parent fld pmesh dst ->
  index_list_of on_parent (mesh pmesh) = Some l -> NoDup l ->
  exists dst',
    cs_paramedmem_field_import c field_id on_parent dst = Ok dst' /\
    length dst' = length dst /\
    (forall i j, 0 <= i < n_elts (mesh pmesh) -> 0 <= j < dim fld ->
       dst' !! Z.to_nat (import_point on_parent (mesh pmesh) i * dim fld + j)
       = fd_array (f fld) !! Z.to_nat (i * dim fld + j)) /\
    (forall p, 0 <= p -> ~ covered on_parent pmesh (dim fld) p ->
       dst' !! Z.to_nat p = dst !! Z.to_nat p).
Proof.
  intros Hat (Hd & Hk & Hn & Hkd & Hnd & Hbuf & Hsel & Hto) Hl Hdup.
  set (src := replicate (Z.to_nat (n * dim fld) + Z.to_nat (n_elts (mesh pmesh) * dim fld))
                        0%float : list double).
  assert (Hready : transfer_ready n on_parent fld pmesh src dst).
  { unfold transfer_ready. do 5 (split; [done|]). split; [|done].
    subst src. rewrite length_replicate. destruct on_parent; nia. }
  destruct (field_import_spec n c field_id fld pmesh on_parent src dst Hat Hready)
    as (dst' & Himp & Hlen & Hdst).
  assert (Himp_pt : forall i, import_point on_parent (mesh pmesh) i = entry (Some l) i).
  { intros i. unfold import_point. rewrite <- Hl. by destruct on_parent. }
  assert (Hll : Z.of_nat (length l) = n_elts (mesh pmesh)).
  { destruct Hsel as (l' & Hl' & Hlen' & _). congruence. }
  exists dst'. split; [done|]. split; [done|]. split.
  - intros i j Hi Hj.
    destruct (covered_position n on_parent fld pmesh src dst i j Hready Hi Hj)
      as [Hp Hpos].
    destruct (Hdst (Z.to_nat (import_point on_parent (mesh pmesh) i * dim fld + j)))
      as [[_ Hnone]|(i' & j' & [Hi' Hj'] & Hw & He)].
    + by destruct (Hnone i j).
    + destruct (covered_position n on_parent fld pmesh src dst i' j' Hready Hi' Hj')
        as [Hp' Hpos'].
      assert (import_point on_parent (mesh pmesh) i'
              = import_point on_parent (mesh pmesh) i /\ j' = j) as [Heq ->]
        by (apply (point_component_inj (dim fld)); [done|done|lia]).
      rewrite !Himp_pt in Heq.
      apply entry_NoDup in Heq; [|done|lia|lia]. by subst i'.
  - intros p Hp Hnc.
    destruct (Hdst (Z.to_nat p)) as [[He _]|(i & j & [Hi Hj] & Hw & _)]; [done|].
    destruct Hnc. exists i, j. split; [done|]. split; [done|].
    destruct (covered_position n on_parent fld pmesh src dst i j Hready Hi Hj). lia.
Qed.

Lemma import_scatters_witness :
  exists dst',
    cs_paramedmem_field_import sample_with_field 0 true sample_target = Ok dst' /\
    length dst' = length sample_target /\
    (forall i j, 0 <= i < n_elts (mesh sample_mesh) -> 0 <= j < dim sample_field ->
       dst' !! Z.to_nat (import_point true (mesh sample_mesh) i
                         * dim sample_field + j)
       = fd_array (f sample_field) !! Z.to_nat (i * dim sample_field + j)) /\
    (forall p, 0 <= p -> ~ covered true sample_mesh (dim sample_field) p ->
       dst' !! Z.to_nat p = sample_target !! Z.to_nat p).
Proof.
  apply (import_scatters 3 sample_with_field 0 sample_field sample_mesh true
           sample_target [2; 0]).
  - unfold field_at. simpl.
    split; [lia|split; [reflexivity|split; [lia|reflexivity]]].
  - unfold import_ready, selection_in, INT_MAX. simpl.
    split; [lia|]. split; [lia|]. split; [lia|]. split; [lia|].
    split; [lia|]. split; [lia|]. split; [|lia].
    exists [2; 0]. split; [reflexivity|]. split; [reflexivity|].
    repeat constructor; lia.
  - reflexivity.
  - apply NoDup_cons. split; [|apply NoDup_singleton].
    intros [H|H%elem_of_nil]%elem_of_cons; [lia|done].
Defined.

(** ** Calls on the two channels *)


(** ** A second initialisation, and the decoding of the field codes *)

(** X25: [cs_paramedmem_init_meshes] has no guard against a second
    call: called again on the session it left, it runs again, applies
    the mesh copy a second time to every mesh and builds both parallel
    meshes anew on the same groups. *)
Theorem init_meshes_twice
    (copy : cs_medcoupling_mesh_t -> cs_medcoupling_mesh_t)
    (c : cs_paramedmem_coupling_t) (sd rd : InterpKernelDEC) :
  Z.of_nat (length (meshes c)) = n_meshes c ->
  Forall (fun p => is_Some p) (meshes c) ->
  send_dec c = Some sd -> recv_dec c = Some rd ->
  exists c1 c2,
    cs_paramedmem_init_meshes copy c = Ok c1 /\
    cs_paramedmem_init_meshes copy c1 = Ok c2 /\
    n_meshes c2 = n_meshes c /\
    forall (j : nat) pm, meshes c !! j = Some (Some pm) ->
      exists pm1 pm2,
        meshes c1 !! j = Some (Some pm1) /\ meshes c2 !! j = Some (Some pm2) /\
        mesh pm1 = copy (mesh pm) /\ mesh pm2 = copy (copy (mesh pm)) /\
        direction pm2 = direction pm /\
        para_mesh0 pm2 = para_mesh0 pm1 /\ para_mesh1 pm2 = para_mesh1 pm1.
Proof.
  intros Hlen Hall Hsd Hrd.
  destruct (init_meshes_loop copy c sd rd Hlen Hall Hsd Hrd)
    as (ms1 & Hinit1 & Hlen1 & Hms1).
  set (c1 := set_meshes c (n_meshes c) ms1) in *.
  assert (Hall1 : Forall (fun p => is_Some p) (meshes c1)).
  { apply init_meshes_Ok_inv in Hinit1 as (ms & Heq & _ & Hs); [|done].
    by rewrite Heq. }
  destruct (init_meshes_loop copy c1 sd rd) as (ms2 & Hinit2 & Hlen2 & Hms2);
    [simpl; lia|done|done|done|].
  eexists c1, _. split; [done|]. split; [exact Hinit2|]. split; [done|].
  intros j pm Hj. pose proof (Hms1 j pm Hj) as H1.
  pose proof (Hms2 j _ H1) as H2.
  eexists _, _. split; [exact H1|]. split; [exact H2|]. by repeat split.
Qed.

Lemma init_meshes_twice_witness :
  exists c1 c2,
    cs_paramedmem_init_meshes (fun m => m) sample_with_recv_mesh = Ok c1 /\
    cs_paramedmem_init_meshes (fun m => m) c1 = Ok c2 /\
    n_meshes c2 = n_meshes sample_with_recv_mesh /\
    forall (j : nat) pm, meshes sample_with_recv_mesh !! j = Some (Some pm) ->
      exists pm1 pm2,
        meshes c1 !! j = Some (Some pm1) /\ meshes c2 !! j = Some (Some pm2) /\
        mesh pm1 = (fun m => m) (mesh pm) /\
        mesh pm2 = (fun m => m) ((fun m => m) (mesh pm)) /\
        direction pm2 = direction pm /\
        para_mesh0 pm2 = para_mesh0 pm1 /\ para_mesh1 pm2 = para_mesh1 pm1.
Proof.
  apply (init_meshes_twice (fun m => m) sample_with_recv_mesh
           sample_send_dec sample_recv_dec).
  - reflexivity.
  - repeat constructor. by eexists.
  - reflexivity.
  - reflexivity.
Defined.

(** X26: in every branch of [cs_paramedmem_field_add] the new field
    gets an array of (located points) x dim values, the located points
    being the nodes of the mesh for field type 1 and its cells for
    every other type code, known or not; a time discretization code
    other than 1 or 2 gives NO_TIME; the field is intensive and
    conservative and carries the name given. *)
Theorem field_add_decodes_codes (c : cs_paramedmem_coupling_t)
    (field_name : string)
    (m_id d medcpl_field_type medcpl_time_discr dirflag : Z)
    (pmesh : _paramedmem_mesh_t) :
  0 <= m_id -> meshes c !! Z.to_nat m_id = Some (Some pmesh) ->
  fields_wf c ->
  exists c' e,
    cs_paramedmem_field_add c field_name m_id d medcpl_field_type
      medcpl_time_discr dirflag = Ok (c', n_fields c) /\
    fields c' !! Z.to_nat (n_fields c) = Some (Some e) /\
    fd_type (f e)
    = (if medcpl_field_type =? 1 then ON_NODES else ON_CELLS) /\
    td e = (if medcpl_time_discr =? 1 then ONE_TIME
            else if medcpl_time_discr =? 2 then LINEAR_TIME else NO_TIME) /\
    fd_td (f e) = td e /\
    fd_nature (f e) = IntensiveConservation /\ fd_name (f e) = field_name /\
    length (fd_array (f e))
    = (Z.to_nat (if (medcpl_field_type =? 1)%Z
                 then getNumberOfNodes (med_mesh (mesh pmesh))
                 else getNumberOfCells (med_mesh (mesh pmesh)))
       * Z.to_nat d)%nat.
Proof.
  intros Hm Hp [Hlen Hmax].
  unfold cs_paramedmem_field_add.
  rewrite (arr_deref_Ok _ _ pmesh) by done. rsimpl.
  rewrite int_Ok by (unfold INT_MIN, INT_MAX in *; lia). rsimpl.
  rewrite field_add_type_cases.
  apply lookup_lt_Some in Hp as Hlt.
  assert (Hn : Z.to_nat (n_fields c) = (length (fields c) + 0)%nat) by lia.
  assert (Htd :
    (if medcpl_time_discr =? cs_medcpl_no_time then NO_TIME
     else if medcpl_time_discr =? cs_medcpl_one_time then ONE_TIME
     else if medcpl_time_discr =? cs_medcpl_linear_time then LINEAR_TIME
     else NO_TIME)
    = (if medcpl_time_discr =? 1 then ONE_TIME
       else if medcpl_time_discr =? 2 then LINEAR_TIME else NO_TIME)).
  { unfold cs_medcpl_no_time, cs_medcpl_one_time, cs_medcpl_linear_time.
    by destruct (Z.eqb_spec medcpl_time_discr 0) as [->|]. }
  rewrite Htd. unfold cs_medcpl_vertex_field.
  destruct (if dirflag =? 1 then send_dec c else None) as [sd|];
    [|destruct (if dirflag =? 2 then recv_dec c else None) as [rd|]];
    rewrite realloc_store by done; rsimpl;
    rewrite arr_set_Ok by lia; rsimpl;
    eexists _, _; (split; [reflexivity|]); simpl;
    (split; [rewrite Hn, lookup_app_r by lia;
             by replace (_ + 0 - _)%nat with 0%nat by lia|]);
    simpl; rewrite length_alloc;
    by destruct (medcpl_field_type =? 1).
Qed.

Lemma field_add_decodes_codes_witness :
  exists c' e,
    cs_paramedmem_field_add sample_with_mesh "T" 0 3 7 9 2
      = Ok (c', n_fields sample_with_mesh) /\
    fields c' !! Z.to_nat (n_fields sample_with_mesh) = Some (Some e) /\
    fd_type (f e) = (if 7 =? 1 then ON_NODES else ON_CELLS) /\
    td e = (if 9 =? 1 then ONE_TIME
            else if 9 =? 2 then LINEAR_TIME else NO_TIME) /\
    fd_td (f e) = td e /\
    fd_nature (f e) = IntensiveConservation /\ fd_name (f e) = "T" /\
    length (fd_array (f e))
    = (Z.to_nat (if (7 =? 1)%Z
                 then getNumberOfNodes (med_mesh (mesh sample_mesh))
                 else getNumberOfCells (med_mesh (mesh sample_mesh)))
       * Z.to_nat 3)%nat.
Proof.
  apply (field_add_decodes_codes sample_with_mesh "T" 0 3 7 9 2 sample_mesh).
  - lia.
  - reflexivity.
  - unfold fields_wf, INT_MAX. simpl. lia.
Defined.
